(** * AIStore control plane: FQN resolver, xaction registry, download jogger
      and transactional bucket operations.

    The development embeds four source files and the demand xaction of
    package cmn:
    - [cluster/fqn.go]       (module [Fqn]),
    - [xaction/registry.go]  (module [Xreg]),
    - [downloader/jogger.go] (module [Jogger]),
    - [ais/prxtxn.go]        (module [Prxtxn]),
    - [cmn.XactDemandBase]   (module [Cmn]).
    Go strings are byte sequences: where their contents are inspected
    (fqn.go) they are lists of [ascii]; where they are only compared
    (ids, kinds, job ids) they are [string]s. *)

From Stdlib Require Import ZArith Ascii String List Lia Bool.
From stdpp Require Import base option list gmap strings.

#[local] Set Warnings "-clear-no-such-hyp".

Local Open Scope Z_scope.

(** ** Go strings as byte lists, with the [strings] and [strconv] functions
       that fqn.go calls *)
Module GoStr.

Abbreviation gostring := (list ascii).

Definition lit (s : string) : gostring := list_ascii_of_string s.

Definition dot : ascii := "."%char.
Definition slash : ascii := "/"%char.
Definition minus : ascii := "-"%char.
Definition plus : ascii := "+"%char.

(** [len(s)] *)
Definition len (s : gostring) : Z := Z.of_nat (length s).

(** [strings.Index(s, sep)] for the one-byte separators of the source:
    index of the first occurrence, [-1] when absent. *)
Fixpoint Index (s : gostring) (c : ascii) : Z :=
  match s with
  | [] => -1
  | x :: s' =>
      if decide (x = c) then 0
      else let i := Index s' c in if i <? 0 then -1 else i + 1
  end.

(** [strings.LastIndex(s, sep)], same convention. *)
Fixpoint LastIndex (s : gostring) (c : ascii) : Z :=
  match s with
  | [] => -1
  | x :: s' =>
      let i := LastIndex s' c in
      if 0 <=? i then i + 1
      else if decide (x = c) then 0 else -1
  end.

(** [strings.HasPrefix] *)
Fixpoint HasPrefix (s p : gostring) {struct p} : bool :=
  match p, s with
  | [], _ => true
  | _ :: _, [] => false
  | a :: p', b :: s' => if decide (a = b) then HasPrefix s' p' else false
  end.

(** [strings.HasSuffix] *)
Definition HasSuffix (s p : gostring) : bool := HasPrefix (rev s) (rev p).

(** Slice expressions [s[i:]], [s[:j]] and [s[i:j]].  Go panics when the
    bounds are out of range; [slice_from_checked] keeps that case. *)
Definition slice_from (s : gostring) (i : Z) : gostring := drop (Z.to_nat i) s.
Definition slice_to (s : gostring) (j : Z) : gostring := take (Z.to_nat j) s.
Definition slice (s : gostring) (i j : Z) : gostring :=
  take (Z.to_nat (j - i)) (drop (Z.to_nat i) s).

Definition slice_from_checked (s : gostring) (i : Z) : option gostring :=
  if (0 <=? i) && (i <=? len s) then Some (slice_from s i) else None.

(** [filepath.Split]: split right after the final slash. *)
Definition Split (path : gostring) : gostring * gostring :=
  let i := LastIndex path slash in
  (slice_to path (i + 1), slice_from path (i + 1)).

(** *** strconv *)

Definition int64_min : Z := - 2 ^ 63.
Definition int64_max : Z := 2 ^ 63 - 1.
Definition uint64_max : Z := 2 ^ 64 - 1.

Definition is_int64 (n : Z) : Prop := int64_min <= n <= int64_max.

(** the digit table of [strconv]: "0123456789abcdefghijklmnopqrstuvwxyz",
    restricted to base 16 *)
Definition hexdigit (d : Z) : ascii :=
  nth (Z.to_nat d) (lit "0123456789abcdef") "0"%char.

(** [formatBits] for a power-of-two base: digits are produced from the least
    significant one into a 64-byte buffer, filled from its end. *)
Fixpoint formatBits16 (room : nat) (u : Z) (a : gostring) : gostring :=
  match room with
  | O => a
  | S room' =>
      if 16 <=? u
      then formatBits16 room' (u / 16) (hexdigit (u mod 16) :: a)
      else hexdigit u :: a
  end.

(** [strconv.FormatInt(i, 16)] *)
Definition FormatInt16 (i : Z) : gostring :=
  if i <? 0 then minus :: formatBits16 64 (- i) []
  else formatBits16 64 i [].

(** value of one byte as a base-16 digit ([lower(c) - 'a' + 10] and so on) *)
Definition hexval (c : ascii) : option Z :=
  let n := Z.of_nat (nat_of_ascii c) in
  if (48 <=? n) && (n <=? 57) then Some (n - 48)
  else if (97 <=? n) && (n <=? 102) then Some (n - 97 + 10)
  else if (65 <=? n) && (n <=? 70) then Some (n - 65 + 10)
  else None.

(** the digit loop of [strconv.ParseUint(s, 16, 64)]; [None] is an error
    (syntax or range) *)
Fixpoint parseUintLoop (s : gostring) (n : Z) : option Z :=
  match s with
  | [] => Some n
  | c :: s' =>
      match hexval c with
      | None => None
      | Some d =>
          if uint64_max / 16 + 1 <=? n then None
          else
            let n1 := n * 16 + d in
            if (n1 <? n * 16) || (uint64_max <? n1) then None
            else parseUintLoop s' n1
      end
  end.

Definition ParseUint16 (s : gostring) : option Z :=
  match s with
  | [] => None
  | _ => parseUintLoop s 0
  end.

(** [strconv.ParseInt(s, 16, 64)] *)
Definition ParseInt16 (s : gostring) : option Z :=
  match s with
  | [] => None
  | c :: s' =>
      let neg := bool_decide (c = minus) in
      let s0 := if bool_decide (c = plus) || neg then s' else s in
      match ParseUint16 s0 with
      | None => None
      | Some un =>
          let cutoff := 2 ^ 63 in
          if negb neg && (cutoff <=? un) then None
          else if neg && (cutoff <? un) then None
          else Some (if neg then - un else un)
      end
  end.

(** the bytes that [FormatInt] writes for a digit *)
Definition hexchar (c : ascii) : Prop := In c (lit "0123456789abcdef").

(** the number that a digit string denotes, read from an accumulator *)
Definition hexvalue (s : gostring) (n0 : Z) : Z :=
  fold_left (fun acc c => acc * 16 + default 0 (hexval c)) s n0.

End GoStr.

(** ** cluster/fqn.go *)
Module Fqn.
Import GoStr.

Definition workfilePrefix : gostring := lit ".~~~.".
Definition DefaultWorkfileType : gostring := lit "".

(** The [ContentResolver] interface.  [GenUniqueFQN] reads the clock and the
    process-wide [spid], [ParseUniqueFQN] reads the process-wide [pid]; both
    are passed explicitly ([now] is [time.Now().UnixNano()]).  A [None]
    result of [GenUniqueFQN] is a run-time panic. *)
Record ContentResolver := {
  PermToMove : bool;
  PermToEvict : bool;
  PermToProcess : bool;
  GenUniqueFQN : Z -> Z -> gostring -> option gostring;
  ParseUniqueFQN : Z -> gostring -> gostring * bool * bool
}.

Record ContentInfo := {
  Dir : gostring;
  Base : gostring;
  Old : bool;
  Type_ : gostring
}.

(** [spid = strconv.FormatInt(pid, 16)], as set by [init] *)
Definition spid (pid : Z) : gostring := FormatInt16 pid.

(** [DefaultWorkfile.GenUniqueFQN] *)
Definition DefaultWorkfile_GenUniqueFQN (now pid : Z) (base : gostring)
  : option gostring :=
  let tieBreaker := FormatInt16 now in
  match slice_from_checked tieBreaker 5 with
  | None => None
  | Some tie => Some (base ++ dot :: tie ++ dot :: spid pid)
  end.

(** [DefaultWorkfile.ParseUniqueFQN] *)
Definition DefaultWorkfile_ParseUniqueFQN (pid : Z) (base : gostring)
  : gostring * bool * bool :=
  let pidIndex := LastIndex base dot in
  if pidIndex <? 0 then ([], false, false)
  else
    let tieIndex := LastIndex (slice_to base pidIndex) dot in
    if tieIndex <? 0 then ([], false, false)
    else
      match ParseInt16 (slice_from base (pidIndex + 1)) with
      | None => ([], false, false)
      | Some filePID =>
          (slice_to base tieIndex, negb (filePID =? pid), true)
      end.

Definition DefaultWorkfile : ContentResolver := {|
  PermToMove := false;
  PermToEvict := false;
  PermToProcess := false;
  GenUniqueFQN := DefaultWorkfile_GenUniqueFQN;
  ParseUniqueFQN := DefaultWorkfile_ParseUniqueFQN
|}.

Inductive error :=
  | ErrContainsDot (fileType : gostring)
  | ErrAlreadyRegistered (fileType : gostring).

(** [RegisterFileType]: the package-level map [registeredFileTypes] is
    threaded through; the first component is the returned error. *)
Definition RegisterFileType (fileType : gostring) (spec : ContentResolver)
    (registeredFileTypes : gmap gostring ContentResolver)
  : option error * gmap gostring ContentResolver :=
  if negb (Index fileType dot =? -1) then
    (Some (ErrContainsDot fileType), registeredFileTypes)
  else
    match registeredFileTypes !! fileType with
    | Some _ => (Some (ErrAlreadyRegistered fileType), registeredFileTypes)
    | None => (None, <[fileType := spec]> registeredFileTypes)
    end.

(** the map after [init] *)
Definition init_registeredFileTypes : gmap gostring ContentResolver :=
  snd (RegisterFileType DefaultWorkfileType DefaultWorkfile ∅).

(** the maps that successful registrations build, starting from the empty
    map that [init] makes *)
Inductive Registered : gmap gostring ContentResolver -> Prop :=
  | Registered_empty : Registered ∅
  | Registered_step reg fileType spec reg' :
      Registered reg ->
      RegisterFileType fileType spec reg = (None, reg') ->
      Registered reg'.

(** [GenContentFQN]; [None] when one of the [cmn.Assert]s fails or the
    resolver panics. *)
Definition GenContentFQN (registeredFileTypes : gmap gostring ContentResolver)
    (now pid : Z) (fqn fileType : gostring) : option gostring :=
  let '(dir, base) := Split fqn in
  if negb (HasSuffix dir [slash]) then None
  else if bool_decide (base = []) then None
  else
    match registeredFileTypes !! fileType with
    | None => None
    | Some spec =>
        match GenUniqueFQN spec now pid base with
        | None => None
        | Some u => Some (dir ++ workfilePrefix ++ fileType ++ dot :: u)
        end
    end.

(** [FileSpec]; [None] is the [nil, nil] result. *)
Definition FileSpec (registeredFileTypes : gmap gostring ContentResolver)
    (pid : Z) (fqn : gostring) : option (ContentResolver * ContentInfo) :=
  let '(dir, base) := Split fqn in
  if negb (HasSuffix dir [slash]) then None
  else if negb (HasPrefix base workfilePrefix) then None
  else if bool_decide (base = []) then None
  else
    let prefixIndex := len workfilePrefix in
    let fileTypeIndex := Index (slice_from base prefixIndex) dot in
    if fileTypeIndex <? 0 then None
    else
      let fileTypeIndex := fileTypeIndex + prefixIndex in
      match registeredFileTypes !! slice base prefixIndex fileTypeIndex with
      | None => None
      | Some spec =>
          let '(origBase, old, ok) :=
            ParseUniqueFQN spec pid (slice_from base (fileTypeIndex + 1)) in
          if negb ok then None
          else Some (spec, {| Dir := dir; Base := origBase; Old := old;
                              Type_ := slice base prefixIndex fileTypeIndex |})
      end.

End Fqn.

(** ** xaction/registry.go *)
Module Xreg.

Local Open Scope string_scope.
Local Open Scope Z_scope.

(** [cmn.XactID]: the two implementations are [cmn.XactBaseID] (a string) and
    the registry's [rebID] (an int64). *)
Inductive XactID :=
  | XactBaseID (s : string)
  | rebID (n : Z).

#[global] Instance XactID_eq_dec : EqDecision XactID.
Proof. solve_decision. Defined.

(** [strings.Compare] *)
Definition strings_Compare (a b : string) : Z :=
  match String.compare a b with
  | Eq => 0
  | Lt => -1
  | Gt => 1
  end.

(** [time.Time] as nanoseconds since the Unix epoch; [time.Time{}] is
    January 1, year 1. *)
Definition zeroTime : Z := -62135596800 * 1000000000.
Definition Hour : Z := 3600 * 1000000000.

(** constants of registry.go *)
Definition entryOldAge : Z := 1 * Hour.
Definition entriesSizeHW : Z := 300.
Definition hkFinishedCntThreshold : Z := 50.

(** [cmn.XactType*] *)
Definition XactTypeGlobal : string := "global".
Definition XactTypeBck : string := "bucket".
Definition XactTypeTask : string := "task".

Section Registry.

(** Declarations of other packages that registry.go uses: the bucket type
    with [Equal], [IsEmpty] and [HasProvider], the table [cmn.XactsMeta]
    (kind to [Type]), and the two methods of [rebID]. *)
Context {Bck : Type}.
Variable Bck_Equal : Bck -> Bck -> bool.
Variable Bck_IsEmpty : Bck -> bool.
Variable Bck_HasProvider : Bck -> bool.
Variable XactsMeta : gmap string string.
Variable rebID_String : Z -> string.
Variable rebID_Compare : Z -> string -> Z.

Definition XactID_String (id : XactID) : string :=
  match id with
  | XactBaseID s => s
  | rebID n => rebID_String n
  end.

Definition XactID_Compare (id : XactID) (other : string) : Z :=
  match id with
  | XactBaseID s => strings_Compare s other
  | rebID n => rebID_Compare n other
  end.

(** what the registry reads of a [cmn.XactBase] *)
Record Xact := {
  ID : XactID;
  XBck : Bck;
  eutime : Z
}.

Definition Finished (x : Xact) : bool := negb (eutime x =? 0).

Definition EndTime (x : Xact) : Z :=
  if eutime x =? 0 then zeroTime else eutime x.

(** [baseEntry]: [Kind()] and [Get()] *)
Record baseEntry := {
  Kind : string;
  Get : Xact
}.

Record XactQuery := {
  QID : string;
  QKind : string;
  QBck : option Bck;
  OnlyRunning : bool;
  QFinished : bool
}.

Record registryEntries := {
  active : list baseEntry;
  entries : list baseEntry;
  taskCount : Z
}.

(** [XactsMeta[kind].Type]: the zero value for a missing key *)
Definition metaType (kind : string) : string := default "" (XactsMeta !! kind).

Definition IsValidXaction (kind : string) : bool :=
  bool_decide (is_Some (XactsMeta !! kind)).

Definition matchEntry (entry : baseEntry) (query : XactQuery) : bool :=
  if negb (String.eqb (QID query) "") then
    XactID_Compare (ID (Get entry)) (QID query) =? 0
  else if String.eqb (Kind entry) (QKind query) then
    match QBck query with
    | None => true
    | Some qb =>
        if Bck_IsEmpty qb then true
        else if negb (Bck_IsEmpty qb) && Bck_Equal (XBck (Get entry)) qb
        then true
        else false
    end
  else false.

(** the loop over [e.active] of [findUnlocked] *)
Fixpoint findRunning (act : list baseEntry) (query : XactQuery)
    (finishedCnt : Z) : option baseEntry * Z :=
  match act with
  | [] => (None, finishedCnt)
  | entry :: rest =>
      if Finished (Get entry) then findRunning rest query (finishedCnt + 1)
      else if matchEntry entry query then (Some entry, finishedCnt)
      else findRunning rest query finishedCnt
  end.

(** the reverse loop over [e.entries] of [findUnlocked] *)
Definition findLatest (ents : list baseEntry) (query : XactQuery)
  : option baseEntry :=
  List.find (fun entry => matchEntry entry query) (rev ents).

(** [findUnlocked].  The outer [None] is the failed [cmn.AssertMsg]; the
    boolean says whether [go e.housekeepActive()] was spawned. *)
Definition findUnlocked (e : registryEntries) (query : XactQuery)
  : option (option baseEntry * bool) :=
  if negb (OnlyRunning query) then Some (findLatest (entries e) query, false)
  else if negb (IsValidXaction (QKind query)) then None
  else
    match findRunning (active e) query 0 with
    | (Some entry, _) => Some (Some entry, false)
    | (None, finishedCnt) =>
        Some (None, hkFinishedCntThreshold <? finishedCnt)
    end.

Definition housekeepActive (e : registryEntries) : registryEntries :=
  {| active := filter (fun entry => Finished (Get entry) = false) (active e);
     entries := entries e;
     taskCount := taskCount e |}.

(** index of the first entry whose id renders as [id] *)
Fixpoint indexOfID (l : list baseEntry) (id : string) : option nat :=
  match l with
  | [] => None
  | entry :: rest =>
      if String.eqb (XactID_String (ID (Get entry))) id then Some O
      else S <$> indexOfID rest id
  end.

(** [s[idx] = s[len(s)-1]; s = s[:len(s)-1]] *)
Definition swapRemove (l : list baseEntry) (idx : nat) : list baseEntry :=
  match last l with
  | None => l
  | Some x => take (length l - 1) (<[idx := x]> l)
  end.

Definition remove (e : registryEntries) (id : string) : registryEntries :=
  let '(ents, cnt) :=
    match indexOfID (entries e) id with
    | Some idx =>
        (swapRemove (entries e) idx,
         match entries e !! idx with
         | Some entry =>
             if String.eqb (metaType (Kind entry)) XactTypeTask
             then taskCount e - 1 else taskCount e
         | None => taskCount e
         end)
    | None => (entries e, taskCount e)
    end in
  let act :=
    match indexOfID (active e) id with
    | Some idx => swapRemove (active e) idx
    | None => active e
    end in
  {| active := act; entries := ents; taskCount := cnt |}.

Definition insert (e : registryEntries) (entry : baseEntry)
  : registryEntries :=
  {| active := (active e ++ [entry])%list;
     entries := (entries e ++ [entry])%list;
     taskCount := if String.eqb (metaType (Kind entry)) XactTypeTask
                  then taskCount e + 1 else taskCount e |}.

Definition GetLatest (e : registryEntries) (query : XactQuery)
  : option (option baseEntry * bool) :=
  findUnlocked e query.

Definition GetRunning (e : registryEntries) (query : XactQuery)
  : option (option baseEntry * bool) :=
  findUnlocked e
    {| QID := QID query; QKind := QKind query; QBck := QBck query;
       OnlyRunning := true; QFinished := QFinished query |}.

(** the "keep the most recent one" test inside the callback of
    [cleanUpFinished]: [Some true] is the early [return true], [None] a
    failed assertion *)
Definition keepCheck (e : registryEntries) (entry : baseEntry)
  : option bool :=
  let xact := Get entry in
  let eID := ID xact in
  let ty := metaType (Kind entry) in
  if String.eqb ty XactTypeGlobal then
    match findUnlocked e
            {| QID := ""; QKind := Kind entry; QBck := None;
               OnlyRunning := true; QFinished := false |} with
    | None => None
    | Some (Some found, _) => Some (bool_decide (ID (Get found) = eID))
    | Some (None, _) => Some false
    end
  else if String.eqb ty XactTypeBck then
    if negb (Bck_HasProvider (XBck xact)) then None
    else
      match findUnlocked e
              {| QID := ""; QKind := Kind entry; QBck := Some (XBck xact);
                 OnlyRunning := true; QFinished := false |} with
      | None => None
      | Some (Some found, _) => Some (bool_decide (ID (Get found) = eID))
      | Some (None, _) => Some false
      end
  else Some false.

(** one call of the callback that [cleanUpFinished] passes to [forEach];
    the accumulator is ([toRemove], [anyTaskDeleted]) *)
Definition cleanUpVisit (e : registryEntries) (startTime : Z)
    (acc : list string * bool) (entry : baseEntry)
  : option (list string * bool) :=
  let xact := Get entry in
  if negb (Finished xact) then Some acc
  else
    match keepCheck e entry with
    | None => None
    | Some true => Some acc
    | Some false =>
        if EndTime xact + entryOldAge <? startTime then
          Some ((fst acc ++ [XactID_String (ID xact)])%list,
                if String.eqb (metaType (Kind entry)) XactTypeTask
                then true else snd acc)
        else Some acc
    end.

Fixpoint forEachVisit (e : registryEntries) (startTime : Z)
    (l : list baseEntry) (acc : list string * bool)
  : option (list string * bool) :=
  match l with
  | [] => Some acc
  | entry :: rest =>
      match cleanUpVisit e startTime acc entry with
      | None => None
      | Some acc' => forEachVisit e startTime rest acc'
      end
  end.

(** [cleanUpFinished] run at [startTime = time.Now()].  [None]: an assertion
    failed.  Otherwise the registry after the run and whether
    [cmn.FreeMemToOS] was called.  The compaction of [active] that
    [findUnlocked] may spawn runs asynchronously and only drops finished
    entries from [active]; it is not part of the run. *)
Definition cleanUpFinished (e : registryEntries) (startTime : Z)
  : option (registryEntries * bool) :=
  if (taskCount e =? 0) && (Z.of_nat (length (entries e)) <=? entriesSizeHW)
  then Some (e, false)
  else
    match forEachVisit e startTime (entries e) ([], false) with
    | None => None
    | Some (toRemove, anyTaskDeleted) =>
        Some (fold_left remove toRemove e, anyTaskDeleted)
    end.

(** the query's bucket is nil, empty, or equal to the entry's bucket *)
Definition bckMatches (entry : baseEntry) (query : XactQuery) : Prop :=
  match QBck query with
  | None => True
  | Some qb =>
      Bck_IsEmpty qb = true \/ Bck_Equal (XBck (Get entry)) qb = true
  end.

(** a registry in which the ids are pairwise distinct and every active
    entry is an entry.  The registry does not see to the first: [insert]
    checks no id, so this is a condition on what was stored. *)
Definition registry_ok (e : registryEntries) : Prop :=
  NoDup ((fun entry => XactID_String (ID (Get entry))) <$> entries e) /\
  active e ⊆ entries e.

(** whether the callback puts the entry on the removal list *)
Definition removable (e : registryEntries) (startTime : Z) (x : baseEntry)
  : bool :=
  Finished (Get x) &&
  match keepCheck e x with
  | Some false => EndTime (Get x) + entryOldAge <? startTime
  | _ => false
  end.

(** [newRegistryEntries] *)
Definition newRegistryEntries : registryEntries :=
  {| active := []; entries := []; taskCount := 0 |}.

(** [registry.storeEntry] *)
Definition storeEntry (e : registryEntries) (entry : baseEntry)
  : registryEntries := insert e entry.

(** the query [XactQuery{ID: id}] *)
Definition queryID (id : string) : XactQuery :=
  {| QID := id; QKind := ""; QBck := None; OnlyRunning := false;
     QFinished := false |}.

(** the query [XactQuery{Kind: kind}] *)
Definition queryKind (kind : string) : XactQuery :=
  {| QID := ""; QKind := kind; QBck := None; OnlyRunning := false;
     QFinished := false |}.

(** [registry.GetXact]; the outer [None] is the failed [cmn.Assert(id != "")] *)
Definition GetXact (e : registryEntries) (id : string)
  : option (option baseEntry) :=
  if String.eqb id "" then None
  else fst <$> findUnlocked e (queryID id).

(** [registry.IsXactRunning] *)
Definition IsXactRunning (e : registryEntries) (query : XactQuery)
  : option bool :=
  (fun r => bool_decide (is_Some (fst r))) <$> GetRunning e query.

(** the error of [removeFinishedByID]: "xaction ... is running - duplicate
    ID?" *)
Inductive regError :=
  | ErrStillRunning (kind id : string).

(** [registry.removeFinishedByID]: the returned error and the registry *)
Definition removeFinishedByID (e : registryEntries) (id : string)
  : option (option regError * registryEntries) :=
  match findUnlocked e (queryID id) with
  | None => None
  | Some (None, _) => Some (None, e)
  | Some (Some xact, _) =>
      if negb (Finished (Get xact))
      then Some (Some (ErrStillRunning (Kind xact) id), e)
      else Some (None, remove e id)
  end.

(** the entry is of a kind whose [Type] is [cmn.XactTypeTask] *)
Definition isTask (entry : baseEntry) : bool :=
  String.eqb (metaType (Kind entry)) XactTypeTask.

(** [taskCount] is the number of task entries *)
Definition taskCount_ok (e : registryEntries) : Prop :=
  taskCount e
  = Z.of_nat (length (filter (fun x => isTask x = true) (entries e))).

(** ids are pairwise distinct in [entries] and in [active], and every
    active entry is an entry; again a condition on what was stored *)
Definition registry_wf (e : registryEntries) : Prop :=
  NoDup ((fun entry => XactID_String (ID (Get entry))) <$> entries e) /\
  NoDup ((fun entry => XactID_String (ID (Get entry))) <$> active e) /\
  active e ⊆ entries e.

(** the id of the entry is a [cmn.XactBaseID] *)
Definition hasBaseID (entry : baseEntry) : Prop :=
  exists s, ID (Get entry) = XactBaseID s.

(** The query semantics in the words of the specification, to compare
    [matchEntry] and [findUnlocked] with: "query matches when (id matches or
    id empty) and (kind matches or kind empty) and (bucket matches or bucket
    empty) and running-filter holds". *)
Definition specMatches (entry : baseEntry) (query : XactQuery) : bool :=
  (String.eqb (QID query) ""
   || (XactID_Compare (ID (Get entry)) (QID query) =? 0))
  && (String.eqb (QKind query) "" || String.eqb (Kind entry) (QKind query))
  && match QBck query with
     | None => true
     | Some qb => Bck_IsEmpty qb || Bck_Equal (XBck (Get entry)) qb
     end
  && (negb (OnlyRunning query) || negb (Finished (Get entry))).

(** the query of a latest-history lookup for the kind of an entry, and for
    its bucket when the kind is a bucket kind *)
Definition latestQuery (entry : baseEntry) : XactQuery :=
  {| QID := ""; QKind := Kind entry;
     QBck := if String.eqb (metaType (Kind entry)) XactTypeBck
             then Some (XBck (Get entry)) else None;
     OnlyRunning := false; QFinished := false |}.

(** [entry] is the most recent entry of its kind (and bucket) *)
Definition mostRecent (e : registryEntries) (entry : baseEntry) : Prop :=
  findLatest (entries e) (latestQuery entry) = Some entry.

End Registry.

(** A small concrete registry: buckets are names, the kinds are lru (global),
    ec-get (bucket) and listobjects (task). *)
Module Demo.

Definition Bck_Equal (a b : string) : bool := String.eqb a b.
Definition Bck_IsEmpty (b : string) : bool := String.eqb b "".
Definition Bck_HasProvider (b : string) : bool := true.
Definition XactsMeta : gmap string string :=
  <["lru" := XactTypeGlobal]>
    (<["ec-get" := XactTypeBck]> (<["listobjects" := XactTypeTask]> ∅)).
Definition rebID_String (n : Z) : string := "g".
Definition rebID_Compare (n : Z) (other : string) : Z := 1.

Definition mk (kind id bck : string) (eutime : Z) : @baseEntry string :=
  {| Kind := kind;
     Get := {| ID := XactBaseID id; XBck := bck; eutime := eutime |} |}.

Definition lru1 := mk "lru" "x1" "" 1000.
Definition lru2 := mk "lru" "x2" "" 2000.
Definition list1 := mk "listobjects" "t1" "b1" 0.
Definition list0 := mk "listobjects" "t0" "b1" 500.
Definition lruRunning := mk "lru" "x3" "" 0.

(** two hours and a little after the entries above ended *)
Definition later : Z := 2 * Hour + 5000.

Definition small : @registryEntries string :=
  {| active := []; entries := [lru1; lru2]; taskCount := 0 |}.

Definition withTask : @registryEntries string :=
  {| active := [list1]; entries := [list1; lru2]; taskCount := 1 |}.

Definition mixed : @registryEntries string :=
  {| active := [list1; lruRunning];
     entries := [lru1; list0; list1; lru2; lruRunning]; taskCount := 2 |}.

Definition matchEntry := Xreg.matchEntry Bck_Equal Bck_IsEmpty rebID_Compare.
Definition specMatches := Xreg.specMatches Bck_Equal Bck_IsEmpty rebID_Compare.
Definition findUnlocked :=
  Xreg.findUnlocked Bck_Equal Bck_IsEmpty XactsMeta rebID_Compare.
Definition cleanUpFinished :=
  Xreg.cleanUpFinished Bck_Equal Bck_IsEmpty Bck_HasProvider XactsMeta
    rebID_String rebID_Compare.

Definition query (id kind : string) : @XactQuery string :=
  {| QID := id; QKind := kind; QBck := None; OnlyRunning := false;
     QFinished := false |}.

Definition insert := @Xreg.insert string XactsMeta.
Definition storeEntry := @Xreg.storeEntry string XactsMeta.
Definition remove := @Xreg.remove string XactsMeta rebID_String.
Definition GetXact := Xreg.GetXact Bck_Equal Bck_IsEmpty XactsMeta rebID_Compare.
Definition GetLatest :=
  Xreg.GetLatest Bck_Equal Bck_IsEmpty XactsMeta rebID_Compare.
Definition GetRunning :=
  Xreg.GetRunning Bck_Equal Bck_IsEmpty XactsMeta rebID_Compare.
Definition IsXactRunning :=
  Xreg.IsXactRunning Bck_Equal Bck_IsEmpty XactsMeta rebID_Compare.
Definition removeFinishedByID :=
  Xreg.removeFinishedByID Bck_Equal Bck_IsEmpty XactsMeta rebID_String
    rebID_Compare.
Definition idstr (entry : @baseEntry string) : string :=
  XactID_String rebID_String (ID (Get entry)).
Definition taskCount_ok := @Xreg.taskCount_ok string XactsMeta.
Definition registry_wf := @Xreg.registry_wf string rebID_String.

(** a third lru run, with a fresh id, that has not finished *)
Definition lruNew := mk "lru" "x4" "" 0.

Definition mostRecent :=
  Xreg.mostRecent Bck_Equal Bck_IsEmpty XactsMeta rebID_Compare.

(** [withTask] after the housekeeper has run at [later] *)
Definition withTaskCleaned : @registryEntries string :=
  {| active := [list1]; entries := [list1]; taskCount := 1 |}.

(** two demand xactions; their id is the empty string, the one that
    [NewXactDemandBase] hands to [NewXactBaseWithBucket]: [ecRunning], on
    bucket b2, has not finished, [ecOld], on bucket b1, ended long ago *)
Definition ecRunning := mk "ec-get" "" "b2" 0.
Definition ecOld := mk "ec-get" "" "b1" 1000.

Definition demand : @registryEntries string :=
  {| active := [ecRunning; list1]; entries := [ecRunning; ecOld; list1];
     taskCount := 1 |}.

(** [demand] after the housekeeper has run at [later] *)
Definition demandCleaned : @registryEntries string :=
  {| active := [list1]; entries := [list1; ecOld]; taskCount := 1 |}.

(** the query [XactQuery{Kind: kind, Bck: bck}] *)
Definition queryBck (kind bck : string) : @XactQuery string :=
  {| QID := ""; QKind := kind; QBck := Some bck; OnlyRunning := false;
     QFinished := false |}.

End Demo.

End Xreg.

(** ** downloader/jogger.go *)
Module Jogger.

Local Open Scope string_scope.
Local Open Scope Z_scope.

Definition queueChSize : nat := 1000.

(** A [*singleObjectTask]: [id()] is the job id, [uid()] the request uid;
    [ptr] tells apart two task objects that carry the same pair. *)
Record singleObjectTask := {
  id : string;
  uid : string;
  ptr : nat
}.

#[global] Instance singleObjectTask_eq_dec : EqDecision singleObjectTask.
Proof. solve_decision. Defined.

(** [queue]: [ch] holds the buffered tasks in FIFO order ([None] is the nil
    channel), [m] maps a job id to its set of request uids ([None] is the nil
    map). *)
Record queue := {
  ch : option (list singleObjectTask);
  m : option (gmap string (gset string))
}.

(** the channel that [putCh] hands out: the queue's own channel or a fresh
    one-slot channel that nobody reads *)
Inductive chanRef :=
  | QueueCh
  | SinkCh.

(** the jogger together with the pending counter that it reaches through
    [j.parent.parent]: the counter of the downloader (a
    [cmn.XactDemandBase]), which is not the jogger's own but shared by all
    joggers of the downloader, one per mountpath; [cancelled] logs the calls
    of [task.cancel()], [failed] those of [markFailed], [persisted] those of
    [persist] *)
Record jogger := {
  q : queue;
  task : option singleObjectTask;
  stopAgent : bool;
  terminated : bool;
  pending : Z;
  cancelled : list singleObjectTask;
  failed : list singleObjectTask;
  persisted : list singleObjectTask
}.

Definition newQueue : queue := {| ch := Some []; m := Some ∅ |}.

(** [newJogger(d, mpath)] makes the queue and keeps the pointer to the
    dispatcher; it does not touch the counter of the downloader, whose value
    at that moment is [parent] *)
Definition newJogger (parent : Z) : jogger :=
  {| q := newQueue; task := None; stopAgent := false; terminated := false;
     pending := parent; cancelled := []; failed := []; persisted := [] |}.

Definition set_q (j : jogger) (q' : queue) : jogger :=
  {| q := q'; task := task j; stopAgent := stopAgent j;
     terminated := terminated j; pending := pending j;
     cancelled := cancelled j; failed := failed j;
     persisted := persisted j |}.

Definition set_task (j : jogger) (t : option singleObjectTask) : jogger :=
  {| q := q j; task := t; stopAgent := stopAgent j;
     terminated := terminated j; pending := pending j;
     cancelled := cancelled j; failed := failed j;
     persisted := persisted j |}.

Definition set_pending (j : jogger) (n : Z) : jogger :=
  {| q := q j; task := task j; stopAgent := stopAgent j;
     terminated := terminated j; pending := n;
     cancelled := cancelled j; failed := failed j;
     persisted := persisted j |}.

(** [queue.stopped] *)
Definition stopped (qu : queue) : bool :=
  match m qu, ch qu with
  | Some _, Some _ => false
  | _, _ => true
  end.

(** [queue.exists]; indexing a nil map finds nothing *)
Definition exists_ (qu : queue) (jobID requestUID : string) : bool :=
  match m qu with
  | None => false
  | Some mm =>
      match mm !! jobID with
      | None => false
      | Some jobM => bool_decide (requestUID ∈ jobM)
      end
  end.

(** [queue.pending] *)
Definition queue_pending (qu : queue) (jobID : string) : bool :=
  match m qu with
  | None => false
  | Some mm => bool_decide (is_Some (mm !! jobID))
  end.

(** [queue.putToSet]; [None] is the panic of a write into a nil map *)
Definition putToSet (qu : queue) (jobID requestUID : string) : option queue :=
  match m qu with
  | None => None
  | Some mm =>
      let jobM := default ∅ (mm !! jobID) in
      Some {| ch := ch qu; m := Some (<[jobID := {[requestUID]} ∪ jobM]> mm) |}
  end.

(** [queue.removeFromSet] *)
Definition removeFromSet (qu : queue) (jobID requestUID : string) : queue :=
  match m qu with
  | None => qu
  | Some mm =>
      match mm !! jobID with
      | None => qu
      | Some jobM =>
          if bool_decide (requestUID ∈ jobM) then
            let jobM' := jobM ∖ {[requestUID]} in
            if bool_decide (size jobM' = 0%nat)
            then {| ch := ch qu; m := Some (delete jobID mm) |}
            else {| ch := ch qu; m := Some (<[jobID := jobM']> mm) |}
          else qu
      end
  end.

(** [queue.putCh] *)
Definition queue_putCh (qu : queue) (t : singleObjectTask)
  : option (bool * chanRef * queue) :=
  if stopped qu || exists_ qu (id t) (uid t) then Some (false, SinkCh, qu)
  else
    match putToSet qu (id t) (uid t) with
    | None => None
    | Some qu' => Some (true, QueueCh, qu')
    end.

(** [jogger.putCh] *)
Definition putCh (j : jogger) (t : singleObjectTask)
  : option (chanRef * jogger) :=
  match queue_putCh (q j) t with
  | None => None
  | Some (ok, c, qu') =>
      let j' := set_q j qu' in
      Some (c, if ok then set_pending j' (pending j' + 1) else j')
  end.

(** the caller's send [ch <- t] on the channel it was handed; [None] when the
    send cannot proceed (buffer full, or nil channel) *)
Definition send (j : jogger) (c : chanRef) (t : singleObjectTask)
  : option jogger :=
  match c with
  | SinkCh => Some j
  | QueueCh =>
      match ch (q j) with
      | None => None
      | Some buf =>
          if bool_decide (length buf < queueChSize)%nat
          then Some (set_q j {| ch := Some (buf ++ [t])%list; m := m (q j) |})
          else None
      end
  end.

(** the receive loop of [queue.get] on the buffered tasks: the first task
    whose pair is still in the set and what is left of the buffer; [None]
    when the buffer is exhausted (the receive blocks) *)
Fixpoint getLoop (qu : queue) (buf : list singleObjectTask)
  : option (singleObjectTask * list singleObjectTask) :=
  match buf with
  | [] => None
  | t :: rest =>
      if exists_ qu (id t) (uid t) then Some (t, rest) else getLoop qu rest
  end.

(** [queue.get] *)
Definition get (qu : queue) : option (singleObjectTask * queue) :=
  match ch qu with
  | None => None
  | Some buf =>
      match getLoop qu buf with
      | None => None
      | Some (t, rest) => Some (t, {| ch := Some rest; m := m qu |})
      end
  end.

(** [queue.delete] *)
Definition delete (qu : queue) (t : singleObjectTask) : bool * queue :=
  (exists_ qu (id t) (uid t), removeFromSet qu (id t) (uid t)).

(** [queue.cleanup] *)
Definition cleanup (qu : queue) : queue := {| ch := None; m := None |}.

(** [queue.removeJob] *)
Definition removeJob (qu : queue) (jobID : string) : Z * queue :=
  if stopped qu then (0, qu)
  else
    match m qu with
    | None => (0, qu)
    | Some mm =>
        match mm !! jobID with
        | None => (0, qu)
        | Some jobM =>
            (Z.of_nat (size jobM),
             {| ch := ch qu; m := Some (base.delete jobID mm) |})
        end
    end.

(** [jogger.abortJob] *)
Definition abortJob (j : jogger) (jobID : string) : jogger :=
  let '(cnt, qu') := removeJob (q j) jobID in
  let j1 := set_pending (set_q j qu') (pending j - cnt) in
  match task j1 with
  | Some t =>
      if String.eqb (id t) jobID then
        {| q := q j1; task := task j1; stopAgent := stopAgent j1;
           terminated := terminated j1; pending := pending j1;
           cancelled := (cancelled j1 ++ [t])%list; failed := failed j1;
           persisted := persisted j1 |}
      else j1
  | None => j1
  end.

(** [jogger.pending] *)
Definition jogger_pending (j : jogger) (jobID : string) : bool :=
  match task j with
  | Some t => String.eqb (id t) jobID || queue_pending (q j) jobID
  | None => queue_pending (q j) jobID
  end.

(** [jogger.stop], up to the wait on [terminateCh] *)
Definition stop (j : jogger) : jogger :=
  {| q := q j; task := task j; stopAgent := true;
     terminated := terminated j; pending := pending j;
     cancelled := cancelled j;
     failed := match task j with
               | Some t => (failed j ++ [t])%list
               | None => failed j
               end;
     persisted := persisted j |}.

(** One iteration of the loop of [jogger.jog] up to the call of
    [t.download()]: dequeue, then either install the task or, when the
    jogger was stopped, leave the loop ([q.cleanup] and
    [terminateCh.Close]).  [None]: [q.get] blocks. *)
Definition jogTake (j : jogger) : option jogger :=
  match get (q j) with
  | None => None
  | Some (t, qu') =>
      let j1 := set_q j qu' in
      if stopAgent j1 then
        Some {| q := cleanup (q j1); task := task j1; stopAgent := true;
                terminated := true; pending := pending j1;
                cancelled := cancelled j1; failed := failed j1;
                persisted := persisted j1 |}
      else Some (set_task j1 (Some t))
  end.

(** The rest of the iteration, after [t.download()] has returned: persist,
    clear the slot, delete the pair from the set and decrement the pending
    counter if the pair was still there. *)
Definition jogFinish (j : jogger) : option jogger :=
  match task j with
  | None => None
  | Some t =>
      let j1 :=
        {| q := q j; task := None; stopAgent := stopAgent j;
           terminated := terminated j; pending := pending j;
           cancelled := cancelled j; failed := failed j;
           persisted := (persisted j ++ [t])%list |} in
      let '(existed, qu') := delete (q j1) t in
      let j2 := set_q j1 qu' in
      Some (if existed then set_pending j2 (pending j2 - 1) else j2)
  end.

(** The operations that other goroutines and the jogger's own loop perform
    on a jogger, each atomic with respect to the locks it takes.
    [OtherJogger n] is what the other joggers of the downloader do to the
    shared counter in the meantime: [IncPending] in their [putCh],
    [DecPending] in their [jog], [SubPending] in their [abortJob], [n] in
    all. *)
Inductive action :=
  | Submit (t : singleObjectTask)
  | JogTake
  | JogFinish
  | AbortJob (jobID : string)
  | Stop
  | OtherJogger (n : Z).

(** [Submit t] is the dispatcher's [j.putCh(t) <- t]. *)
Definition exec (a : action) (j : jogger) : option jogger :=
  match a with
  | Submit t =>
      match putCh j t with
      | None => None
      | Some (c, j') => send j' c t
      end
  | JogTake => if terminated j then None
               else match task j with
                    | Some _ => None
                    | None => jogTake j
                    end
  | JogFinish => jogFinish j
  | AbortJob jobID => Some (abortJob j jobID)
  | Stop => Some (stop j)
  | OtherJogger n => Some (set_pending j (pending j + n))
  end.

Fixpoint run (tr : list action) (j : jogger) : option jogger :=
  match tr with
  | [] => Some j
  | a :: tr' =>
      match exec a j with
      | None => None
      | Some j' => run tr' j'
      end
  end.

(** the tasks that are queued (buffered in the channel with their pair
    still accepted) or in flight (the current task) *)
Definition live (j : jogger) : list singleObjectTask :=
  (match task j with Some t => [t] | None => [] end ++
   filter (fun t => exists_ (q j) (id t) (uid t) = true)
          (default [] (ch (q j))))%list.


(** the request uids that the set holds for a job *)
Definition jobEntries (qu : queue) (jobID : string) : gset string :=
  match m qu with
  | Some mm => default ∅ (mm !! jobID)
  | None => ∅
  end.

(** [newQueue] makes both the channel and the map, [cleanup] drops both *)
Definition queue_ok (qu : queue) : Prop :=
  ch qu = None <-> m qu = None.




(** the number of (job id, request uid) pairs that the set holds *)
Definition setSize (mm : gmap string (gset string)) : nat :=
  map_fold (fun _ (s : gset string) n => (size s + n)%nat) 0%nat mm.

(** [removeFromSet] deletes a job's entry when its last pair goes: no job is
    mapped to an empty set *)
Definition noEmpty (qu : queue) : Prop :=
  forall mm a s, m qu = Some mm -> mm !! a = Some s -> s <> ∅.

(** what the other joggers have added to the shared counter in a run *)
Fixpoint others (tr : list action) : Z :=
  match tr with
  | [] => 0
  | OtherJogger n :: tr' => n + others tr'
  | _ :: tr' => others tr'
  end.

(** what holds of a jogger in every run, aborts included: until the loop
    exits the queue has its channel and its map, no job is mapped to an empty
    set and the counter of the downloader is [base], what it would be
    without this jogger, plus the number of pairs in the set of this jogger;
    once the loop has exited both are nil and no task is current *)
Definition WF (base : Z) (j : jogger) : Prop :=
  match m (q j), ch (q j) with
  | Some mm, Some _ =>
      terminated j = false /\ noEmpty (q j) /\
      pending j = base + Z.of_nat (setSize mm)
  | None, None => terminated j = true /\ task j = None
  | _, _ => False
  end.

(** the buffered task is no longer accepted by [queue.get] *)
Definition dropped (qu : queue) (t : singleObjectTask) : Prop :=
  exists_ qu (id t) (uid t) = false.

(** two task objects of one request of job [j1] *)
Module Demo.
Definition t1 : singleObjectTask := {| id := "j1"; uid := "u1"; ptr := 1 |}.
Definition t1' : singleObjectTask := {| id := "j1"; uid := "u1"; ptr := 2 |}.
Definition t2 : singleObjectTask := {| id := "j1"; uid := "u2"; ptr := 3 |}.
Definition t3 : singleObjectTask := {| id := "j2"; uid := "u1"; ptr := 4 |}.

(** the jogger after [t1] was submitted *)
Definition afterT1 : jogger :=
  default (newJogger 0) (run [Submit t1] (newJogger 0)).

(** the jogger with [t1] running and [t2], [t3] queued *)
Definition busy : jogger :=
  default (newJogger 0)
    (run [Submit t1; Submit t2; Submit t3; JogTake] (newJogger 0)).


Definition aborted : jogger :=
  default (newJogger 0)
    (run [Submit t1; JogTake; AbortJob "j1"] (newJogger 0)).



(** the jogger is stopped while [t1] is queued, and the loop comes round *)
Definition stoppedRun : list action := [Submit t1; Stop; JogTake].
Definition exited : jogger :=
  default (newJogger 0) (run stoppedRun (newJogger 0)).

(** a jogger made when the counter of the downloader was at 5: [t1] and [t2]
    are queued, and the other joggers added 2 and took 1 in the meantime *)
Definition sharedRun : list action :=
  [Submit t1; OtherJogger 2; Submit t2; OtherJogger (-1)].
Definition shared : jogger :=
  default (newJogger 5) (run sharedRun (newJogger 5)).
End Demo.

End Jogger.

(** ** ais/prxtxn.go *)
Module Prxtxn.

Local Open Scope string_scope.
Local Open Scope Z_scope.

(** action names and URL segments ([cmn] constants) *)
Definition ActBegin : string := "begin".
Definition ActCommit : string := "commit".
Definition ActAbort : string := "abort".
Definition ActRenameLB : string := "renamelb".
Definition ActSetBprops : string := "setbprops".
Definition ActResetBprops : string := "resetbprops".
Definition Version : string := "v1".
Definition Txn : string := "txn".
Definition URLParamTxnTimeout : string := "txn_timeout".
Definition URLParamTxnEvent : string := "txn_event".
Definition txnCommitEventNone : string := "none".
Definition txnCommitEventMetasync : string := "metasync".

(** [cmn.URLPath(segments...)]: a path is kept as its list of segments *)
Definition URLPath (segments : list string) : list string := segments.

Record MirrorConf := {
  Mirror_Enabled : bool;
  Mirror_Copies : Z
}.

Record ECConf := {
  EC_Enabled : bool;
  EC_DataSlices : Z;
  EC_ParitySlices : Z
}.

#[global] Instance ECConf_eq_dec : EqDecision ECConf.
Proof. solve_decision. Defined.

Section Proxy.

(** Declarations of other packages and files that prxtxn.go uses:
    - [Bck]: the bucket key ([cmn.Bck]) with its [Name];
    - [Rest]: the fields of [cmn.BucketProps] that prxtxn.go never touches;
    - [RawValue]: the client-supplied [msg.Value], parsed by [parseNCopies];
    - [PropsToUpdate] with [BucketProps.Apply], and [BucketProps.Validate];
    - [Header] with [cmn.CloudBucketProps], and [cmn.DefaultBucketProps];
    - [Smap] with [isPrimary] and [CountTargets];
    - the configuration values read through [cmn.GCO.Get()];
    - [cmn.GenUUID], [cmn.UnixNano2S], [cmn.AddBckToQuery]. *)
Context {Bck : Type} `{Countable Bck}.
Context {Rest RawValue PropsToUpdate Header Smap : Type}.
Variable Bck_Name : Bck -> string.

(** [cmn.BucketProps]; [Clone] copies the value *)
Record BucketProps := {
  Mirror : MirrorConf;
  EC : ECConf;
  Renamed : string;
  rest : Rest
}.

Inductive error :=
  | ErrorBucketAlreadyExists (bck : Bck) (node : string)
  | ErrorBucketDoesNotExist (bck : Bck) (node : string)
  | ErrorBucketIsBusy (bck : Bck) (node : string)
  | ErrCannotRename (cause : error)
  | ErrECReconfig
  | ErrOther (msg : string).

Variable Apply : BucketProps -> PropsToUpdate -> BucketProps.
Variable Validate : BucketProps -> Z -> option error.
Variable DefaultBucketProps : BucketProps.
Variable CloudBucketProps : Header -> BucketProps.
Variable isPrimary : Smap -> bool.
Variable CountTargets : Smap -> Z.
Variable pname : string.
Variable CplaneOperation : Z.
Variable MaxKeepalive : Z.
Variable LongTimeout : Z.
Variable cfg_Mirror_Copies : Z.
Variable GenUUID : nat -> string.
Variable UnixNano2S : Z -> string.
Variable AddBckToQuery : gmap string string -> Bck -> gmap string string.

(** [interface{}] values carried by [cmn.ActionMsg.Value] *)
Inductive value :=
  | VRaw (v : RawValue)
  | VProps (p : BucketProps)
  | VBck (b : Bck)
  | VNil.

Record ActionMsg := {
  Action : string;
  Value : value
}.

(** [p.parseNCopies(value)]: the number of copies or an error *)
Variable parseNCopies : value -> Z + error.

Record aisMsg := {
  amsg : ActionMsg;
  TxnID : string;
  BMDVersion : Z;
  RMDVersion : Z
}.

(** [bucketMD] *)
Record bucketMD := {
  BVersion : Z;
  Buckets : gmap Bck BucketProps
}.

(** [rebMD] *)
Record rebMD := {
  RVersion : Z;
  Resilver : bool
}.

Record ReqArgs := {
  Path : list string;
  Query : gmap string string;
  Body : aisMsg
}.

Record bcastArgs := {
  req : ReqArgs;
  smap : Smap;
  timeout : option Z
}.

(** what [metasyncer.sync] is given *)
Inductive revs :=
  | RevsBMD (b : bucketMD)
  | RevsRMD (r : rebMD).

(** background goroutines started by rename and copy *)
Inductive goroutine :=
  | waitRebalance (rmd : rebMD) (nlpFrom nlpTo : Bck)
  | waitCopyBuckets (bckTo nlpFrom nlpTo : Bck).

(** state of one [cluster.NameLockPair] *)
Inductive nlp :=
  | Unlocked
  | RLocked (readers : nat)
  | WLocked.

(** The targets, as the proxy sees them: the results that a broadcast
    collects (one per target, [None] for success), and whether a rebalance
    can start. *)
Variable targets : bcastArgs -> list (option error).
Variable canStartRebalance : option error.

(** the proxy: [p.owner.bmd], [p.owner.rmd], [p.owner.smap], the name locks,
    and what it has sent so far.  A method runs to its end without
    interleaving, so the writer lock [p.owner.bmd.Lock()], which only
    serializes writers, is always free when asked for and is left out. *)
Record proxy := {
  bmd : bucketMD;
  rmd : rebMD;
  psmap : Smap;
  locks : gmap Bck nlp;
  uuids : nat;
  bcasts : list bcastArgs;
  synced : list (revs * aisMsg);
  spawned : list goroutine
}.

(** *** bucketMD *)

(** Modelled from the spec: [bucketMD.Get], [add], [set], [del], [clone] and
    [version] are declared in a file that is not part of this development.
    The BMD is [{version, buckets}], "create iff not present", "destroy iff
    present", and "version strictly increases on every committed
    mutation". *)
Definition bmd_Get (b : bucketMD) (bck : Bck) : option BucketProps :=
  Buckets b !! bck.

Definition bmd_add (b : bucketMD) (bck : Bck) (p : BucketProps)
  : bool * bucketMD :=
  match Buckets b !! bck with
  | Some _ => (false, b)
  | None => (true, {| BVersion := BVersion b + 1;
                      Buckets := <[bck := p]> (Buckets b) |})
  end.

Definition bmd_set (b : bucketMD) (bck : Bck) (p : BucketProps) : bucketMD :=
  {| BVersion := BVersion b + 1; Buckets := <[bck := p]> (Buckets b) |}.

Definition bmd_del (b : bucketMD) (bck : Bck) : bool * bucketMD :=
  match Buckets b !! bck with
  | None => (false, b)
  | Some _ => (true, {| BVersion := BVersion b + 1;
                        Buckets := delete bck (Buckets b) |})
  end.

(** *** the control flow of a proxy method *)

(** How a step ends: with a value, with the method's [return err], with a
    panic (failed assertion), or waiting for a lock that is held. *)
Inductive res (A : Type) :=
  | Val (a : A)
  | Return (err : option error)
  | Panic
  | Blocked.
Arguments Val {A} a.
Arguments Return {A} err.
Arguments Panic {A}.
Arguments Blocked {A}.

Definition M (A : Type) : Type := proxy -> proxy * res A.

Definition ret {A} (a : A) : M A := fun p => (p, Val a).

Definition bind {A B} (m : M A) (k : A -> M B) : M B :=
  fun p =>
    match m p with
    | (p', Val a) => k a p'
    | (p', Return e) => (p', Return e)
    | (p', Panic) => (p', Panic)
    | (p', Blocked) => (p', Blocked)
    end.

Notation "x <- m ;; k" := (bind m (fun x => k))
  (at level 100, m at next level, right associativity).
Notation "m ;;; k" := (bind m (fun _ => k))
  (at level 100, right associativity).

Definition return_ {A} (e : option error) : M A := fun p => (p, Return e).
Definition Assert (b : bool) : M unit :=
  fun p => if b then (p, Val tt) else (p, Panic).

(** [defer f()]: [f] runs when the method returns *)
Definition defer {A} (f : proxy -> proxy) (body : M A) : M A :=
  fun p => let '(p', r) := body p in (f p', r).

Definition get_bmd : M bucketMD := fun p => (p, Val (bmd p)).
Definition get_smap : M Smap := fun p => (p, Val (psmap p)).

Definition put_bmd (b : bucketMD) : M unit :=
  fun p => ({| bmd := b; rmd := rmd p; psmap := psmap p; locks := locks p;
               uuids := uuids p; bcasts := bcasts p; synced := synced p;
               spawned := spawned p |}, Val tt).

Definition put_rmd (r : rebMD) : M unit :=
  fun p => ({| bmd := bmd p; rmd := r; psmap := psmap p; locks := locks p;
               uuids := uuids p; bcasts := bcasts p; synced := synced p;
               spawned := spawned p |}, Val tt).

Definition set_locks (l : gmap Bck nlp) (p : proxy) : proxy :=
  {| bmd := bmd p; rmd := rmd p; psmap := psmap p; locks := l;
     uuids := uuids p; bcasts := bcasts p; synced := synced p;
     spawned := spawned p |}.

(** [p.bcastPost(args)]: the request goes out and the results come back *)
Definition bcastPost (args : bcastArgs) : M (list (option error)) :=
  fun p => ({| bmd := bmd p; rmd := rmd p; psmap := psmap p;
               locks := locks p; uuids := uuids p;
               bcasts := (bcasts p ++ [args])%list; synced := synced p;
               spawned := spawned p |}, Val (targets args)).

(** [p.metasyncer.sync(pair)] followed by [wg.Wait()] *)
Definition metasync (pair : revs * aisMsg) : M unit :=
  fun p => ({| bmd := bmd p; rmd := rmd p; psmap := psmap p;
               locks := locks p; uuids := uuids p; bcasts := bcasts p;
               synced := (synced p ++ [pair])%list;
               spawned := spawned p |}, Val tt).

Definition go (g : goroutine) : M unit :=
  fun p => ({| bmd := bmd p; rmd := rmd p; psmap := psmap p;
               locks := locks p; uuids := uuids p; bcasts := bcasts p;
               synced := synced p;
               spawned := (spawned p ++ [g])%list |}, Val tt).

Definition fresh_uuid : M string :=
  fun p => ({| bmd := bmd p; rmd := rmd p; psmap := psmap p;
               locks := locks p; uuids := S (uuids p); bcasts := bcasts p;
               synced := synced p; spawned := spawned p |},
            Val (GenUUID (uuids p))).

(** *** name locks *)

(** Modelled from the spec: [cluster.NameLockPair] is declared in a file that
    is not part of this development; it is the "per-bucket reader/writer
    lock, [try_lock] variants for transactional ops". *)
Definition lock_of (p : proxy) (bck : Bck) : nlp :=
  default Unlocked (locks p !! bck).

Definition nlp_Lock (bck : Bck) : M unit :=
  fun p =>
    match lock_of p bck with
    | Unlocked => (set_locks (<[bck := WLocked]> (locks p)) p, Val tt)
    | _ => (p, Blocked)
    end.

Definition nlp_TryLock (bck : Bck) : M bool :=
  fun p =>
    match lock_of p bck with
    | Unlocked => (set_locks (<[bck := WLocked]> (locks p)) p, Val true)
    | _ => (p, Val false)
    end.

Definition nlp_TryRLock (bck : Bck) : M bool :=
  fun p =>
    match lock_of p bck with
    | Unlocked => (set_locks (<[bck := RLocked 1]> (locks p)) p, Val true)
    | RLocked n => (set_locks (<[bck := RLocked (S n)]> (locks p)) p, Val true)
    | WLocked => (p, Val false)
    end.

Definition unlock (bck : Bck) (p : proxy) : proxy :=
  set_locks (<[bck := Unlocked]> (locks p)) p.

Definition runlock (bck : Bck) (p : proxy) : proxy :=
  match lock_of p bck with
  | RLocked (S (S n)) => set_locks (<[bck := RLocked (S n)]> (locks p)) p
  | _ => set_locks (<[bck := Unlocked]> (locks p)) p
  end.

Definition nlp_Unlock (bck : Bck) : M unit := fun p => (unlock bck p, Val tt).
Definition nlp_RUnlock (bck : Bck) : M unit :=
  fun p => (runlock bck p, Val tt).

(** *** helpers of prxtxn.go *)

Record txnClientCtx := {
  c_uuid : string;
  c_smap : Smap;
  c_msg : aisMsg;
  c_body : aisMsg;
  c_path : list string;
  c_timeout : Z;
  c_req : ReqArgs
}.

(** [p.newAisMsg(msg, smap, bmd)] *)
Definition newAisMsg (msg : ActionMsg) (b : option bucketMD) : aisMsg :=
  {| amsg := msg; TxnID := "";
     BMDVersion := match b with Some b => BVersion b | None => 0 end;
     RMDVersion := 0 |}.

Definition prepTxnClient (msg : ActionMsg) (bck : Bck) : M txnClientCtx :=
  sm <- get_smap ;;
  Assert (isPrimary sm) ;;;
  uuid <- fresh_uuid ;;
  let m0 := newAisMsg msg None in
  let cmsg := {| amsg := amsg m0; TxnID := uuid; BMDVersion := BMDVersion m0;
                 RMDVersion := RMDVersion m0 |} in
  let path := URLPath [Version; Txn; Bck_Name bck] in
  let query := AddBckToQuery ∅ bck in
  let query := <[URLParamTxnTimeout := UnixNano2S CplaneOperation]> query in
  ret {| c_uuid := uuid; c_smap := sm; c_msg := cmsg; c_body := cmsg;
         c_path := path; c_timeout := CplaneOperation;
         c_req := {| Path := URLPath (path ++ [ActBegin])%list;
                     Query := query; Body := cmsg |} |}.

(** the first [res.err != nil] of [for res := range results] *)
Fixpoint firstErr (results : list (option error)) : option error :=
  match results with
  | [] => None
  | Some e :: _ => Some e
  | None :: rest => firstErr rest
  end.

Definition set_path (r : ReqArgs) (path : list string) : ReqArgs :=
  {| Path := path; Query := Query r; Body := Body r |}.

Definition set_query (r : ReqArgs) (k v : string) : ReqArgs :=
  {| Path := Path r; Query := <[k := v]> (Query r); Body := Body r |}.

Definition set_body (r : ReqArgs) (b : aisMsg) : ReqArgs :=
  {| Path := Path r; Query := Query r; Body := b |}.

Definition set_BMDVersion (m : aisMsg) (v : Z) : aisMsg :=
  {| amsg := amsg m; TxnID := TxnID m; BMDVersion := v;
     RMDVersion := RMDVersion m |}.

Definition set_RMDVersion (m : aisMsg) (v : Z) : aisMsg :=
  {| amsg := amsg m; TxnID := TxnID m; BMDVersion := BMDVersion m;
     RMDVersion := v |}.

Definition bargs (r : ReqArgs) (sm : Smap) (t : option Z) : bcastArgs :=
  {| req := r; smap := sm; timeout := t |}.

(** the begin phase shared by the five transactions: broadcast, and on the
    first error broadcast the abort, run [cleanup] and return that error *)
Definition beginPhase (c : txnClientCtx) (cleanup : proxy -> proxy)
  : M unit :=
  results <- bcastPost (bargs (c_req c) (c_smap c) None) ;;
  match firstErr results with
  | Some e =>
      let r := set_path (c_req c) (URLPath (c_path c ++ [ActAbort])%list) in
      bcastPost (bargs r (c_smap c) None) ;;;
      (fun p => (cleanup p, Return (Some e)))
  | None => ret tt
  end.

(** rollback create-bucket *)
Definition undoCreateBucket (msg : ActionMsg) (bck : Bck) : M unit :=
  b <- get_bmd ;;
  let '(deled, clone) := bmd_del b bck in
  if negb deled then ret tt
  else
    put_bmd clone ;;;
    metasync (RevsBMD clone, newAisMsg msg (Some clone)).

Definition set_mirror (p : BucketProps) (enabled : bool) (copies : Z)
  : BucketProps :=
  {| Mirror := {| Mirror_Enabled := enabled; Mirror_Copies := copies |};
     EC := EC p; Renamed := Renamed p; rest := rest p |}.

Definition set_renamed (p : BucketProps) (r : string) : BucketProps :=
  {| Mirror := Mirror p; EC := EC p; Renamed := r; rest := rest p |}.

Definition set_ec (p : BucketProps) (e : ECConf) : BucketProps :=
  {| Mirror := Mirror p; EC := e; Renamed := Renamed p; rest := rest p |}.

(** rollback make-n-copies *)
Definition undoUpdateCopies (msg : ActionMsg) (bck : Bck) (copies : Z)
    (enabled : bool) : M unit :=
  b <- get_bmd ;;
  match bmd_Get b bck with
  | None => ret tt
  | Some nprops =>
      let bprops := set_mirror nprops enabled copies in
      let clone := bmd_set b bck bprops in
      put_bmd clone ;;;
      metasync (RevsBMD clone, newAisMsg msg (Some clone))
  end.

(** [makeNprops]: the new props and the error *)
Definition makeNprops (bprops : BucketProps) (propsToUpdate : PropsToUpdate)
  : M (BucketProps * option error) :=
  sm <- get_smap ;;
  let nprops := Apply bprops propsToUpdate in
  if EC_Enabled (EC bprops) && EC_Enabled (EC nprops)
     && negb (bool_decide (EC bprops = EC nprops))
  then ret (nprops, Some ErrECReconfig)
  else
    let nprops :=
      if EC_Enabled (EC bprops) && EC_Enabled (EC nprops) then nprops
      else if EC_Enabled (EC nprops) then
        let e := EC nprops in
        let ds := if EC_DataSlices e =? 0 then 1 else EC_DataSlices e in
        let ps := if EC_ParitySlices e =? 0 then 1 else EC_ParitySlices e in
        set_ec nprops {| EC_Enabled := EC_Enabled e; EC_DataSlices := ds;
                         EC_ParitySlices := ps |}
      else nprops in
    let nprops :=
      if negb (Mirror_Enabled (Mirror bprops))
         && Mirror_Enabled (Mirror nprops) then
        if Mirror_Copies (Mirror nprops) =? 1
        then set_mirror nprops (Mirror_Enabled (Mirror nprops))
               (Z.max cfg_Mirror_Copies 2)
        else nprops
      else if Mirror_Copies (Mirror nprops) =? 1
      then set_mirror nprops false (Mirror_Copies (Mirror nprops))
      else nprops in
    ret (nprops, Validate nprops (CountTargets sm)).

(** *** the transactions *)

(** create-bucket *)
Definition createBucket (msg : ActionMsg) (bck : Bck)
    (cloudHeader : option Header) : M unit :=
  let bucketProps :=
    match cloudHeader with
    | Some h => CloudBucketProps h
    | None => DefaultBucketProps
    end in
  nlp_Lock bck ;;;
  defer (unlock bck) (
    (* 1. try add *)
    b <- get_bmd ;;
    match bmd_Get b bck with
    | Some _ => return_ (Some (ErrorBucketAlreadyExists bck pname))
    | None =>
        (* 3. begin *)
        c <- prepTxnClient msg bck ;;
        beginPhase c id ;;;
        (* 3. lock & update BMD locally *)
        b <- get_bmd ;;
        let '(added, clone) := bmd_add b bck bucketProps in
        Assert added ;;;
        put_bmd clone ;;;
        (* 4. metasync updated BMD & unlock BMD *)
        let cmsg := set_BMDVersion (c_msg c) (BVersion clone) in
        metasync (RevsBMD clone, cmsg) ;;;
        (* 5. commit *)
        let r := set_path (c_req c) (URLPath (c_path c ++ [ActCommit])%list) in
        let r := set_query r URLParamTxnTimeout (UnixNano2S MaxKeepalive) in
        results <- bcastPost (bargs r (c_smap c) (Some LongTimeout)) ;;
        match firstErr results with
        | Some e => undoCreateBucket msg bck ;;; return_ (Some e)
        | None => return_ None
        end
    end).

(** destroy AIS bucket or evict Cloud bucket *)
Definition destroyBucket (msg : ActionMsg) (bck : Bck) : M unit :=
  nlp_Lock bck ;;;
  defer (unlock bck) (
    b <- get_bmd ;;
    match bmd_Get b bck with
    | None => return_ (Some (ErrorBucketDoesNotExist bck pname))
    | Some _ =>
        let '(deled, clone) := bmd_del b bck in
        Assert deled ;;;
        put_bmd clone ;;;
        metasync (RevsBMD clone, newAisMsg msg (Some clone)) ;;;
        return_ None
    end).

(** make-n-copies *)
Definition makeNCopies (msg : ActionMsg) (bck : Bck) : M unit :=
  c <- prepTxnClient msg bck ;;
  match parseNCopies (Value msg) with
  | inr err => return_ (Some err)
  | inl copies =>
      nlp_Lock bck ;;;
      defer (unlock bck) (
        (* 1. confirm existence *)
        b <- get_bmd ;;
        match bmd_Get b bck with
        | None => return_ (Some (ErrorBucketDoesNotExist bck pname))
        | Some _ =>
            (* 2. begin *)
            beginPhase c id ;;;
            (* 3. lock & update BMD locally *)
            clone <- get_bmd ;;
            match bmd_Get clone bck with
            | None => Assert false
            | Some bprops =>
                let nprops := set_mirror bprops (1 <? copies) copies in
                let clone := bmd_set clone bck nprops in
                put_bmd clone ;;;
                (* 4. metasync updated BMD; unlock BMD *)
                let cmsg := set_BMDVersion (c_msg c) (BVersion clone) in
                metasync (RevsBMD clone, cmsg) ;;;
                (* 5. commit *)
                let r := set_path (c_req c)
                           (URLPath (c_path c ++ [ActCommit])%list) in
                results <- bcastPost (bargs r (c_smap c) (Some LongTimeout)) ;;
                match firstErr results with
                | Some e =>
                    undoUpdateCopies msg bck (Mirror_Copies (Mirror bprops))
                      (Mirror_Enabled (Mirror bprops)) ;;;
                    return_ (Some e)
                | None => return_ None
                end
            end
        end)
  end.

(** set-bucket-props *)
Definition setBucketProps (msg : ActionMsg) (bck : Bck)
    (propsToUpdate : PropsToUpdate) : M unit :=
  nlp_Lock bck ;;;
  defer (unlock bck) (
    (* 1. confirm existence *)
    b <- get_bmd ;;
    match bmd_Get b bck with
    | None => return_ (Some (ErrorBucketDoesNotExist bck pname))
    | Some bprops =>
        (* 2. begin *)
        nprops <-
          (if String.eqb (Action msg) ActSetBprops then
             r <- makeNprops bprops propsToUpdate ;;
             match snd r with
             | Some err => return_ (Some err)
             | None => ret (fst r)
             end
           else if String.eqb (Action msg) ActResetBprops then
             ret DefaultBucketProps
           else (fun p => (p, Panic))) ;;
        let nmsg := {| Action := Action msg; Value := VProps nprops |} in
        c <- prepTxnClient nmsg bck ;;
        beginPhase c id ;;;
        (* 3. lock and update BMD locally *)
        clone <- get_bmd ;;
        match bmd_Get clone bck with
        | None => Assert false
        | Some bprops =>
            nprops <-
              (if String.eqb (Action msg) ActSetBprops then
                 r <- makeNprops bprops propsToUpdate ;;
                 match snd r with
                 | Some _ => (fun p => (p, Panic))
                 | None => ret (fst r)
                 end
               else ret nprops) ;;
            let clone := bmd_set clone bck nprops in
            put_bmd clone ;;;
            (* 4. metasync updated BMD; unlock BMD *)
            let cmsg := set_BMDVersion (c_msg c) (BVersion clone) in
            metasync (RevsBMD clone, cmsg) ;;;
            (* 5. commit *)
            let r := set_path (c_req c)
                       (URLPath (c_path c ++ [ActCommit])%list) in
            bcastPost (bargs r (c_smap c) (Some LongTimeout)) ;;;
            return_ None
        end
    end).

(** [p.owner.rmd.modify(pre, post)] of rename-bucket: [pre] bumps the
    version and sets [Resilver], the clone is stored, [post] runs on it *)
Definition rmd_modify (post : rebMD -> M unit) : M rebMD :=
  fun p =>
    let clone := {| RVersion := RVersion (rmd p) + 1; Resilver := true |} in
    (put_rmd clone ;;; post clone ;;; ret clone) p.

(** rename-bucket *)
Definition renameBucket (bckFrom bckTo : Bck) (msg : ActionMsg) : M unit :=
  match canStartRebalance with
  | Some err => return_ (Some (ErrCannotRename err))
  | None =>
      okFrom <- nlp_TryLock bckFrom ;;
      if negb okFrom then return_ (Some (ErrorBucketIsBusy bckFrom pname))
      else
        okTo <- nlp_TryLock bckTo ;;
        if negb okTo then
          nlp_Unlock bckFrom ;;;
          return_ (Some (ErrorBucketIsBusy bckTo pname))
        else
          let unlock_ := fun p => unlock bckFrom (unlock bckTo p) in
          (* 1. confirm existence & non-existence *)
          b <- get_bmd ;;
          match bmd_Get b bckFrom with
          | None =>
              nlp_Unlock bckTo ;;; nlp_Unlock bckFrom ;;;
              return_ (Some (ErrorBucketDoesNotExist bckFrom pname))
          | Some _ =>
              match bmd_Get b bckTo with
              | Some _ =>
                  nlp_Unlock bckTo ;;; nlp_Unlock bckFrom ;;;
                  return_ (Some (ErrorBucketAlreadyExists bckTo pname))
              | None =>
                  let nmsg := {| Action := Action msg; Value := VBck bckTo |} in
                  c <- prepTxnClient nmsg bckFrom ;;
                  (* 2. begin *)
                  beginPhase c unlock_ ;;;
                  (* 3. lock and update BMD locally *)
                  cloneBMD <- get_bmd ;;
                  match bmd_Get cloneBMD bckFrom with
                  | None => Assert false
                  | Some bprops =>
                      let '(added, cloneBMD) := bmd_add cloneBMD bckTo bprops in
                      Assert added ;;;
                      let cloneBMD :=
                        bmd_set cloneBMD bckFrom
                          (set_renamed bprops ActRenameLB) in
                      put_bmd cloneBMD ;;;
                      (* 4. metasync updated BMD; unlock BMD *)
                      let cmsg := set_BMDVersion (c_msg c) (BVersion cloneBMD) in
                      metasync (RevsBMD cloneBMD, cmsg) ;;;
                      r <- rmd_modify (fun clone =>
                        let cmsg := set_RMDVersion cmsg (RVersion clone) in
                        (* 5. commit *)
                        let rq := set_path (c_req c)
                                    (URLPath (c_path c ++ [ActCommit])%list) in
                        let rq := set_body rq cmsg in
                        bcastPost (bargs rq (c_smap c) (Some LongTimeout)) ;;;
                        (* 6. start rebalance and resilver *)
                        metasync (RevsRMD clone, cmsg)) ;;
                      (* 7. wait for rebalance to finish and unlock buckets *)
                      go (waitRebalance r bckFrom bckTo) ;;;
                      return_ None
                  end
              end
          end
  end.

(** copy-bucket *)
Definition copyBucket (bckFrom bckTo : Bck) (msg : ActionMsg) : M unit :=
  okFrom <- nlp_TryRLock bckFrom ;;
  if negb okFrom then return_ (Some (ErrorBucketIsBusy bckFrom pname))
  else
    okTo <- nlp_TryLock bckTo ;;
    if negb okTo then
      nlp_RUnlock bckFrom ;;;
      return_ (Some (ErrorBucketIsBusy bckTo pname))
    else
      let unlock_ := fun p => runlock bckFrom (unlock bckTo p) in
      (* 1. confirm existence *)
      b <- get_bmd ;;
      match bmd_Get b bckFrom with
      | None =>
          nlp_Unlock bckTo ;;; nlp_RUnlock bckFrom ;;;
          return_ (Some (ErrorBucketDoesNotExist bckFrom pname))
      | Some _ =>
          let nmsg := {| Action := Action msg; Value := VBck bckTo |} in
          c <- prepTxnClient nmsg bckFrom ;;
          (* 2. begin *)
          beginPhase c unlock_ ;;;
          (* 3. lock and update BMD locally *)
          clone <- get_bmd ;;
          match bmd_Get clone bckFrom with
          | None => Assert false
          | Some bprops =>
              event <-
                match bmd_Get clone bckTo with
                | None =>
                    let '(added, clone) := bmd_add clone bckTo bprops in
                    Assert added ;;;
                    put_bmd clone ;;;
                    (* 4. metasync updated BMD; unlock BMD *)
                    let cmsg := set_BMDVersion (c_msg c) (BVersion clone) in
                    metasync (RevsBMD clone, cmsg) ;;;
                    ret txnCommitEventMetasync
                | Some _ => ret txnCommitEventNone
                end ;;
              (* 5. commit *)
              let r := set_path (c_req c)
                         (URLPath (c_path c ++ [ActCommit])%list) in
              let r := set_query r URLParamTxnEvent event in
              bcastPost (bargs r (c_smap c) (Some LongTimeout)) ;;;
              (* 6. wait for copy to finish and unlock buckets *)
              go (waitCopyBuckets bckTo bckFrom bckTo) ;;;
              return_ None
          end
      end.

(** *** the goroutines that wait and unlock *)

(** what one target answers to the poll of [waitRebalance]: an error, a body
    that does not unmarshal, or [len(xactStats)] *)
Inductive rebPoll :=
  | RebErr
  | RebBadJSON
  | RebStats (n : nat).

(** what one target answers to the poll of [waitCopyBuckets]: an error, a
    body that does not unmarshal, or [status.Running] *)
Inductive copyPoll :=
  | CopyErr
  | CopyBadJSON
  | CopyStatus (running : bool).

(** [for res := range results] of [waitRebalance]: [None] is the [return],
    otherwise the value of [allFinished] after the pass *)
Fixpoint rebRound (results : list rebPoll) (allFinished : bool)
  : option bool :=
  match results with
  | [] => Some allFinished
  | RebErr :: _ => None
  | RebBadJSON :: _ => None
  | RebStats n :: rest =>
      rebRound rest (if Nat.eqb n 0 then false else allFinished)
  end.

(** [for !allFinished] of [waitRebalance] over the results of its successive
    broadcasts: whether the function has returned when these are used up *)
Fixpoint rebLoop (rounds : list (list rebPoll)) : bool :=
  match rounds with
  | [] => false
  | results :: rest =>
      match rebRound results true with
      | None => true
      | Some true => true
      | Some false => rebLoop rest
      end
  end.

(** [waitRebalance]: it unlocks (deferred) when it returns; [Blocked] while
    it is still polling *)
Definition waitRebalance_run (nlpFrom nlpTo : Bck)
    (rounds : list (list rebPoll)) : M unit :=
  fun p =>
    if rebLoop rounds then (unlock nlpFrom (unlock nlpTo p), Val tt)
    else (p, Blocked).

(** how a pass over the results ends in [waitCopyBuckets] *)
Inductive roundEnd :=
  | BreakLoop
  | ContinueLoop
  | AssertFails.

(** [for res := range results] of [waitCopyBuckets] *)
Fixpoint copyRound (results : list copyPoll) : roundEnd :=
  match results with
  | [] => BreakLoop
  | CopyErr :: _ => BreakLoop
  | CopyBadJSON :: _ => AssertFails
  | CopyStatus true :: _ => ContinueLoop
  | CopyStatus false :: rest => copyRound rest
  end.

(** the loop labelled [loop] of [waitCopyBuckets] over the results of its
    successive broadcasts *)
Fixpoint copyLoop (rounds : list (list copyPoll)) : res unit :=
  match rounds with
  | [] => Blocked
  | results :: rest =>
      match copyRound results with
      | BreakLoop => Val tt
      | ContinueLoop => copyLoop rest
      | AssertFails => Panic
      end
  end.

(** [waitCopyBuckets]: it unlocks after the loop *)
Definition waitCopyBuckets_run (nlpFrom nlpTo : Bck)
    (rounds : list (list copyPoll)) : M unit :=
  fun p =>
    match copyLoop rounds with
    | Val _ => (runlock nlpFrom (unlock nlpTo p), Val tt)
    | Panic => (p, Panic)
    | _ => (p, Blocked)
    end.

(** a started goroutine, run on what its polls are answered *)
Definition runGoroutine (g : goroutine) (rebRounds : list (list rebPoll))
    (copyRounds : list (list copyPoll)) : M unit :=
  match g with
  | waitRebalance _ nlpFrom nlpTo => waitRebalance_run nlpFrom nlpTo rebRounds
  | waitCopyBuckets _ nlpFrom nlpTo =>
      waitCopyBuckets_run nlpFrom nlpTo copyRounds
  end.

(** the five transactional bucket mutations with their arguments *)
Inductive txn :=
  | CreateBucket (msg : ActionMsg) (bck : Bck) (cloudHeader : option Header)
  | MakeNCopies (msg : ActionMsg) (bck : Bck)
  | SetBucketProps (msg : ActionMsg) (bck : Bck) (propsToUpdate : PropsToUpdate)
  | RenameBucket (bckFrom bckTo : Bck) (msg : ActionMsg)
  | CopyBucket (bckFrom bckTo : Bck) (msg : ActionMsg).

Definition call (t : txn) : M unit :=
  match t with
  | CreateBucket msg bck h => createBucket msg bck h
  | MakeNCopies msg bck => makeNCopies msg bck
  | SetBucketProps msg bck u => setBucketProps msg bck u
  | RenameBucket f t msg => renameBucket f t msg
  | CopyBucket f t msg => copyBucket f t msg
  end.

(** the bucket whose name forms the transaction path *)
Definition txn_bck (t : txn) : Bck :=
  match t with
  | CreateBucket _ bck _ => bck
  | MakeNCopies _ bck => bck
  | SetBucketProps _ bck _ => bck
  | RenameBucket f _ _ => f
  | CopyBucket f _ _ => f
  end.

(** the abort request that answers a begin request: the same request and
    membership on the same transaction path, with [abort] as last segment *)
Definition abortOf (b : bcastArgs) : bcastArgs :=
  {| req := set_path (req b) (removelast (Path (req b)) ++ [ActAbort])%list;
     smap := smap b; timeout := timeout b |}.

(** *** effects of a method on the log of broadcasts and on the BMD *)

(** the method only appends to the log of broadcasts *)
Definition appending {A} (m : M A) : Prop :=
  forall p, exists l, bcasts (fst (m p)) = (bcasts p ++ l)%list.

(** the method neither broadcasts nor touches the BMD *)
Definition silent {A} (m : M A) : Prop :=
  forall p, bcasts (fst (m p)) = bcasts p /\ bmd (fst (m p)) = bmd p.

(** How a method stands with respect to its begin phase when it stops:
    nothing was broadcast and the BMD is as before; or the begin request
    went out and no target failed; or the begin request went out, a target
    failed, the abort went out and the method returned the first error with
    the BMD as before. *)
Definition beginOK (path : list string) {A} (m : M A) : Prop :=
  forall p p' r, m p = (p', r) ->
    (bcasts p' = bcasts p /\ bmd p' = bmd p) \/
    (exists b l, bcasts p' = (bcasts p ++ b :: l)%list /\
                 firstErr (targets b) = None) \/
    (exists b e, bcasts p' = (bcasts p ++ [b; abortOf b])%list /\
                 firstErr (targets b) = Some e /\
                 Path (req b) = path /\
                 r = Return (Some e) /\ bmd p' = bmd p).

(** the path of the begin request of a transaction *)
Definition beginPath (t : txn) : list string :=
  [Version; Txn; Bck_Name (txn_bck t); ActBegin].

(** the commit request that answers a begin request: the same transaction
    (path, membership, message and transaction id), with [commit] as last
    segment and the long timeout *)
Definition isCommitOf (b c : bcastArgs) : Prop :=
  Path (req c) = (removelast (Path (req b)) ++ [ActCommit])%list /\
  smap c = smap b /\ timeout b = None /\ timeout c = Some LongTimeout /\
  TxnID (Body (req c)) = TxnID (Body (req b)) /\
  amsg (Body (req c)) = amsg (Body (req b)).

(** whether the method returns the first error of its commit broadcast
    (create-bucket and make-n-copies do, the others ignore the results) *)
Definition commitChecked (t : txn) : bool :=
  match t with
  | CreateBucket _ _ _ | MakeNCopies _ _ => true
  | _ => false
  end.

(** What a method that returns has broadcast: nothing, and it returns an
    error with the BMD as before; or the begin request and the abort that
    answers it, and it returns the first error of the begin results with
    the BMD as before; or the begin request, on which no target failed, and
    the commit request that answers it, and it returns nil or, where it
    checks them, the first error of the commit results. *)
Definition logShape (t : txn) (p p' : proxy) (e : option error) : Prop :=
  (bcasts p' = bcasts p /\ e <> None /\ bmd p' = bmd p) \/
  (exists b,
     bcasts p' = (bcasts p ++ [b; abortOf b])%list /\
     Path (req b) = beginPath t /\
     firstErr (targets b) = e /\ e <> None /\ bmd p' = bmd p) \/
  (exists b c,
     bcasts p' = (bcasts p ++ [b; c])%list /\
     Path (req b) = beginPath t /\
     firstErr (targets b) = None /\ isCommitOf b c /\
     e = if commitChecked t then firstErr (targets c) else None).

(** the run of a transaction to its end *)
Definition run (t : txn) (p : proxy) : proxy * res unit := call t p.

End Proxy.

Arguments Val {Bck A} a.
Arguments Return {Bck A} err.
Arguments Panic {Bck A}.
Arguments Blocked {Bck A}.

(** A small concrete cluster: buckets are names, the membership is the
    number of targets, every target answers every broadcast. *)
Module Demo.

Definition Bck_Name (b : string) : string := b.
Definition props0 : @BucketProps unit :=
  {| Mirror := {| Mirror_Enabled := false; Mirror_Copies := 1 |};
     EC := {| EC_Enabled := false; EC_DataSlices := 0; EC_ParitySlices := 0 |};
     Renamed := ""; rest := tt |}.
Definition props2 : @BucketProps unit :=
  {| Mirror := {| Mirror_Enabled := true; Mirror_Copies := 2 |};
     EC := {| EC_Enabled := false; EC_DataSlices := 0; EC_ParitySlices := 0 |};
     Renamed := ""; rest := tt |}.
Definition Apply (p : @BucketProps unit) (u : unit) : @BucketProps unit := p.
Definition Validate (p : @BucketProps unit) (n : Z)
  : option (@error string) := None.
Definition CloudBucketProps (h : unit) : @BucketProps unit := props0.
Definition isPrimary (s : nat) : bool := true.
Definition CountTargets (s : nat) : Z := Z.of_nat s.
Definition pname : string := "p1".
Definition CplaneOperation : Z := 2000000000.
Definition MaxKeepalive : Z := 4000000000.
Definition LongTimeout : Z := 30000000000.
Definition cfg_Mirror_Copies : Z := 2.
Definition GenUUID (n : nat) : string := "uuid".
Definition UnixNano2S (z : Z) : string := "t".
Definition AddBckToQuery (q : gmap string string) (b : string)
  : gmap string string := <["bck" := b]> q.
Definition parseNCopies (v : @value string unit Z) : Z + @error string :=
  match v with
  | VRaw n => inl n
  | _ => inr (ErrOther "failed to parse copies")
  end.

Definition noSpace : @error string := ErrOther "t2: no space left".
Definition rebalancing : @error string := ErrOther "rebalance is running".

Definition targetsOk (b : @bcastArgs string unit Z nat)
  : list (option (@error string)) := [None; None; None].

(** the second target refuses every begin request *)
Definition targetsFail (b : @bcastArgs string unit Z nat)
  : list (option (@error string)) :=
  match last (Path (req b)) with
  | Some seg => if String.eqb seg ActBegin then [None; Some noSpace; None]
                else [None; None; None]
  | None => [None; None; None]
  end.

(** every target accepts the begin request (sent without a timeout of its
    own), the second one fails the commit (sent with the long timeout) *)
Definition targetsFailCommit (b : @bcastArgs string unit Z nat)
  : list (option (@error string)) :=
  match timeout b with
  | Some _ => [None; Some noSpace; None]
  | None => [None; None; None]
  end.

Definition proxy0 : @proxy string _ _ unit Z nat :=
  {| bmd := {| BVersion := 7; Buckets := <["b1" := props2]> ∅ |};
     rmd := {| RVersion := 3; Resilver := false |};
     psmap := 3%nat; locks := ∅; uuids := 0;
     bcasts := []; synced := []; spawned := [] |}.

(** [b1] is being worked on by another transaction *)
Definition proxyLocked : @proxy string _ _ unit Z nat :=
  {| bmd := bmd proxy0; rmd := rmd proxy0; psmap := 3%nat;
     locks := <["b1" := WLocked]> ∅; uuids := 0;
     bcasts := []; synced := []; spawned := [] |}.

Definition runWith targets canStartRebalance :=
  @run string _ _ unit Z unit unit nat Bck_Name Apply Validate props0
    CloudBucketProps isPrimary CountTargets pname CplaneOperation
    MaxKeepalive LongTimeout cfg_Mirror_Copies GenUUID UnixNano2S
    AddBckToQuery parseNCopies targets canStartRebalance.

Definition runOk := runWith targetsOk None.
Definition runFail := runWith targetsFail None.
Definition runNoRebalance := runWith targetsOk (Some rebalancing).
Definition runFailCommit := runWith targetsFailCommit None.

Definition msg (action : string) (v : @value string unit Z)
  : @ActionMsg string unit Z := {| Action := action; Value := v |}.

Definition copies1 : @txn string unit Z unit unit :=
  MakeNCopies (msg "makencopies" (VRaw 1)) "b1".
Definition copies2 : @txn string unit Z unit unit :=
  MakeNCopies (msg "makencopies" (VRaw 2)) "b1".
Definition rename12 : @txn string unit Z unit unit :=
  RenameBucket "b1" "b2" (msg "renamelb" VNil).
Definition create3 : @txn string unit Z unit unit :=
  CreateBucket (msg "createlb" VNil) "b3" None.
Definition copy12 : @txn string unit Z unit unit :=
  CopyBucket "b1" "b2" (msg "copybck" VNil).

Definition destroyBucket :=
  @Prxtxn.destroyBucket string _ _ unit Z nat pname.
Definition runGoroutine := @Prxtxn.runGoroutine string _ _ unit Z nat.

(** the begin request of [copies2] *)
Definition beginReq : @bcastArgs string unit Z nat :=
  {| req := {| Path := [Version; Txn; "b1"; ActBegin];
               Query := <[URLParamTxnTimeout := "t"]> (<["bck" := "b1"]> ∅);
               Body := {| amsg := msg "makencopies" (VRaw 2);
                          TxnID := "uuid"; BMDVersion := 0;
                          RMDVersion := 0 |} |};
     smap := 3%nat; timeout := None |}.

End Demo.

End Prxtxn.

(** ** cmn: the demand xaction that the downloader embeds *)
Module Cmn.

Local Open Scope Z_scope.

(** [atomic.Int64] arithmetic: the result is reduced to 64 bits, two's
    complement *)
Definition wrap64 (z : Z) : Z := (z + 2 ^ 63) mod 2 ^ 64 - 2 ^ 63.

(** the two counters of [XactDemandBase] *)
Record XactDemandBase := {
  renew : Z;
  pending : Z
}.

(** [NewXactDemandBase]: both counters start at zero *)
Definition NewXactDemandBase : XactDemandBase :=
  {| renew := 0; pending := 0 |}.

Definition Renew (r : XactDemandBase) : XactDemandBase :=
  {| renew := 1; pending := pending r |}.

Definition IncPending (r : XactDemandBase) : XactDemandBase :=
  {| renew := renew r; pending := wrap64 (pending r + 1) |}.

Definition DecPending (r : XactDemandBase) : XactDemandBase :=
  {| renew := renew r; pending := wrap64 (pending r - 1) |}.

Definition SubPending (n : Z) (r : XactDemandBase) : XactDemandBase :=
  {| renew := renew r; pending := wrap64 (pending r - n) |}.

Definition Pending (r : XactDemandBase) : Z := pending r.

(** [Timeout]: the answer and the xaction after the call ([renew.Dec()]
    takes place only when nothing is pending) *)
Definition Timeout (r : XactDemandBase) : bool * XactDemandBase :=
  if 0 <? pending r then (false, r)
  else
    let n := wrap64 (renew r - 1) in
    (n <? 0, {| renew := n; pending := pending r |}).

(** the answers of [k] successive calls of [Timeout] *)
Fixpoint timeouts (k : nat) (r : XactDemandBase) : list bool :=
  match k with
  | O => []
  | S k' => let '(b, r') := Timeout r in b :: timeouts k' r'
  end.

(** the demand xaction of the downloader as a jogger [j] of it reaches it
    through [j.parent.parent] *)
Definition ofJogger (rn : Z) (j : Jogger.jogger) : XactDemandBase :=
  {| renew := rn; pending := Jogger.pending j |}.

End Cmn.

(** * Properties *)

(** ** Go string functions *)
Module GoStrFacts.
Import GoStr.

Lemma Index_ge_m1 s c : -1 <= Index s c.
Proof.
  induction s as [|x s IH]; simpl; [lia|].
  destruct (decide (x = c)); [lia|].
  destruct (Index s c <? 0) eqn:E; lia.
Qed.

Lemma Index_absent s c : c ∉ s -> Index s c = -1.
Proof.
  induction s as [|x s IH]; simpl; intros Hn; [done|].
  apply not_elem_of_cons in Hn as [Hne Hn].
  destruct (decide (x = c)); [congruence|].
  rewrite IH by done. reflexivity.
Qed.

Lemma Index_present s c : c ∈ s -> 0 <= Index s c.
Proof.
  induction s as [|x s IH]; simpl; intros Hin; [by apply elem_of_nil in Hin|].
  destruct (decide (x = c)); [lia|].
  apply elem_of_cons in Hin as [->|Hin]; [done|].
  specialize (IH Hin).
  destruct (Index s c <? 0) eqn:E; lia.
Qed.

Lemma Index_m1_iff s c : Index s c = -1 <-> c ∉ s.
Proof.
  split; [|apply Index_absent].
  intros Hi Hin. apply Index_present in Hin. lia.
Qed.

Lemma Index_app_fresh a b c : c ∉ a -> Index (a ++ c :: b) c = len a.
Proof.
  unfold len. induction a as [|x a IH]; simpl; intros Hn.
  - destruct (decide (c = c)); [done|congruence].
  - apply not_elem_of_cons in Hn as [Hne Hn].
    destruct (decide (x = c)); [congruence|].
    rewrite IH by done.
    destruct (Z.of_nat (length a) <? 0) eqn:E; lia.
Qed.

Lemma LastIndex_absent s c : c ∉ s -> LastIndex s c = -1.
Proof.
  induction s as [|x s IH]; simpl; intros Hn; [done|].
  apply not_elem_of_cons in Hn as [Hne Hn].
  rewrite IH by done. simpl.
  destruct (decide (x = c)); [congruence|done].
Qed.

Lemma LastIndex_app_fresh a b c :
  c ∉ b -> LastIndex (a ++ c :: b) c = len a.
Proof.
  unfold len. intros Hn. induction a as [|x a IH]; simpl.
  - rewrite LastIndex_absent by done. simpl.
    destruct (decide (c = c)); [done|congruence].
  - rewrite IH.
    destruct (0 <=? Z.of_nat (length a)) eqn:E; lia.
Qed.

Lemma LastIndex_range s c : -1 <= LastIndex s c < len s.
Proof.
  unfold len. induction s as [|x s IH]; simpl; [lia|].
  destruct (0 <=? LastIndex s c) eqn:E; [lia|].
  destruct (decide (x = c)); lia.
Qed.

(** the part after the last occurrence does not contain the byte *)
Lemma LastIndex_tail_fresh s c :
  c ∉ drop (Z.to_nat (LastIndex s c + 1)) s.
Proof.
  induction s as [|x s IH]; simpl.
  - apply not_elem_of_nil.
  - destruct (0 <=? LastIndex s c) eqn:E.
    + apply Z.leb_le in E.
      replace (Z.to_nat (LastIndex s c + 1 + 1))
        with (S (Z.to_nat (LastIndex s c + 1))) by lia.
      simpl. exact IH.
    + apply Z.leb_gt in E.
      pose proof (LastIndex_range s c) as Hr.
      assert (Hm : LastIndex s c = -1) by lia.
      rewrite Hm in IH. simpl in IH. rewrite drop_0 in IH.
      destruct (decide (x = c)); simpl; rewrite ?drop_0.
      * exact IH.
      * apply not_elem_of_cons. split; [congruence|done].
Qed.

Lemma len_app a b : len (a ++ b) = len a + len b.
Proof. unfold len. rewrite length_app. lia. Qed.

Lemma len_nonneg a : 0 <= len a.
Proof. unfold len. lia. Qed.

Lemma slice_to_app a b : slice_to (a ++ b) (len a) = a.
Proof.
  unfold slice_to, len. rewrite Nat2Z.id.
  rewrite take_app_length. reflexivity.
Qed.

Lemma slice_from_app a b : slice_from (a ++ b) (len a) = b.
Proof.
  unfold slice_from, len. rewrite Nat2Z.id.
  rewrite drop_app_length. reflexivity.
Qed.

Lemma slice_app a b c : slice (a ++ b ++ c) (len a) (len a + len b) = b.
Proof.
  unfold slice, len.
  replace (Z.of_nat (length a) + Z.of_nat (length b) - Z.of_nat (length a))
    with (Z.of_nat (length b)) by lia.
  rewrite !Nat2Z.id, drop_app_length, take_app_length. reflexivity.
Qed.

Lemma Split_spec path :
  path = fst (Split path) ++ snd (Split path) /\ slash ∉ snd (Split path).
Proof.
  unfold Split, slice_to, slice_from. simpl. split.
  - symmetry. apply take_drop.
  - apply LastIndex_tail_fresh.
Qed.

Lemma Split_app d r :
  slash ∉ r -> Split (d ++ slash :: r) = ((d ++ [slash]), r).
Proof.
  intros Hr. unfold Split. rewrite LastIndex_app_fresh by done.
  replace (len d + 1) with (len (d ++ [slash]))
    by (rewrite len_app; reflexivity).
  replace (d ++ slash :: r) with ((d ++ [slash]) ++ r)
    by (rewrite <- app_assoc; reflexivity).
  rewrite slice_to_app, slice_from_app. reflexivity.
Qed.

Lemma HasPrefix_app p s : HasPrefix (p ++ s) p = true.
Proof.
  induction p as [|a p IH]; simpl; [done|].
  destruct (decide (a = a)); [exact IH|congruence].
Qed.

Lemma HasSuffix_slash_inv d :
  HasSuffix d [slash] = true -> exists d0, d = d0 ++ [slash].
Proof.
  unfold HasSuffix. simpl. intros Hs.
  destruct (rev d) as [|b r] eqn:E; [discriminate|].
  destruct (decide (slash = b)) as [<-|]; [|discriminate].
  exists (rev r). rewrite <- (rev_involutive d), E. reflexivity.
Qed.

Lemma HasSuffix_slash d : HasSuffix (d ++ [slash]) [slash] = true.
Proof.
  unfold HasSuffix. rewrite rev_app_distr. simpl.
  destruct (decide (slash = slash)); [done|congruence].
Qed.

(** *** hexadecimal digits *)

Lemma hexdigit_hexchar d : hexchar (hexdigit d).
Proof.
  unfold hexdigit, hexchar.
  destruct (Nat.lt_ge_cases (Z.to_nat d) (length (lit "0123456789abcdef")))
    as [Hlt|Hge].
  - apply nth_In. exact Hlt.
  - rewrite nth_overflow by exact Hge. simpl. auto.
Qed.

Lemma hexchar_facts c :
  hexchar c ->
  c <> dot /\ c <> slash /\ c <> minus /\ c <> plus /\ is_Some (hexval c).
Proof.
  unfold hexchar. simpl.
  intros Hc.
  repeat (destruct Hc as [<-|Hc];
          [repeat split; try discriminate; eexists; vm_compute; reflexivity|]).
  destruct Hc.
Qed.

Lemma hexval_hexdigit d : 0 <= d < 16 -> hexval (hexdigit d) = Some d.
Proof.
  intros Hd.
  assert (Hc : d = 0 \/ d = 1 \/ d = 2 \/ d = 3 \/ d = 4 \/ d = 5 \/ d = 6 \/
               d = 7 \/ d = 8 \/ d = 9 \/ d = 10 \/ d = 11 \/ d = 12 \/
               d = 13 \/ d = 14 \/ d = 15) by lia.
  repeat (destruct Hc as [->|Hc]; [vm_compute; reflexivity|]).
  subst d. vm_compute. reflexivity.
Qed.

Lemma hexval_range c d : hexval c = Some d -> 0 <= d < 16.
Proof.
  unfold hexval.
  repeat match goal with
         | |- context [if ?b then _ else _] => destruct b eqn:?
         end; intros [= <-]; lia.
Qed.

Lemma formatBits16_hexchar room u a :
  Forall hexchar a -> Forall hexchar (formatBits16 room u a).
Proof.
  revert u a. induction room as [|room IH]; simpl; intros u a Ha; [done|].
  destruct (16 <=? u).
  - apply IH. constructor; [apply hexdigit_hexchar|done].
  - constructor; [apply hexdigit_hexchar|done].
Qed.

Lemma formatBits16_length room u a :
  (length a < length (formatBits16 (S room) u a))%nat.
Proof.
  revert u a. induction room as [|room IH]; intros u a.
  - simpl. destruct (16 <=? u); simpl; lia.
  - change (formatBits16 (S (S room)) u a)
      with (if 16 <=? u
            then formatBits16 (S room) (u / 16) (hexdigit (u mod 16) :: a)
            else hexdigit u :: a).
    destruct (16 <=? u).
    + specialize (IH (u / 16) (hexdigit (u mod 16) :: a)).
      cbn [length] in IH. lia.
    + simpl. lia.
Qed.

Lemma hexvalue_cons c s n0 :
  hexvalue (c :: s) n0 = hexvalue s (n0 * 16 + default 0 (hexval c)).
Proof. reflexivity. Qed.

Lemma hexvalue_ge s n0 : 0 <= n0 -> n0 <= hexvalue s n0.
Proof.
  revert n0. induction s as [|c s IH]; intros n0 Hn.
  - unfold hexvalue. simpl. lia.
  - rewrite hexvalue_cons. assert (0 <= default 0 (hexval c)).
    { destruct (hexval c) as [d|] eqn:E; simpl; [|lia].
      apply hexval_range in E. lia. }
    etransitivity; [|apply IH]; lia.
Qed.

Lemma parseUintLoop_hexvalue s n0 :
  0 <= n0 ->
  Forall hexchar s ->
  hexvalue s n0 <= uint64_max ->
  parseUintLoop s n0 = Some (hexvalue s n0).
Proof.
  revert n0. induction s as [|c s IH]; intros n0 Hn Hs Hv; [done|].
  inversion Hs as [|? ? Hc Hs']; subst.
  destruct (hexchar_facts c Hc) as (_ & _ & _ & _ & [d Hd]).
  rewrite hexvalue_cons in *. cbn [parseUintLoop].
  rewrite Hd in *. cbn [default] in *. unfold id in *.
  pose proof (hexval_range _ _ Hd) as Hr.
  pose proof (hexvalue_ge s (n0 * 16 + d) ltac:(lia)) as Hge.
  assert (Hc1 : (uint64_max / 16 + 1 <=? n0) = false).
  { apply Z.leb_gt. change (uint64_max / 16 + 1) with (2 ^ 60).
    unfold uint64_max in *. lia. }
  rewrite Hc1.
  assert (Hc2 : (n0 * 16 + d <? n0 * 16) = false) by (apply Z.ltb_ge; lia).
  assert (Hc3 : (uint64_max <? n0 * 16 + d) = false) by (apply Z.ltb_ge; lia).
  rewrite Hc2, Hc3. cbn [orb].
  apply IH; [lia|done|done].
Qed.

Lemma hexvalue_formatBits16 room u a :
  0 <= u < 16 ^ Z.of_nat room ->
  hexvalue (formatBits16 room u a) 0 = hexvalue a u.
Proof.
  revert u a. induction room as [|room IH]; intros u a Hu.
  - simpl in Hu. assert (u = 0) by lia. subst. reflexivity.
  - simpl formatBits16.
    rewrite Nat2Z.inj_succ, Z.pow_succ_r in Hu by lia.
    destruct (16 <=? u) eqn:E.
    + apply Z.leb_le in E.
      rewrite IH.
      2:{ split; [apply Z.div_pos; lia|].
          apply Z.div_lt_upper_bound; lia. }
      rewrite hexvalue_cons.
      rewrite hexval_hexdigit by (apply Z.mod_pos_bound; lia).
      cbn [default]. unfold id. f_equal.
      pose proof (Z.div_mod u 16 ltac:(lia)). lia.
    + apply Z.leb_gt in E.
      rewrite hexvalue_cons.
      rewrite hexval_hexdigit by lia. reflexivity.
Qed.

Lemma ParseUint16_formatBits16 u :
  0 <= u <= uint64_max ->
  ParseUint16 (formatBits16 64 u []) = Some u.
Proof.
  intros Hu.
  assert (Hv : hexvalue (formatBits16 64 u []) 0 = u).
  { rewrite hexvalue_formatBits16; [reflexivity|].
    split; [lia|]. unfold uint64_max in Hu.
    assert (2 ^ 64 < 16 ^ Z.of_nat 64) by (vm_compute; reflexivity). lia. }
  pose proof (formatBits16_length 63 u []) as Hl.
  unfold ParseUint16.
  destruct (formatBits16 64 u []) as [|c s] eqn:E; [simpl in Hl; lia|].
  rewrite parseUintLoop_hexvalue.
  - rewrite Hv. reflexivity.
  - lia.
  - rewrite <- E. apply formatBits16_hexchar. constructor.
  - rewrite Hv. lia.
Qed.

Lemma FormatInt16_chars i :
  Forall (fun c => c <> dot /\ c <> slash) (FormatInt16 i).
Proof.
  assert (Hh : forall l, Forall hexchar l ->
                         Forall (fun c => c <> dot /\ c <> slash) l).
  { intros l Hl. eapply Forall_impl; [exact Hl|].
    intros c Hc. destruct (hexchar_facts c Hc) as (? & ? & _). done. }
  unfold FormatInt16. destruct (i <? 0).
  - constructor; [split; discriminate|].
    apply Hh, formatBits16_hexchar. constructor.
  - apply Hh, formatBits16_hexchar. constructor.
Qed.

(** [ParseInt] undoes [FormatInt] on every int64 *)
Lemma ParseInt16_FormatInt16 i :
  is_int64 i -> ParseInt16 (FormatInt16 i) = Some i.
Proof.
  unfold is_int64, int64_min, int64_max. intros Hi.
  unfold FormatInt16. destruct (i <? 0) eqn:E.
  - apply Z.ltb_lt in E. unfold ParseInt16. cbv zeta.
    rewrite (bool_decide_true (minus = minus)) by reflexivity.
    rewrite orb_true_r.
    rewrite ParseUint16_formatBits16 by (unfold uint64_max; lia).
    simpl negb. rewrite andb_false_l. rewrite andb_true_l.
    assert (H1 : (2 ^ 63 <? - i) = false) by (apply Z.ltb_ge; lia).
    rewrite H1. f_equal. lia.
  - apply Z.ltb_ge in E.
    pose proof (ParseUint16_formatBits16 i ltac:(unfold uint64_max; lia)) as Hp.
    pose proof (formatBits16_hexchar 64 i [] ltac:(constructor)) as Hh.
    unfold ParseInt16. cbv zeta.
    destruct (formatBits16 64 i []) as [|c s] eqn:E'; [discriminate|].
    inversion Hh as [|? ? Hc _]; subst.
    destruct (hexchar_facts c Hc) as (_ & _ & Hm & Hp' & _).
    rewrite !bool_decide_false by done. cbn [orb negb andb].
    rewrite Hp.
    assert (H1 : (2 ^ 63 <=? i) = false) by (apply Z.leb_gt; lia).
    rewrite H1. reflexivity.
Qed.

Lemma LastIndex_lookup s c :
  0 <= LastIndex s c -> s !! Z.to_nat (LastIndex s c) = Some c.
Proof.
  induction s as [|x s IH]; simpl; [lia|].
  destruct (0 <=? LastIndex s c) eqn:E.
  - apply Z.leb_le in E. intros _.
    replace (Z.to_nat (LastIndex s c + 1)) with (S (Z.to_nat (LastIndex s c)))
      by lia.
    simpl. by apply IH.
  - destruct (decide (x = c)) as [->|]; [done|lia].
Qed.

(** a string splits around the last occurrence of a byte *)
Lemma LastIndex_split s c :
  0 <= LastIndex s c ->
  s = slice_to s (LastIndex s c) ++ c :: slice_from s (LastIndex s c + 1) /\
  (c ∉ slice_from s (LastIndex s c + 1)) /\
  len (slice_to s (LastIndex s c)) = LastIndex s c.
Proof.
  intros Hi. pose proof (LastIndex_lookup s c Hi) as Hl.
  pose proof (LastIndex_range s c) as Hr.
  unfold slice_to, slice_from, len in *. split; [|split].
  - replace (Z.to_nat (LastIndex s c + 1))
      with (S (Z.to_nat (LastIndex s c))) by lia.
    symmetry. by apply take_drop_middle.
  - apply LastIndex_tail_fresh.
  - rewrite length_take. lia.
Qed.

Lemma Index_split s c :
  0 <= Index s c ->
  exists a b, s = a ++ c :: b /\ (c ∉ a) /\ len a = Index s c.
Proof.
  unfold len. induction s as [|x s IH]; simpl; [lia|].
  destruct (decide (x = c)) as [->|Hne].
  - intros _. exists [], s. split; [done|]. split; [|done].
    apply not_elem_of_nil.
  - destruct (Index s c <? 0) eqn:E; [lia|]. apply Z.ltb_ge in E.
    intros _. destruct (IH E) as (a & b & -> & Hn & Hl).
    exists (x :: a), b. split; [done|]. split.
    + apply not_elem_of_cons. split; [congruence|done].
    + simpl length. lia.
Qed.

Lemma HasPrefix_inv s p : HasPrefix s p = true -> exists r, s = p ++ r.
Proof.
  revert s. induction p as [|a p IH]; intros s; simpl.
  - intros _. by exists s.
  - destruct s as [|b s]; [discriminate|].
    destruct (decide (a = b)) as [->|]; [|discriminate].
    intros Hp. destruct (IH s Hp) as [r ->]. by exists r.
Qed.

Lemma slice_from_app1 a c b : slice_from (a ++ c :: b) (len a + 1) = b.
Proof.
  replace (a ++ c :: b) with ((a ++ [c]) ++ b)
    by (rewrite <- app_assoc; reflexivity).
  replace (len a + 1) with (len (a ++ [c]))
    by (rewrite (len_app a [c]); reflexivity).
  apply slice_from_app.
Qed.

End GoStrFacts.

(** ** cluster/fqn.go *)
Module FqnFacts.
Import GoStr GoStrFacts Fqn.

Example gen_example :
  GenContentFQN init_registeredFileTypes 1600000000000000000 4242
    (lit "/mnt/d1/ais/bck/obj.tar") (lit "")
  = Some (lit "/mnt/d1/ais/bck/.~~~..obj.tar.785d8a00000.1092").
Proof. vm_compute. reflexivity. Qed.

Example spec_example :
  option_map snd (FileSpec init_registeredFileTypes 4243
     (lit "/mnt/d1/ais/bck/.~~~..obj.tar.785d8a00000.1092"))
  = Some {| Dir := lit "/mnt/d1/ais/bck/"; Base := lit "obj.tar";
            Old := true; Type_ := lit "" |}.
Proof. vm_compute. reflexivity. Qed.

Lemma RegisterFileType_ok fileType spec reg reg' :
  RegisterFileType fileType spec reg = (None, reg') ->
  (dot ∉ fileType) /\ reg !! fileType = None /\
  reg' = <[fileType := spec]> reg.
Proof.
  unfold RegisterFileType.
  destruct (Index fileType dot =? -1) eqn:E; simpl; [|discriminate].
  apply Z.eqb_eq, Index_m1_iff in E.
  destruct (reg !! fileType) eqn:L; [discriminate|].
  intros [= <-]. done.
Qed.

Lemma init_registeredFileTypes_eq :
  init_registeredFileTypes = <[DefaultWorkfileType := DefaultWorkfile]> ∅.
Proof.
  unfold init_registeredFileTypes, RegisterFileType.
  rewrite lookup_empty. reflexivity.
Qed.

Lemma Registered_init : Registered init_registeredFileTypes.
Proof.
  apply (Registered_step ∅ DefaultWorkfileType DefaultWorkfile);
    [apply Registered_empty|].
  unfold init_registeredFileTypes, RegisterFileType.
  rewrite lookup_empty. reflexivity.
Qed.

(** a registered type never contains a dot *)
Lemma Registered_no_dot reg ty :
  Registered reg -> is_Some (reg !! ty) -> dot ∉ ty.
Proof.
  induction 1 as [|reg ft spec reg' Hreg IH Hstep]; intros Hs.
  - rewrite lookup_empty in Hs. by destruct Hs.
  - apply RegisterFileType_ok in Hstep as (Hd & _ & ->).
    destruct (decide (ft = ty)) as [<-|Hne]; [done|].
    rewrite lookup_insert_ne in Hs by done. auto.
Qed.

(** C10. [RegisterFileType] returns an error and leaves the registered
    content types unchanged whenever the file type contains a dot or a
    resolver is already registered under that type; otherwise it registers
    the resolver under that type and returns nil. *)
Theorem RegisterFileType_spec fileType spec reg :
  (dot ∈ fileType \/ is_Some (reg !! fileType) ->
   exists e, RegisterFileType fileType spec reg = (Some e, reg)) /\
  (dot ∉ fileType -> reg !! fileType = None ->
   RegisterFileType fileType spec reg = (None, <[fileType := spec]> reg)).
Proof.
  unfold RegisterFileType. split.
  - intros Hc.
    destruct (Index fileType dot =? -1) eqn:E; simpl; [|eauto].
    apply Z.eqb_eq, Index_m1_iff in E.
    destruct Hc as [Hd|[r Hr]]; [done|].
    rewrite Hr. eauto.
  - intros Hd Hn.
    apply Index_m1_iff in Hd. rewrite Hd. simpl. rewrite Hn. reflexivity.
Qed.

Lemma RegisterFileType_spec_witness :
  (exists e, RegisterFileType (lit "ec.slice") DefaultWorkfile
               init_registeredFileTypes
             = (Some e, init_registeredFileTypes)) /\
  (exists e, RegisterFileType (lit "") DefaultWorkfile
               init_registeredFileTypes
             = (Some e, init_registeredFileTypes)) /\
  RegisterFileType (lit "ec") DefaultWorkfile init_registeredFileTypes
  = (None, <[lit "ec" := DefaultWorkfile]> init_registeredFileTypes).
Proof.
  split; [|split].
  - apply (proj1 (RegisterFileType_spec (lit "ec.slice") DefaultWorkfile
                    init_registeredFileTypes)).
    left. apply list_elem_of_In. vm_compute. tauto.
  - apply (proj1 (RegisterFileType_spec (lit "") DefaultWorkfile
                    init_registeredFileTypes)).
    right. rewrite init_registeredFileTypes_eq.
    exists DefaultWorkfile. apply lookup_insert_eq.
  - apply (proj2 (RegisterFileType_spec (lit "ec") DefaultWorkfile
                    init_registeredFileTypes)).
    + intros Hin. apply list_elem_of_In in Hin. vm_compute in Hin.
      intuition discriminate.
    + vm_compute. reflexivity.
Defined.

Lemma Forall_fresh (l : gostring) c :
  Forall (fun x => x <> dot /\ x <> slash) l ->
  c = dot \/ c = slash -> c ∉ l.
Proof.
  intros Hl Hc Hin. rewrite Forall_forall in Hl.
  destruct (Hl c Hin) as [H1 H2]. destruct Hc; congruence.
Qed.

Lemma DefaultWorkfile_gen now pid base :
  5 <= len (FormatInt16 now) ->
  exists tie,
    DefaultWorkfile_GenUniqueFQN now pid base
    = Some (base ++ dot :: tie ++ dot :: spid pid) /\
    Forall (fun x => x <> dot /\ x <> slash) tie.
Proof.
  intros Hl. unfold DefaultWorkfile_GenUniqueFQN, slice_from_checked.
  cbv zeta.
  assert (Hb : (0 <=? 5) && (5 <=? len (FormatInt16 now)) = true).
  { apply andb_true_intro. split; [reflexivity|apply Z.leb_le; exact Hl]. }
  rewrite Hb. eexists. split; [reflexivity|].
  unfold slice_from. apply Forall_drop, FormatInt16_chars.
Qed.

Lemma DefaultWorkfile_parse ppid gpid base tie :
  is_int64 gpid ->
  Forall (fun x => x <> dot /\ x <> slash) tie ->
  DefaultWorkfile_ParseUniqueFQN ppid (base ++ dot :: tie ++ dot :: spid gpid)
  = (base, negb (gpid =? ppid), true).
Proof.
  intros Hp Ht.
  assert (Hs : dot ∉ spid gpid)
    by (apply Forall_fresh; [apply FormatInt16_chars|by left]).
  assert (Ht' : dot ∉ tie) by (apply Forall_fresh; [done|by left]).
  unfold DefaultWorkfile_ParseUniqueFQN. cbv zeta.
  replace (base ++ dot :: tie ++ dot :: spid gpid)
    with ((base ++ dot :: tie) ++ dot :: spid gpid)
    by (rewrite <- app_assoc; reflexivity).
  rewrite LastIndex_app_fresh by done.
  pose proof (len_nonneg (base ++ dot :: tie)) as Hn.
  destruct (len (base ++ dot :: tie) <? 0) eqn:E1;
    [apply Z.ltb_lt in E1; lia|].
  rewrite (slice_to_app (base ++ dot :: tie) (dot :: spid gpid)).
  rewrite (LastIndex_app_fresh base tie dot) by done.
  pose proof (len_nonneg base) as Hn'.
  destruct (len base <? 0) eqn:E2; [apply Z.ltb_lt in E2; lia|].
  assert (Hsf : slice_from ((base ++ dot :: tie) ++ dot :: spid gpid)
                  (len (base ++ dot :: tie) + 1) = spid gpid).
  { replace ((base ++ dot :: tie) ++ dot :: spid gpid)
      with (((base ++ dot :: tie) ++ [dot]) ++ spid gpid)
      by (rewrite <- !app_assoc; reflexivity).
    replace (len (base ++ dot :: tie) + 1)
      with (len ((base ++ dot :: tie) ++ [dot]))
      by (rewrite (len_app _ [dot]); reflexivity).
    apply slice_from_app. }
  rewrite Hsf.
  unfold spid. rewrite ParseInt16_FormatInt16 by done.
  replace ((base ++ dot :: tie) ++ dot :: FormatInt16 gpid)
    with (base ++ (dot :: tie) ++ dot :: FormatInt16 gpid)
    by (rewrite <- !app_assoc; reflexivity).
  rewrite (slice_to_app base). reflexivity.
Qed.

Lemma workfilePrefix_fresh : slash ∉ workfilePrefix.
Proof.
  intros Hin. apply list_elem_of_In in Hin. vm_compute in Hin.
  intuition discriminate.
Qed.

(** C8 (amended). For every path whose directory part ends in a slash and
    whose base name is non-empty, and every workfile type without a slash
    that is registered with the default resolver, [FileSpec] applied to
    [GenContentFQN path type] recovers the original directory, the original
    base name and the type, provided the tie-breaker exists (the hexadecimal
    clock value has at least five bytes); the parsed [Old] flag is true
    exactly when the pid encoded in the name ([gpid], the generating
    process) differs from the pid of the parsing process ([ppid]), and so it
    is false when the generating process parses the name itself. *)
Theorem FileSpec_GenContentFQN reg now gpid ppid fqn fileType :
  Registered reg ->
  reg !! fileType = Some DefaultWorkfile ->
  slash ∉ fileType ->
  HasSuffix (fst (Split fqn)) [slash] = true ->
  snd (Split fqn) <> [] ->
  is_int64 gpid ->
  5 <= len (FormatInt16 now) ->
  exists g,
    GenContentFQN reg now gpid fqn fileType = Some g /\
    FileSpec reg ppid g
    = Some (DefaultWorkfile,
            {| Dir := fst (Split fqn); Base := snd (Split fqn);
               Old := negb (gpid =? ppid); Type_ := fileType |}).
Proof.
  intros Hreg Hty Hsl Hdir Hbase Hpid Hnow.
  pose proof (Registered_no_dot reg fileType Hreg ltac:(eauto)) as Hdot.
  destruct (Split_spec fqn) as [_ Hbs].
  destruct (Split fqn) as [dir base] eqn:Hsplit. simpl in *.
  destruct (DefaultWorkfile_gen now gpid base Hnow) as (tie & Hgen & Htie).
  unfold GenContentFQN. rewrite Hsplit, Hdir. simpl negb. cbv iota.
  rewrite bool_decide_false by done. rewrite Hty.
  change (GenUniqueFQN DefaultWorkfile) with DefaultWorkfile_GenUniqueFQN.
  rewrite Hgen. eexists. split; [reflexivity|].
  set (u := base ++ dot :: tie ++ dot :: spid gpid).
  set (R := workfilePrefix ++ fileType ++ dot :: u).
  assert (HR : slash ∉ R).
  { unfold R, u.
    apply not_elem_of_app; split; [apply workfilePrefix_fresh|].
    apply not_elem_of_app; split; [done|].
    apply not_elem_of_cons; split; [discriminate|].
    apply not_elem_of_app; split; [done|].
    apply not_elem_of_cons; split; [discriminate|].
    apply not_elem_of_app; split; [apply Forall_fresh; [done|by right]|].
    apply not_elem_of_cons; split; [discriminate|].
    apply Forall_fresh; [apply FormatInt16_chars|by right]. }
  destruct (HasSuffix_slash_inv dir Hdir) as [d0 ->].
  assert (HP : HasPrefix R workfilePrefix = true)
    by (unfold R; apply HasPrefix_app).
  assert (HNE : R <> []) by (unfold R; discriminate).
  assert (HSF : slice_from R (len workfilePrefix) = fileType ++ dot :: u)
    by (unfold R; apply slice_from_app).
  unfold FileSpec. cbv zeta.
  replace ((d0 ++ [slash]) ++ R) with (d0 ++ slash :: R)
    by (rewrite <- app_assoc; reflexivity).
  rewrite Split_app by done.
  rewrite HasSuffix_slash. simpl negb. cbv iota.
  rewrite ?HP. simpl negb. cbv iota.
  rewrite bool_decide_false by done.
  rewrite HSF.
  rewrite (Index_app_fresh fileType u dot) by done.
  pose proof (len_nonneg fileType) as Hn.
  destruct (len fileType <? 0) eqn:E; [apply Z.ltb_lt in E; lia|].
  replace (len fileType + len workfilePrefix)
    with (len workfilePrefix + len fileType) by lia.
  assert (Hs : slice R (len workfilePrefix) (len workfilePrefix + len fileType)
               = fileType) by (unfold R; apply slice_app).
  rewrite Hs, Hty.
  assert (Hr : slice_from R (len workfilePrefix + len fileType + 1) = u).
  { unfold R.
    replace (workfilePrefix ++ fileType ++ dot :: u)
      with ((workfilePrefix ++ fileType ++ [dot]) ++ u)
      by (rewrite <- !app_assoc; reflexivity).
    replace (len workfilePrefix + len fileType + 1)
      with (len (workfilePrefix ++ fileType ++ [dot]))
      by (rewrite !len_app; change (len [dot]) with 1; lia).
    apply slice_from_app. }
  rewrite Hr.
  change (ParseUniqueFQN DefaultWorkfile) with DefaultWorkfile_ParseUniqueFQN.
  unfold u. rewrite DefaultWorkfile_parse by done.
  reflexivity.
Qed.

Lemma FileSpec_GenContentFQN_witness :
  exists g,
    GenContentFQN init_registeredFileTypes 1600000000000000000 4242
      (lit "/mnt/d1/ais/bck/obj.tar") (lit "") = Some g /\
    FileSpec init_registeredFileTypes 4242 g
    = Some (DefaultWorkfile,
            {| Dir := fst (Split (lit "/mnt/d1/ais/bck/obj.tar"));
               Base := snd (Split (lit "/mnt/d1/ais/bck/obj.tar"));
               Old := negb (4242 =? 4242); Type_ := lit "" |}).
Proof.
  apply (FileSpec_GenContentFQN init_registeredFileTypes
           1600000000000000000 4242 4242
           (lit "/mnt/d1/ais/bck/obj.tar") (lit "")).
  - apply Registered_init.
  - rewrite init_registeredFileTypes_eq. apply lookup_insert_eq.
  - apply not_elem_of_nil.
  - vm_compute. reflexivity.
  - vm_compute. discriminate.
  - unfold is_int64, int64_min, int64_max. lia.
  - vm_compute. discriminate.
Defined.

(** C8, as stated, fails in two ways.  A path without a slash has a
    non-empty base name, yet [GenContentFQN] stops at its first assertion.
    And a type with a slash in its name registers without error, yet
    [FileSpec] finds no workfile in the name generated for it. *)
Lemma FileSpec_GenContentFQN_counterexample :
  GenContentFQN init_registeredFileTypes 1600000000000000000 4242
    (lit "obj.tar") (lit "") = None /\
  fst (RegisterFileType (lit "a/b") DefaultWorkfile init_registeredFileTypes)
  = None /\
  GenContentFQN
    (snd (RegisterFileType (lit "a/b") DefaultWorkfile
            init_registeredFileTypes))
    1600000000000000000 4242 (lit "/mnt/obj.tar") (lit "a/b")
  = Some (lit "/mnt/.~~~.a/b.obj.tar.785d8a00000.1092") /\
  FileSpec
    (snd (RegisterFileType (lit "a/b") DefaultWorkfile
            init_registeredFileTypes))
    4242 (lit "/mnt/.~~~.a/b.obj.tar.785d8a00000.1092")
  = None.
Proof. vm_compute. repeat split. Qed.

(** [ParseUniqueFQN] on any name of the form [base.tie.pid] *)
Lemma DefaultWorkfile_parse_any ppid base tie p n :
  dot ∉ tie -> dot ∉ p -> ParseInt16 p = Some n ->
  DefaultWorkfile_ParseUniqueFQN ppid (base ++ dot :: tie ++ dot :: p)
  = (base, negb (n =? ppid), true).
Proof.
  intros Ht Hp Hn.
  unfold DefaultWorkfile_ParseUniqueFQN. cbv zeta.
  replace (base ++ dot :: tie ++ dot :: p)
    with ((base ++ dot :: tie) ++ dot :: p)
    by (rewrite <- app_assoc; reflexivity).
  rewrite LastIndex_app_fresh by done.
  pose proof (len_nonneg (base ++ dot :: tie)) as Hl.
  destruct (len (base ++ dot :: tie) <? 0) eqn:E1;
    [apply Z.ltb_lt in E1; lia|].
  rewrite (slice_to_app (base ++ dot :: tie) (dot :: p)).
  rewrite (LastIndex_app_fresh base tie dot) by done.
  pose proof (len_nonneg base) as Hl'.
  destruct (len base <? 0) eqn:E2; [apply Z.ltb_lt in E2; lia|].
  rewrite slice_from_app1, Hn.
  replace ((base ++ dot :: tie) ++ dot :: p)
    with (base ++ (dot :: tie) ++ dot :: p)
    by (rewrite <- !app_assoc; reflexivity).
  rewrite (slice_to_app base). reflexivity.
Qed.

(** X1. [DefaultWorkfile.ParseUniqueFQN] accepts exactly the names of the
    form [orig.tie.pid] in which neither [tie] nor [pid] holds a dot and
    [pid] parses as a base-16 int64: the original name it returns is
    everything in front of the last two dots (it may itself hold dots), and
    the name is "old" exactly when the parsed pid is not the pid of the
    parsing process. *)
Theorem ParseUniqueFQN_accepts pid base orig old :
  DefaultWorkfile_ParseUniqueFQN pid base = (orig, old, true) <->
  exists tie p filePID,
    base = orig ++ dot :: tie ++ dot :: p /\
    (dot ∉ tie) /\ (dot ∉ p) /\
    ParseInt16 p = Some filePID /\ old = negb (filePID =? pid).
Proof.
  split.
  - unfold DefaultWorkfile_ParseUniqueFQN. cbv zeta.
    destruct (LastIndex base dot <? 0) eqn:E1; [discriminate|].
    apply Z.ltb_ge in E1.
    destruct (LastIndex_split base dot E1) as (Hb & Hfresh & Hlen).
    destruct (LastIndex (slice_to base (LastIndex base dot)) dot <? 0) eqn:E2;
      [discriminate|].
    apply Z.ltb_ge in E2.
    destruct (LastIndex_split _ dot E2) as (Hb2 & Hfresh2 & Hlen2).
    destruct (ParseInt16 (slice_from base (LastIndex base dot + 1)))
      as [filePID|] eqn:Hp; [|discriminate].
    intros [= Ho Hold].
    set (pre := slice_to base (LastIndex base dot)) in *.
    exists (slice_from pre (LastIndex pre dot + 1)),
           (slice_from base (LastIndex base dot + 1)), filePID.
    split; [|done].
    rewrite Hb at 1. rewrite Hb2 at 1. rewrite <- app_assoc. simpl.
    f_equal.
    (* the original is the prefix of [base] up to the tie index *)
    rewrite <- Ho. unfold slice_to. unfold pre, slice_to.
    rewrite take_take. f_equal.
    pose proof (LastIndex_range pre dot) as Hr. unfold pre, slice_to in *.
    unfold len in Hr. rewrite length_take in Hr. lia.
  - intros (tie & p & n & -> & Ht & Hp & Hn & ->).
    by apply DefaultWorkfile_parse_any.
Qed.

(** [FileSpec] on a name of the form [dir/.~~~.type.rest] *)
Lemma FileSpec_on_shape reg pid d0 ty u spec :
  slash ∉ ty ++ dot :: u -> dot ∉ ty -> reg !! ty = Some spec ->
  FileSpec reg pid ((d0 ++ [slash]) ++ workfilePrefix ++ ty ++ dot :: u)
  = let '(origBase, old, ok) := ParseUniqueFQN spec pid u in
    if negb ok then None
    else Some (spec, {| Dir := d0 ++ [slash]; Base := origBase; Old := old;
                        Type_ := ty |}).
Proof.
  intros Hsl Hdot Hty.
  set (R := workfilePrefix ++ ty ++ dot :: u).
  assert (HR : slash ∉ R).
  { unfold R. apply not_elem_of_app; split; [apply workfilePrefix_fresh|].
    exact Hsl. }
  assert (HP : HasPrefix R workfilePrefix = true)
    by (unfold R; apply HasPrefix_app).
  assert (HNE : R <> []) by (unfold R; discriminate).
  assert (HSF : slice_from R (len workfilePrefix) = ty ++ dot :: u)
    by (unfold R; apply slice_from_app).
  unfold FileSpec. cbv zeta.
  replace ((d0 ++ [slash]) ++ R) with (d0 ++ slash :: R)
    by (rewrite <- app_assoc; reflexivity).
  rewrite Split_app by done.
  rewrite HasSuffix_slash. simpl negb. cbv iota.
  rewrite ?HP. simpl negb. cbv iota.
  rewrite bool_decide_false by done.
  rewrite HSF.
  rewrite (Index_app_fresh ty u dot) by done.
  pose proof (len_nonneg ty) as Hn.
  destruct (len ty <? 0) eqn:E; [apply Z.ltb_lt in E; lia|].
  replace (len ty + len workfilePrefix)
    with (len workfilePrefix + len ty) by lia.
  assert (Hs : slice R (len workfilePrefix) (len workfilePrefix + len ty) = ty)
    by (unfold R; apply slice_app).
  rewrite Hs, Hty.
  assert (Hr : slice_from R (len workfilePrefix + len ty + 1) = u).
  { unfold R.
    replace (workfilePrefix ++ ty ++ dot :: u)
      with ((workfilePrefix ++ ty ++ [dot]) ++ u)
      by (rewrite <- !app_assoc; reflexivity).
    replace (len workfilePrefix + len ty + 1)
      with (len (workfilePrefix ++ ty ++ [dot]))
      by (rewrite !len_app; change (len [dot]) with 1; lia).
    apply slice_from_app. }
  rewrite Hr. reflexivity.
Qed.

(** X2. [FileSpec] recognises exactly the names [dir/.~~~.type.rest] whose
    last path element starts with the workfile prefix, whose type (the
    bytes between the prefix and the next dot) is registered, and whose
    rest the resolver of that type parses: the directory, the type, and the
    original base and age reported by the resolver are what it returns.
    Every other name, an object name in particular, yields [nil, nil]. *)
Theorem FileSpec_accepts reg pid fqn spec info :
  FileSpec reg pid fqn = Some (spec, info) <->
  exists u,
    fqn = Dir info ++ workfilePrefix ++ Type_ info ++ dot :: u /\
    HasSuffix (Dir info) [slash] = true /\
    (slash ∉ Type_ info ++ dot :: u) /\
    (dot ∉ Type_ info) /\
    reg !! Type_ info = Some spec /\
    ParseUniqueFQN spec pid u = (Base info, Old info, true).
Proof.
  split.
  - intros Hf.
    destruct (Split_spec fqn) as [Hfqn Hbs].
    destruct (Split fqn) as [dir base] eqn:Hsplit. simpl in Hfqn, Hbs.
    assert (Hdir : HasSuffix dir [slash] = true).
    { unfold FileSpec in Hf. rewrite Hsplit in Hf.
      destruct (HasSuffix dir [slash]) eqn:E; [reflexivity|].
      cbn [negb] in Hf. discriminate Hf. }
    assert (Hpre : HasPrefix base workfilePrefix = true).
    { unfold FileSpec in Hf. rewrite Hsplit, Hdir in Hf. cbn [negb] in Hf.
      destruct (HasPrefix base workfilePrefix) eqn:E; [reflexivity|].
      cbn [negb] in Hf. discriminate Hf. }
    destruct (HasPrefix_inv base workfilePrefix Hpre) as [rest ->].
    assert (Hidx : 0 <= Index rest dot).
    { unfold FileSpec in Hf. rewrite Hsplit, Hdir, Hpre in Hf.
      cbn [negb] in Hf. cbv zeta in Hf.
      rewrite bool_decide_false in Hf by discriminate.
      rewrite (slice_from_app workfilePrefix rest) in Hf.
      destruct (Index rest dot <? 0) eqn:E; [discriminate|].
      by apply Z.ltb_ge in E. }
    destruct (Index_split rest dot Hidx) as (ty & u & -> & Hdot & _).
    destruct (HasSuffix_slash_inv dir Hdir) as [d0 ->].
    assert (Hsl : slash ∉ ty ++ dot :: u).
    { intros Hin. apply Hbs. apply elem_of_app. by right. }
    rewrite Hfqn in Hf.
    destruct (reg !! ty) as [spec'|] eqn:Hty.
    + rewrite (FileSpec_on_shape reg pid d0 ty u spec' Hsl Hdot Hty) in Hf.
      destruct (ParseUniqueFQN spec' pid u) as [[origBase old] ok] eqn:Hp.
      destruct ok; simpl in Hf; [|discriminate]. injection Hf as <- <-.
      exists u. simpl. rewrite Hfqn. done.
    + exfalso. revert Hf. unfold FileSpec. cbv zeta.
      replace ((d0 ++ [slash]) ++ workfilePrefix ++ ty ++ dot :: u)
        with (d0 ++ slash :: workfilePrefix ++ ty ++ dot :: u)
        by (rewrite <- app_assoc; reflexivity).
      rewrite Split_app by done.
      rewrite HasSuffix_slash, Hpre. simpl negb. cbv iota.
      rewrite bool_decide_false by discriminate.
      rewrite (slice_from_app workfilePrefix (ty ++ dot :: u)).
      rewrite (Index_app_fresh ty u dot) by done.
      pose proof (len_nonneg ty) as Hn.
      destruct (len ty <? 0) eqn:E; [apply Z.ltb_lt in E; lia|].
      replace (len ty + len workfilePrefix)
        with (len workfilePrefix + len ty) by lia.
      rewrite (slice_app workfilePrefix ty (dot :: u)), Hty. discriminate.
  - intros (u & -> & Hdir & Hsl & Hdot & Hty & Hp).
    destruct (HasSuffix_slash_inv (Dir info) Hdir) as [d0 Hd0].
    rewrite Hd0 at 1.
    rewrite (FileSpec_on_shape reg pid d0 (Type_ info) u spec Hsl Hdot Hty).
    rewrite Hp. simpl. rewrite <- Hd0. by destruct info.
Qed.

End FqnFacts.

(** ** xaction/registry.go *)
Module XregFacts.
Import Xreg.

Local Open Scope string_scope.
Local Open Scope Z_scope.

Lemma String_compare_refl a : String.compare a a = Eq.
Proof.
  induction a as [|c a IH]; simpl; [reflexivity|].
  unfold Ascii.compare. rewrite N.compare_refl. exact IH.
Qed.

Lemma strings_Compare_0 a b : strings_Compare a b = 0 <-> a = b.
Proof.
  unfold strings_Compare. split.
  - destruct (String.compare a b) eqn:E; try discriminate.
    intros _. apply String.compare_eq_iff. exact E.
  - intros ->. rewrite String_compare_refl. reflexivity.
Qed.

Section Registry.

Context {Bck : Type}.
Variable Bck_Equal : Bck -> Bck -> bool.
Variable Bck_IsEmpty : Bck -> bool.
Variable Bck_HasProvider : Bck -> bool.
Variable XactsMeta : gmap string string.
Variable rebID_String : Z -> string.
Variable rebID_Compare : Z -> string -> Z.

Local Abbreviation baseEntry := (@baseEntry Bck).
Local Abbreviation XactQuery := (@XactQuery Bck).
Local Abbreviation registryEntries := (@registryEntries Bck).
Local Abbreviation matchEntry := (matchEntry Bck_Equal Bck_IsEmpty rebID_Compare).
Local Abbreviation findUnlocked :=
  (findUnlocked Bck_Equal Bck_IsEmpty XactsMeta rebID_Compare).
Local Abbreviation findRunning := (findRunning Bck_Equal Bck_IsEmpty rebID_Compare).
Local Abbreviation findLatest := (findLatest Bck_Equal Bck_IsEmpty rebID_Compare).
Local Abbreviation idstr := (fun entry : baseEntry =>
                     XactID_String rebID_String (ID (Get entry))).

Local Abbreviation bckMatches := (bckMatches Bck_Equal Bck_IsEmpty).

Lemma matchEntry_iff entry query :
  matchEntry entry query = true <->
  (QID query <> "" /\
   XactID_Compare rebID_Compare (ID (Get entry)) (QID query) = 0) \/
  (QID query = "" /\ Kind entry = QKind query /\ bckMatches entry query).
Proof.
  unfold Xreg.matchEntry, Xreg.bckMatches.
  destruct (String.eqb (QID query) "") eqn:Eid; simpl.
  - apply String.eqb_eq in Eid.
    destruct (String.eqb (Kind entry) (QKind query)) eqn:Ek.
    + apply String.eqb_eq in Ek.
      destruct (QBck query) as [qb|].
      * destruct (Bck_IsEmpty qb); simpl.
        -- split; [intros _; right; auto|done].
        -- destruct (Bck_Equal (XBck (Get entry)) qb).
           ++ split; [intros _; right; auto|done].
           ++ split; [done|].
              intros [[Hne _]|(_ & _ & [?|?])]; congruence.
      * split; [intros _; right; auto|done].
    + apply String.eqb_neq in Ek.
      split; [done|]. intros [[Hne _]|(_ & ? & _)]; congruence.
  - apply String.eqb_neq in Eid. rewrite Z.eqb_eq.
    split; [intros Hc; left; auto|].
    intros [[_ Hc]|[? _]]; congruence.
Qed.

Lemma findRunning_Some act query n entry n' :
  findRunning act query n = (Some entry, n') ->
  entry ∈ act /\ Finished (Get entry) = false /\
  matchEntry entry query = true.
Proof.
  revert n. induction act as [|x act IH]; simpl; intros n Hf; [discriminate|].
  destruct (Finished (Get x)) eqn:Efin.
  - apply IH in Hf as (? & ? & ?). split; [by right|done].
  - destruct (matchEntry x query) eqn:Em.
    + injection Hf as <- <-. split; [by left|done].
    + apply IH in Hf as (? & ? & ?). split; [by right|done].
Qed.

Lemma findRunning_None act query n n' :
  findRunning act query n = (None, n') ->
  forall entry, entry ∈ act -> Finished (Get entry) = false ->
                matchEntry entry query = false.
Proof.
  revert n. induction act as [|x act IH]; simpl; intros n Hf entry Hin Hfin.
  - by apply elem_of_nil in Hin.
  - destruct (Finished (Get x)) eqn:Efin.
    + apply elem_of_cons in Hin as [->|Hin]; [congruence|eauto].
    + destruct (matchEntry x query) eqn:Em; [discriminate|].
      apply elem_of_cons in Hin as [->|Hin]; [done|eauto].
Qed.

Lemma findLatest_Some ents query entry :
  findLatest ents query = Some entry ->
  entry ∈ ents /\ matchEntry entry query = true.
Proof.
  unfold Xreg.findLatest. intros Hf.
  apply find_some in Hf as [Hin Hm]. split; [|done].
  apply list_elem_of_In. apply in_rev. exact Hin.
Qed.

Lemma findLatest_None ents query :
  findLatest ents query = None ->
  forall entry, entry ∈ ents -> matchEntry entry query = false.
Proof.
  unfold Xreg.findLatest. intros Hf entry Hin.
  apply (find_none _ _ Hf). apply in_rev. rewrite rev_involutive.
  apply list_elem_of_In. exact Hin.
Qed.

(** C4 (amended). An entry matches a query exactly when either the query id
    is non-empty and compares equal to the entry's id (kind and bucket are
    then not looked at), or the query id is empty, the entry's kind equals
    the query kind, and the query bucket is nil, empty or equal to the
    entry's bucket.  The running filter is applied by the lookup: with
    [OnlyRunning] it returns an unfinished matching entry of the active list
    or reports that there is none, without it a matching entry of the whole
    list or that there is none.  In particular a query with an empty kind
    and an empty id matches only entries whose kind is empty. *)
Theorem matchEntry_findUnlocked_spec (e : registryEntries) (query : XactQuery)
    (entry : baseEntry) :
  (matchEntry entry query = true <->
   (QID query <> "" /\
    XactID_Compare rebID_Compare (ID (Get entry)) (QID query) = 0) \/
   (QID query = "" /\ Kind entry = QKind query /\ bckMatches entry query)) /\
  (forall s, ID (Get entry) = XactBaseID s ->
     (XactID_Compare rebID_Compare (ID (Get entry)) (QID query) = 0
      <-> s = QID query)) /\
  (QID query = "" -> QKind query = "" ->
   (matchEntry entry query = true <->
    Kind entry = "" /\ bckMatches entry query)) /\
  (OnlyRunning query = false ->
   exists r, findUnlocked e query = Some (r, false) /\
     match r with
     | Some x => x ∈ entries e /\ matchEntry x query = true
     | None => forall x, x ∈ entries e -> matchEntry x query = false
     end) /\
  (OnlyRunning query = true ->
   IsValidXaction XactsMeta (QKind query) = true ->
   exists r spawn, findUnlocked e query = Some (r, spawn) /\
     match r with
     | Some x => x ∈ active e /\ Finished (Get x) = false /\
                 matchEntry x query = true
     | None => forall x, x ∈ active e -> Finished (Get x) = false ->
                         matchEntry x query = false
     end).
Proof.
  split; [apply matchEntry_iff|].
  split.
  { intros s ->. simpl. apply strings_Compare_0. }
  split.
  { intros Hid Hk. rewrite matchEntry_iff. rewrite Hk. split.
    - intros [[Hne _]|(_ & ? & ?)]; [congruence|done].
    - intros [? ?]. right. done. }
  split.
  - intros Hr. unfold Xreg.findUnlocked. rewrite Hr. simpl.
    eexists. split; [reflexivity|].
    destruct (findLatest (entries e) query) as [x|] eqn:Ef.
    + cbv beta iota. apply findLatest_Some. exact Ef.
    + cbv beta iota. apply findLatest_None. exact Ef.
  - intros Hr Hv. unfold Xreg.findUnlocked. rewrite Hr, Hv. simpl.
    destruct (findRunning (active e) query 0) as [[x|] n] eqn:Ef.
    + do 2 eexists. split; [reflexivity|]. cbv beta iota.
      eapply findRunning_Some. exact Ef.
    + do 2 eexists. split; [reflexivity|]. cbv beta iota.
      eapply findRunning_None. exact Ef.
Qed.

(** *** housekeeping *)

Local Abbreviation keepCheck :=
  (keepCheck Bck_Equal Bck_IsEmpty Bck_HasProvider XactsMeta rebID_Compare).
Local Abbreviation cleanUpVisit :=
  (cleanUpVisit Bck_Equal Bck_IsEmpty Bck_HasProvider XactsMeta rebID_String
     rebID_Compare).
Local Abbreviation forEachVisit :=
  (forEachVisit Bck_Equal Bck_IsEmpty Bck_HasProvider XactsMeta rebID_String
     rebID_Compare).
Local Abbreviation cleanUpFinished :=
  (cleanUpFinished Bck_Equal Bck_IsEmpty Bck_HasProvider XactsMeta
     rebID_String rebID_Compare).
Local Abbreviation remove := (remove XactsMeta rebID_String).
Local Abbreviation indexOfID := (indexOfID rebID_String).

Local Abbreviation registry_ok := (registry_ok rebID_String).

Lemma NoDup_map_eq (l : list baseEntry) x y :
  NoDup (fmap idstr l) -> x ∈ l -> y ∈ l -> idstr x = idstr y -> x = y.
Proof.
  induction l as [|z l IH]; simpl; intros Hnd Hx Hy Heq.
  - by apply elem_of_nil in Hx.
  - apply NoDup_cons in Hnd as [Hz Hnd].
    apply elem_of_cons in Hx as [->|Hx]; apply elem_of_cons in Hy as [->|Hy].
    + reflexivity.
    + exfalso. apply Hz. rewrite Heq.
      apply (list_elem_of_fmap_2 idstr). exact Hy.
    + exfalso. apply Hz. rewrite <- Heq.
      apply (list_elem_of_fmap_2 idstr). exact Hx.
    + auto.
Qed.

Lemma findUnlocked_running_found e query found spawn :
  OnlyRunning query = true ->
  findUnlocked e query = Some (Some found, spawn) ->
  found ∈ active e /\ Finished (Get found) = false.
Proof.
  intros Hr. unfold Xreg.findUnlocked. rewrite Hr. simpl.
  destruct (IsValidXaction XactsMeta (QKind query)); simpl; [|discriminate].
  destruct (findRunning (active e) query 0) as [[x|] n] eqn:Ef;
    intros [= <- <-].
  apply findRunning_Some in Ef as (? & ? & _). done.
Qed.

(** in a registry with distinct ids the "most recent" test never holds for a
    finished entry: the entry it compares with is an unfinished one *)
Lemma keepCheck_finished e x b :
  registry_ok e -> x ∈ entries e -> Finished (Get x) = true ->
  keepCheck e x = Some b -> b = false.
Proof.
  intros [Hnd Hsub] Hx Hfin. unfold Xreg.keepCheck. cbv zeta.
  assert (Hno : forall found, found ∈ active e ->
                  Finished (Get found) = false ->
                  bool_decide (ID (Get found) = ID (Get x)) = false).
  { intros found Hin Hf. apply bool_decide_eq_false. intros Heq.
    assert (found = x).
    { apply (NoDup_map_eq (entries e)); auto. simpl. by rewrite Heq. }
    subst. congruence. }
  destruct (String.eqb (metaType XactsMeta (Kind x)) XactTypeGlobal).
  - destruct (findUnlocked e _) as [[[found|] spawn]|] eqn:Ef;
      intros [= <-]; [|done].
    apply findUnlocked_running_found in Ef as [? ?]; auto.
  - destruct (String.eqb (metaType XactsMeta (Kind x)) XactTypeBck);
      [|by intros [= <-]].
    destruct (negb (Bck_HasProvider (XBck (Get x)))); [discriminate|].
    destruct (findUnlocked e _) as [[[found|] spawn]|] eqn:Ef;
      intros [= <-]; [|done].
    apply findUnlocked_running_found in Ef as [? ?]; auto.
Qed.

Local Abbreviation removable :=
  (removable Bck_Equal Bck_IsEmpty Bck_HasProvider XactsMeta rebID_Compare).

Lemma forEachVisit_spec e startTime l acc acc' :
  forEachVisit e startTime l acc = Some acc' ->
  (forall x, x ∈ l -> Finished (Get x) = true -> is_Some (keepCheck e x)) /\
  fst acc' = (fst acc ++
              fmap idstr (filter (fun x => removable e startTime x = true) l))%list.
Proof.
  revert acc. induction l as [|x l IH]; intros acc.
  - cbn [Xreg.forEachVisit]. intros [= <-]. split.
    + intros x Hx. by apply elem_of_nil in Hx.
    + rewrite filter_nil. simpl. by rewrite app_nil_r.
  - cbn [Xreg.forEachVisit]. unfold Xreg.cleanUpVisit at 1. cbv zeta.
    rewrite filter_cons.
    destruct (Finished (Get x)) eqn:Efin; simpl negb; cbv iota.
    + destruct (keepCheck e x) as [[|]|] eqn:Ek; [| |discriminate].
      * assert (Hrem : removable e startTime x = false)
          by (unfold Xreg.removable; rewrite Efin, Ek; reflexivity).
        intros Hf. apply IH in Hf as [Hall Hacc]. split.
        -- intros y Hy Hfy. apply elem_of_cons in Hy as [->|Hy]; eauto.
        -- rewrite Hacc.
           rewrite decide_False by (rewrite Hrem; discriminate). reflexivity.
      * destruct (EndTime (Get x) + entryOldAge <? startTime) eqn:Eold.
        -- assert (Hrem : removable e startTime x = true)
             by (unfold Xreg.removable; rewrite Efin, Ek, Eold; reflexivity).
           intros Hf. apply IH in Hf as [Hall Hacc]. split.
           ++ intros y Hy Hfy. apply elem_of_cons in Hy as [->|Hy]; eauto.
           ++ rewrite Hacc. cbn [fst].
              rewrite decide_True by exact Hrem.
              rewrite <- app_assoc. reflexivity.
        -- assert (Hrem : removable e startTime x = false)
             by (unfold Xreg.removable; rewrite Efin, Ek, Eold; reflexivity).
           intros Hf. apply IH in Hf as [Hall Hacc]. split.
           ++ intros y Hy Hfy. apply elem_of_cons in Hy as [->|Hy]; eauto.
           ++ rewrite Hacc.
              rewrite decide_False by (rewrite Hrem; discriminate).
              reflexivity.
    + assert (Hrem : removable e startTime x = false)
        by (unfold Xreg.removable; rewrite Efin; reflexivity).
      intros Hf. apply IH in Hf as [Hall Hacc]. split.
      * intros y Hy Hfy. apply elem_of_cons in Hy as [->|Hy]; [congruence|].
        eauto.
      * rewrite Hacc.
        rewrite decide_False by (rewrite Hrem; discriminate). reflexivity.
Qed.

Lemma indexOfID_Some (l : list baseEntry) id i :
  indexOfID l id = Some i -> exists x, l !! i = Some x /\ idstr x = id.
Proof.
  revert i. induction l as [|z l IH]; simpl; intros i; [discriminate|].
  destruct (String.eqb _ id) eqn:E.
  - intros [= <-]. apply String.eqb_eq in E. eauto.
  - destruct (indexOfID l id) as [j|] eqn:Ej; simpl; [|discriminate].
    intros [= <-]. simpl. eauto.
Qed.

Lemma indexOfID_None (l : list baseEntry) id :
  indexOfID l id = None -> forall x, x ∈ l -> idstr x <> id.
Proof.
  induction l as [|z l IH]; simpl; intros Hn x Hx.
  - by apply elem_of_nil in Hx.
  - destruct (String.eqb _ id) eqn:E; [discriminate|].
    apply String.eqb_neq in E.
    destruct (indexOfID l id) eqn:Ej; simpl in Hn; [discriminate|].
    apply elem_of_cons in Hx as [->|Hx]; auto.
Qed.

(** swap-with-last removal drops exactly the entry at the index *)
Lemma swapRemove_Permutation (l : list baseEntry) i x :
  l !! i = Some x -> x :: swapRemove l i ≡ₚ l.
Proof.
  intros Hi. unfold swapRemove.
  destruct l as [|a l0] using rev_ind; [discriminate|]. clear IHl0.
  rename l0 into l'. rename a into z.
  rewrite last_snoc. rewrite length_app. simpl.
  replace (length l' + 1 - 1)%nat with (length l') by lia.
  pose proof (lookup_lt_Some _ _ _ Hi) as Hlt.
  rewrite length_app in Hlt. simpl in Hlt.
  destruct (decide (i = length l')) as [->|Hne].
  - rewrite list_lookup_middle in Hi by reflexivity. injection Hi as <-.
    rewrite list_insert_id by (apply list_lookup_middle; reflexivity).
    rewrite take_app_length.
    apply Permutation_cons_append.
  - assert (Hlt' : (i < length l')%nat) by lia.
    rewrite lookup_app_l in Hi by done.
    rewrite insert_app_l by done.
    rewrite take_app_length' by (rewrite length_insert; reflexivity).
    rewrite <- (take_drop_middle l' i x Hi) at 2.
    rewrite insert_take_drop by done.
    rewrite <- app_assoc. simpl.
    rewrite <- Permutation_middle.
    etransitivity; [|apply Permutation_middle].
    apply Permutation_skip.
    rewrite app_assoc. apply Permutation_cons_append.
Qed.

Lemma entries_remove (e : registryEntries) id :
  entries (remove e id)
  = match indexOfID (entries e) id with
    | Some idx => swapRemove (entries e) idx
    | None => entries e
    end.
Proof.
  unfold Xreg.remove. destruct (indexOfID (entries e) id); reflexivity.
Qed.

Lemma remove_spec (e : registryEntries) id :
  NoDup (fmap idstr (entries e)) ->
  NoDup (fmap idstr (entries (remove e id))) /\
  forall y, y ∈ entries (remove e id) <-> y ∈ entries e /\ idstr y <> id.
Proof.
  intros Hnd. rewrite entries_remove.
  destruct (indexOfID (entries e) id) as [i|] eqn:Ei.
  - apply indexOfID_Some in Ei as (x & Hx & Hid).
    pose proof (swapRemove_Permutation _ _ _ Hx) as Hp.
    assert (Hnd' : NoDup (fmap idstr (x :: swapRemove (entries e) i)))
      by (rewrite Hp; exact Hnd).
    rewrite fmap_cons in Hnd'. apply NoDup_cons in Hnd' as [Hfresh Hnd'].
    split; [exact Hnd'|].
    intros y. split.
    + intros Hy. split.
      * rewrite <- Hp. by right.
      * intros Heq. apply Hfresh. rewrite Hid, <- Heq.
        apply (list_elem_of_fmap_2 idstr). exact Hy.
    + intros [Hy Hne]. rewrite <- Hp in Hy.
      apply elem_of_cons in Hy as [->|Hy]; [congruence|done].
  - split; [exact Hnd|].
    intros y. split; [|tauto].
    intros Hy. split; [done|]. eapply indexOfID_None; eauto.
Qed.

Lemma fold_remove_spec ids (e : registryEntries) :
  NoDup (fmap idstr (entries e)) ->
  forall y, y ∈ entries (fold_left remove ids e)
            <-> y ∈ entries e /\ idstr y ∉ ids.
Proof.
  revert e. induction ids as [|id ids IH]; simpl; intros e Hnd y.
  - split; [intros ?; split; [done|apply not_elem_of_nil]|tauto].
  - destruct (remove_spec e id Hnd) as [Hnd' Hmem].
    rewrite (IH _ Hnd'), Hmem, not_elem_of_cons. tauto.
Qed.

(** X26. What a run of the housekeeper does to a registry whose entries
    carry pairwise distinct ids.  With no task entry and at most 300
    entries it removes nothing.  Otherwise the entries that are left are
    exactly those that are unfinished or ended within the last hour before
    the start of the run: every finished entry that ended earlier is
    removed, the most recent one of its kind and bucket included, because
    the test that is to keep that one looks among the running xactions
    only. *)
Theorem cleanUpFinished_distinct_ids (e e' : registryEntries) startTime
    freed :
  cleanUpFinished e startTime = Some (e', freed) ->
  registry_ok e ->
  (taskCount e = 0 /\ Z.of_nat (length (entries e)) <= entriesSizeHW ->
   e' = e) /\
  (taskCount e <> 0 \/ entriesSizeHW < Z.of_nat (length (entries e)) ->
   forall x, x ∈ entries e' <->
             x ∈ entries e /\
             (Finished (Get x) = false \/
              startTime <= EndTime (Get x) + entryOldAge)).
Proof.
  intros Hrun Hok. unfold Xreg.cleanUpFinished in Hrun.
  destruct ((taskCount e =? 0)
            && (Z.of_nat (length (entries e)) <=? entriesSizeHW)) eqn:Eg.
  - injection Hrun as <- <-. split; [done|].
    apply andb_true_iff in Eg as [E1 E2].
    apply Z.eqb_eq in E1. apply Z.leb_le in E2. intros [?|?]; lia.
  - split.
    { intros [E1 E2]. apply Z.eqb_eq in E1. apply Z.leb_le in E2.
      rewrite E1, E2 in Eg. discriminate. }
    intros _.
    destruct (forEachVisit e startTime (entries e) ([], false))
      as [[toRemove any]|] eqn:Ev; [|discriminate].
    injection Hrun as <- <-.
    apply forEachVisit_spec in Ev as [Hall Hacc]. simpl in Hacc.
    pose proof Hok as [Hnd Hsub].
    pose proof (fold_remove_spec toRemove e Hnd) as Hmem.
    assert (Hrem : forall x, x ∈ entries e ->
              (removable e startTime x = true <->
               Finished (Get x) = true /\
               EndTime (Get x) + entryOldAge < startTime)).
    { intros x Hx. unfold Xreg.removable.
      destruct (Finished (Get x)) eqn:Hfin; simpl;
        [|split; [discriminate|intros [? _]; discriminate]].
      destruct (Hall x Hx Hfin) as [b Hb]. rewrite Hb.
      rewrite (keepCheck_finished e x b Hok Hx Hfin Hb).
      rewrite Z.ltb_lt. tauto. }
    intros x. rewrite Hmem, Hacc. split.
    + intros [Hx Hn]. split; [exact Hx|].
      destruct (Finished (Get x)) eqn:Hfin; [right|by left].
      destruct (Z.le_gt_cases startTime (EndTime (Get x) + entryOldAge))
        as [?|Hold]; [done|].
      exfalso. apply Hn. apply (list_elem_of_fmap_2 idstr).
      apply list_elem_of_filter. split; [|exact Hx].
      apply Hrem; [exact Hx|]. split; [exact Hfin|lia].
    + intros [Hx Hyoung]. split; [exact Hx|]. intros Hin.
      apply list_elem_of_fmap in Hin as (z & Hid & Hz).
      apply list_elem_of_filter in Hz as [Hz Hzin].
      assert (x = z) by (apply (NoDup_map_eq (entries e)); auto).
      subst z. apply Hrem in Hz as [Hfin Hold]; [|exact Hx].
      destruct Hyoung; [congruence|lia].
Qed.

(** *** storing and looking up *)

Local Abbreviation insert := (insert XactsMeta).
Local Abbreviation storeEntry := (storeEntry XactsMeta).
Local Abbreviation GetXact :=
  (GetXact Bck_Equal Bck_IsEmpty XactsMeta rebID_Compare).
Local Abbreviation GetLatest :=
  (GetLatest Bck_Equal Bck_IsEmpty XactsMeta rebID_Compare).
Local Abbreviation GetRunning :=
  (GetRunning Bck_Equal Bck_IsEmpty XactsMeta rebID_Compare).
Local Abbreviation IsXactRunning :=
  (IsXactRunning Bck_Equal Bck_IsEmpty XactsMeta rebID_Compare).
Local Abbreviation removeFinishedByID :=
  (removeFinishedByID Bck_Equal Bck_IsEmpty XactsMeta rebID_String
     rebID_Compare).
Local Abbreviation isTask := (isTask XactsMeta).
Local Abbreviation taskCount_ok := (taskCount_ok XactsMeta).
Local Abbreviation registry_wf := (registry_wf rebID_String).
Local Abbreviation queryID := (@queryID Bck).
Local Abbreviation queryKind := (@queryKind Bck).

Lemma findLatest_snoc ents entry query :
  matchEntry entry query = true ->
  findLatest (ents ++ [entry]) query = Some entry.
Proof.
  intros Hm. unfold Xreg.findLatest. rewrite rev_app_distr. simpl.
  by rewrite Hm.
Qed.

Lemma matchEntry_queryID entry s :
  s <> "" -> ID (Get entry) = XactBaseID s ->
  matchEntry entry (queryID s) = true.
Proof.
  intros Hs Hid. unfold Xreg.matchEntry. cbn [QID queryID Xreg.queryID].
  apply String.eqb_neq in Hs. rewrite Hs. cbn [negb]. rewrite Hid.
  cbn [XactID_Compare]. apply Z.eqb_eq. by apply strings_Compare_0.
Qed.

Lemma matchEntry_queryKind entry :
  matchEntry entry (queryKind (Kind entry)) = true.
Proof.
  unfold Xreg.matchEntry. cbn [QID QKind QBck queryKind Xreg.queryKind].
  rewrite String.eqb_refl. cbn [negb]. by rewrite String.eqb_refl.
Qed.

(** X3. Storing an xaction and looking it up: right after [storeEntry],
    [GetXact] with the (non-empty) string id of the stored xaction returns
    that entry, and so does [GetLatest] for its kind, whatever was stored
    before: the reverse scan meets the newest entry first. *)
Theorem storeEntry_GetXact e entry s :
  ID (Get entry) = XactBaseID s -> s <> "" ->
  GetXact (storeEntry e entry) s = Some (Some entry) /\
  GetLatest (storeEntry e entry) (queryKind (Kind entry))
  = Some (Some entry, false).
Proof.
  intros Hid Hs. split.
  - unfold Xreg.GetXact. apply String.eqb_neq in Hs as Hs'. rewrite Hs'.
    unfold Xreg.findUnlocked. cbn [OnlyRunning Xreg.queryID negb fmap
      option_fmap option_map fst].
    unfold Xreg.storeEntry, Xreg.insert. cbn [entries].
    rewrite findLatest_snoc by (by apply matchEntry_queryID).
    reflexivity.
  - unfold Xreg.GetLatest, Xreg.findUnlocked.
    cbn [OnlyRunning Xreg.queryKind negb].
    unfold Xreg.storeEntry, Xreg.insert. cbn [entries].
    rewrite findLatest_snoc by apply matchEntry_queryKind.
    reflexivity.
Qed.

Lemma findRunning_fst act query n n' :
  fst (findRunning act query n) = fst (findRunning act query n').
Proof.
  revert n n'. induction act as [|x act IH]; simpl; intros n n'; [done|].
  destruct (Finished (Get x)); [apply IH|].
  destruct (matchEntry x query); [done|apply IH].
Qed.

Lemma findRunning_found act query n x :
  x ∈ act -> Finished (Get x) = false -> matchEntry x query = true ->
  is_Some (fst (findRunning act query n)).
Proof.
  intros Hx Hf Hm.
  destruct (findRunning act query n) as [[y|] n'] eqn:E; [simpl; eauto|].
  exfalso. pose proof (findRunning_None act query n n' E x Hx Hf).
  congruence.
Qed.

(** X4. After [storeEntry] of an xaction that has not finished and whose
    kind is in [cmn.XactsMeta], [IsXactRunning] for that kind is true, and
    [GetRunning] returns an unfinished entry of the kind: the first one in
    the active list, which is the stored one when no older one is
    running. *)
Theorem storeEntry_running e entry :
  Finished (Get entry) = false ->
  IsValidXaction XactsMeta (Kind entry) = true ->
  IsXactRunning (storeEntry e entry) (queryKind (Kind entry)) = Some true /\
  exists found,
    GetRunning (storeEntry e entry) (queryKind (Kind entry))
    = Some (Some found, false) /\
    Kind found = Kind entry /\ Finished (Get found) = false /\
    (found ∈ active e \/ found = entry) /\
    ((forall x, x ∈ active e -> Kind x = Kind entry ->
                Finished (Get x) = true) -> found = entry).
Proof.
  intros Hf Hv.
  set (q := {| QID := ""; QKind := Kind entry; QBck := None;
               OnlyRunning := true; QFinished := false |} : XactQuery).
  assert (Hmq : forall x, matchEntry x q = true <-> Kind x = Kind entry).
  { intros x. unfold Xreg.matchEntry. cbn [QID QKind QBck q negb].
    rewrite String.eqb_refl. cbn [negb].
    destruct (String.eqb (Kind x) (Kind entry)) eqn:E.
    - apply String.eqb_eq in E. tauto.
    - apply String.eqb_neq in E. split; [discriminate|tauto]. }
  assert (Hfound : exists found n,
            findRunning (active e ++ [entry]) q 0 = (Some found, n)).
  { destruct (findRunning_found (active e ++ [entry]) q 0 entry)
      as [found Hfd].
    - apply elem_of_app. right. by apply list_elem_of_singleton.
    - exact Hf.
    - by apply Hmq.
    - destruct (findRunning (active e ++ [entry]) q 0) as [r n] eqn:E.
      simpl in Hfd. subst r. eauto. }
  destruct Hfound as (found & n & Hfr).
  assert (Hget : GetRunning (storeEntry e entry) (queryKind (Kind entry))
                 = Some (Some found, false)).
  { unfold Xreg.GetRunning, Xreg.findUnlocked.
    cbn [OnlyRunning QID QKind QBck QFinished Xreg.queryKind negb].
    rewrite Hv. cbn [negb].
    unfold Xreg.storeEntry, Xreg.insert. cbn [active].
    fold q. rewrite Hfr. reflexivity. }
  split.
  - unfold Xreg.IsXactRunning. fold GetRunning. rewrite Hget. reflexivity.
  - exists found. split; [exact Hget|].
    destruct (findRunning_Some _ _ _ _ _ Hfr) as (Hin & Hfin & Hm).
    apply Hmq in Hm. split; [exact Hm|]. split; [exact Hfin|].
    apply elem_of_app in Hin as [Hin|Hin].
    + split; [by left|]. intros Hall. specialize (Hall found Hin Hm).
      congruence.
    + apply list_elem_of_singleton in Hin. split; [by right|done].
Qed.

(** *** invariants of the registry *)

Local Abbreviation housekeepActive := (@housekeepActive Bck).
Local Abbreviation newRegistryEntries := (@newRegistryEntries Bck).

Lemma taskLen_Permutation (l l' : list baseEntry) :
  l ≡ₚ l' ->
  length (filter (fun x => isTask x = true) l)
  = length (filter (fun x => isTask x = true) l').
Proof. intros Hp. by rewrite Hp. Qed.

Lemma taskCount_ok_insert (e : registryEntries) entry :
  taskCount_ok e -> taskCount_ok (insert e entry).
Proof.
  unfold Xreg.taskCount_ok, Xreg.insert. cbn [taskCount entries].
  intros ->. rewrite filter_app, length_app, filter_cons, filter_nil.
  fold (isTask entry). destruct (isTask entry) eqn:E.
  - rewrite decide_True by done. simpl length. lia.
  - rewrite decide_False by done. simpl length. lia.
Qed.

Lemma taskCount_ok_remove (e : registryEntries) id :
  taskCount_ok e -> taskCount_ok (remove e id).
Proof.
  unfold Xreg.taskCount_ok, Xreg.remove.
  destruct (indexOfID (entries e) id) as [i|] eqn:Ei;
    cbn [taskCount entries]; [|done].
  apply indexOfID_Some in Ei as (x & Hx & _). rewrite Hx.
  intros Hc.
  rewrite <- (taskLen_Permutation _ _ (swapRemove_Permutation _ _ _ Hx)) in Hc.
  rewrite filter_cons in Hc. fold (isTask x).
  destruct (isTask x) eqn:E.
  - rewrite decide_True in Hc by done. simpl length in Hc. lia.
  - rewrite decide_False in Hc by done. lia.
Qed.

Lemma taskCount_ok_fold ids (e : registryEntries) :
  taskCount_ok e -> taskCount_ok (fold_left remove ids e).
Proof.
  revert e. induction ids as [|id ids IH]; simpl; intros e He; [done|].
  apply IH. by apply taskCount_ok_remove.
Qed.

(** X5. [taskCount] is the number of entries whose kind is a task kind: the
    counter starts at zero with no entries, and [insert], [remove],
    [housekeepActive] and a run of [cleanUpFinished] keep it equal to that
    number, so the watermark test of the housekeeper reads "no task entry
    and at most 300 entries". *)
Theorem taskCount_counts_tasks (e : registryEntries) :
  taskCount_ok e ->
  taskCount_ok newRegistryEntries /\
  (forall entry, taskCount_ok (insert e entry)) /\
  (forall id, taskCount_ok (remove e id)) /\
  taskCount_ok (housekeepActive e) /\
  (forall startTime e' freed,
     cleanUpFinished e startTime = Some (e', freed) -> taskCount_ok e') /\
  (taskCount e = 0 <-> forall x, x ∈ entries e -> isTask x = false).
Proof.
  intros He. split; [reflexivity|].
  split; [intros entry; by apply taskCount_ok_insert|].
  split; [intros id; by apply taskCount_ok_remove|].
  split; [exact He|]. split.
  - intros startTime e' freed. unfold Xreg.cleanUpFinished.
    destruct (_ && _); [by intros [= <- _]|].
    destruct (forEachVisit e startTime (entries e) ([], false))
      as [[toRemove any]|]; [|discriminate].
    intros [= <- _]. by apply taskCount_ok_fold.
  - unfold Xreg.taskCount_ok in He. rewrite He.
    generalize (entries e). intros l. split.
    + intros Hz x Hx. destruct (isTask x) eqn:E; [|reflexivity].
      assert (Hin : x ∈ filter (fun x => isTask x = true) l)
        by (apply list_elem_of_filter; done).
      destruct (filter (fun x => isTask x = true) l);
        [by apply elem_of_nil in Hin|simpl in Hz; lia].
    + intros Hall.
      assert (Hnil : filter (fun x => isTask x = true) l = []).
      { induction l as [|y l IH]; [reflexivity|].
        rewrite filter_cons.
        rewrite decide_False
          by (rewrite (Hall y) by (by left); discriminate).
        apply IH. intros x Hx. apply Hall. by right. }
      by rewrite Hnil.
Qed.

Lemma findRunning_filter act query n :
  fst (findRunning (filter (fun x => Finished (Get x) = false) act) query n)
  = fst (findRunning act query n).
Proof.
  revert n. induction act as [|x act IH]; intros n; [reflexivity|].
  rewrite filter_cons. simpl.
  destruct (Finished (Get x)) eqn:E.
  - rewrite decide_False by discriminate. rewrite IH.
    apply findRunning_fst.
  - rewrite decide_True by reflexivity. simpl. rewrite E.
    destruct (matchEntry x query); [reflexivity|apply IH].
Qed.

Lemma findRunning_cnt act query n :
  Forall (fun x => Finished (Get x) = false) act ->
  snd (findRunning act query n) = n.
Proof.
  revert n. induction act as [|x act IH]; simpl; intros n Hall; [done|].
  inversion Hall as [|? ? Hx Hact]; subst. rewrite Hx.
  destruct (matchEntry x query); [reflexivity|by apply IH].
Qed.

(** X6. Compacting the active list changes no answer: for every query
    [findUnlocked] finds the same entry (or fails the same assertion) after
    [housekeepActive] as before it; the compacted list holds no finished
    entry, the entries and the task counter are untouched, and a running
    query on the compacted list does not ask for another compaction. *)
Theorem housekeepActive_same_answers (e : registryEntries) query :
  fst <$> findUnlocked (housekeepActive e) query
  = fst <$> findUnlocked e query /\
  Forall (fun x => Finished (Get x) = false) (active (housekeepActive e)) /\
  entries (housekeepActive e) = entries e /\
  taskCount (housekeepActive e) = taskCount e /\
  (forall r spawn,
     findUnlocked (housekeepActive e) query = Some (r, spawn) ->
     spawn = false).
Proof.
  assert (Hall : Forall (fun x => Finished (Get x) = false)
                   (active (housekeepActive e))).
  { unfold Xreg.housekeepActive. cbn [active]. apply Forall_forall.
    intros x Hx. by apply list_elem_of_filter in Hx as [Hx _]. }
  split; [|split; [exact Hall|split; [reflexivity|split; [reflexivity|]]]].
  - unfold Xreg.findUnlocked. cbn [entries Xreg.housekeepActive active].
    destruct (negb (OnlyRunning query)); [reflexivity|].
    destruct (negb (IsValidXaction XactsMeta (QKind query))); [reflexivity|].
    pose proof (findRunning_filter (active e) query 0) as Hf.
    destruct (findRunning (filter _ (active e)) query 0) as [[x|] n];
      destruct (findRunning (active e) query 0) as [[y|] n'];
      simpl in Hf; try discriminate; [by injection Hf as ->|reflexivity].
  - intros r spawn. unfold Xreg.findUnlocked.
    destruct (negb (OnlyRunning query)); [by intros [= _ <-]|].
    destruct (negb (IsValidXaction XactsMeta (QKind query))); [discriminate|].
    pose proof (findRunning_cnt _ query 0 Hall) as Hc.
    destruct (findRunning (active (housekeepActive e)) query 0) as [[x|] n];
      [by intros [= _ <-]|].
    simpl in Hc. subst n. by intros [= _ <-].
Qed.

Lemma indexOfID_absent (l : list baseEntry) id :
  (forall x, x ∈ l -> idstr x <> id) -> indexOfID l id = None.
Proof.
  induction l as [|z l IH]; simpl; intros Hall; [reflexivity|].
  destruct (String.eqb _ id) eqn:E.
  - apply String.eqb_eq in E. exfalso. apply (Hall z); [by left|exact E].
  - rewrite IH; [reflexivity|]. intros x Hx. apply Hall. by right.
Qed.

(** removal by id from a list with distinct ids *)
Lemma removeByID_spec (l : list baseEntry) id :
  NoDup (fmap idstr l) ->
  let l' := match indexOfID l id with
            | Some idx => swapRemove l idx
            | None => l
            end in
  NoDup (fmap idstr l') /\
  forall y, y ∈ l' <-> y ∈ l /\ idstr y <> id.
Proof.
  intros Hnd. cbv zeta.
  destruct (indexOfID l id) as [i|] eqn:Ei.
  - apply indexOfID_Some in Ei as (x & Hx & Hid).
    pose proof (swapRemove_Permutation _ _ _ Hx) as Hp.
    assert (Hnd' : NoDup (fmap idstr (x :: swapRemove l i)))
      by (rewrite Hp; exact Hnd).
    rewrite fmap_cons in Hnd'. apply NoDup_cons in Hnd' as [Hfresh Hnd'].
    split; [exact Hnd'|].
    intros y. split.
    + intros Hy. split.
      * rewrite <- Hp. by right.
      * intros Heq. apply Hfresh. rewrite Hid, <- Heq.
        apply (list_elem_of_fmap_2 idstr). exact Hy.
    + intros [Hy Hne]. rewrite <- Hp in Hy.
      apply elem_of_cons in Hy as [->|Hy]; [congruence|done].
  - split; [exact Hnd|].
    intros y. split; [|tauto].
    intros Hy. split; [done|]. eapply indexOfID_None; eauto.
Qed.

Lemma active_remove (e : registryEntries) id :
  active (remove e id)
  = match indexOfID (active e) id with
    | Some idx => swapRemove (active e) idx
    | None => active e
    end.
Proof.
  unfold Xreg.remove. destruct (indexOfID (entries e) id); reflexivity.
Qed.

Lemma registry_wf_remove (e : registryEntries) id :
  registry_wf e ->
  registry_wf (remove e id) /\
  (forall y, y ∈ entries (remove e id) <-> y ∈ entries e /\ idstr y <> id) /\
  (forall y, y ∈ active (remove e id) <-> y ∈ active e /\ idstr y <> id).
Proof.
  intros (Hne & Hna & Hsub).
  pose proof (removeByID_spec (entries e) id Hne) as [Hne' Hme].
  pose proof (removeByID_spec (active e) id Hna) as [Hna' Hma].
  rewrite <- entries_remove in Hne', Hme.
  rewrite <- active_remove in Hna', Hma.
  split; [|split; [exact Hme|exact Hma]].
  split; [exact Hne'|]. split; [exact Hna'|].
  intros y Hy. apply Hma in Hy as [Hy Hid]. apply Hme. split; [|exact Hid].
  by apply Hsub.
Qed.

Lemma registry_wf_fold ids (e : registryEntries) :
  registry_wf e -> registry_wf (fold_left remove ids e).
Proof.
  revert e. induction ids as [|id ids IH]; simpl; intros e He; [done|].
  apply IH. by apply registry_wf_remove.
Qed.

(** X7. A registry in which the ids are pairwise distinct, in [entries] and
    in [active], and in which every active entry is an entry, stays so:
    under [insert] of an entry with a fresh id, under [remove] (which drops
    exactly the entry with the given id from both lists), under
    [housekeepActive] and under a run of [cleanUpFinished].  The empty
    registry is such a registry. *)
Theorem registry_wf_kept (e : registryEntries) :
  registry_wf e ->
  registry_wf newRegistryEntries /\
  (forall entry,
     idstr entry ∉ idstr <$> entries e -> registry_wf (insert e entry)) /\
  (forall id,
     registry_wf (remove e id) /\
     (forall y, y ∈ entries (remove e id)
                <-> y ∈ entries e /\ idstr y <> id) /\
     (forall y, y ∈ active (remove e id)
                <-> y ∈ active e /\ idstr y <> id)) /\
  registry_wf (housekeepActive e) /\
  (forall startTime e' freed,
     cleanUpFinished e startTime = Some (e', freed) -> registry_wf e').
Proof.
  intros Hwf. split.
  { unfold Xreg.registry_wf. simpl. split; [constructor|].
    split; [constructor|done]. }
  split.
  { destruct Hwf as (Hne & Hna & Hsub). intros entry Hfresh.
    unfold Xreg.registry_wf, Xreg.insert. cbn [entries active].
    rewrite !fmap_app. cbn [fmap list_fmap].
    split; [|split].
    - apply NoDup_app. split; [exact Hne|]. split; [|apply NoDup_singleton].
      intros x Hx Hx'. apply list_elem_of_singleton in Hx'. by subst.
    - apply NoDup_app. split; [exact Hna|]. split; [|apply NoDup_singleton].
      intros x Hx Hx'. apply list_elem_of_singleton in Hx'. subst.
      apply Hfresh. apply list_elem_of_fmap in Hx as (y & -> & Hy).
      apply (list_elem_of_fmap_2 idstr). by apply Hsub.
    - intros y Hy. apply elem_of_app in Hy as [Hy|Hy]; apply elem_of_app;
        [left; by apply Hsub|by right]. }
  split; [intros id; by apply registry_wf_remove|].
  split.
  { destruct Hwf as (Hne & Hna & Hsub).
    unfold Xreg.registry_wf, Xreg.housekeepActive. cbn [entries active].
    split; [exact Hne|]. split.
    - eapply sublist_NoDup; [exact Hna|].
      apply fmap_sublist. apply sublist_filter.
    - intros y Hy. apply list_elem_of_filter in Hy as [_ Hy]. by apply Hsub. }
  intros startTime e' freed. unfold Xreg.cleanUpFinished.
  destruct (_ && _); [by intros [= <- _]|].
  destruct (forEachVisit e startTime (entries e) ([], false))
    as [[toRemove any]|]; [|discriminate].
  intros [= <- _]. by apply registry_wf_fold.
Qed.

(** X8. Removing an id that no entry carries changes nothing, and removing
    an id twice is removing it once (in a registry with distinct ids in
    which every active entry is an entry). *)
Theorem remove_unknown (e : registryEntries) id :
  registry_wf e ->
  ((forall x, x ∈ entries e -> idstr x <> id) -> remove e id = e) /\
  remove (remove e id) id = remove e id.
Proof.
  assert (Hun : forall e0 : registryEntries,
            registry_wf e0 ->
            (forall x, x ∈ entries e0 -> idstr x <> id) -> remove e0 id = e0).
  { intros e0 (_ & _ & Hsub) Hall. unfold Xreg.remove.
    rewrite (indexOfID_absent (entries e0) id Hall).
    rewrite (indexOfID_absent (active e0) id)
      by (intros x Hx; apply Hall; by apply Hsub).
    by destruct e0. }
  intros Hwf. split; [by apply Hun|].
  destruct (registry_wf_remove e id Hwf) as (Hwf' & Hme & _).
  apply Hun; [exact Hwf'|]. intros x Hx. by apply Hme in Hx as [_ ?].
Qed.

Lemma findLatest_None_iff ents query :
  findLatest ents query = None <->
  forall x, x ∈ ents -> matchEntry x query = false.
Proof.
  split; [apply findLatest_None|].
  intros Hall. unfold Xreg.findLatest.
  destruct (List.find _ (rev ents)) as [x|] eqn:E; [|reflexivity].
  apply find_some in E as [Hin Hm]. apply in_rev in Hin.
  apply list_elem_of_In in Hin. rewrite (Hall x Hin) in Hm. discriminate.
Qed.

(** X9. [removeFinishedByID] never removes an xaction that is still running:
    when the registry holds an entry with the id that has not finished it
    returns an error and leaves the registry as it is; otherwise it returns
    no error, no entry with the id is left ([GetXact] finds nothing), and
    every other entry, the running ones included, is kept.  (Ids are
    distinct non-empty strings.) *)
Theorem removeFinishedByID_spec (e : registryEntries) id :
  registry_wf e -> id <> "" -> Forall hasBaseID (entries e) ->
  exists err e',
    removeFinishedByID e id = Some (err, e') /\
    match err with
    | Some _ =>
        e' = e /\
        exists x, x ∈ entries e /\ idstr x = id /\ Finished (Get x) = false
    | None =>
        (forall x, x ∈ entries e' <-> x ∈ entries e /\ idstr x <> id) /\
        (forall x, x ∈ entries e -> idstr x = id ->
                   Finished (Get x) = true) /\
        GetXact e' id = Some None
    end.
Proof.
  intros Hwf Hid Hbase.
  assert (Hmatch : forall x, x ∈ entries e ->
            (matchEntry x (queryID id) = true <-> idstr x = id)).
  { intros x Hx. rewrite Forall_forall in Hbase.
    destruct (Hbase x Hx) as [s Hs].
    unfold Xreg.matchEntry. cbn [QID Xreg.queryID].
    apply String.eqb_neq in Hid as Hid'. rewrite Hid'. cbn [negb].
    rewrite Hs. cbn [XactID_Compare XactID_String]. rewrite Z.eqb_eq.
    apply strings_Compare_0. }
  assert (Hgone : forall e0 : registryEntries,
            (forall x, x ∈ entries e0 -> x ∈ entries e /\ idstr x <> id) ->
            GetXact e0 id = Some None).
  { intros e0 Hall. unfold Xreg.GetXact.
    apply String.eqb_neq in Hid as Hid'. rewrite Hid'.
    unfold Xreg.findUnlocked. cbn [OnlyRunning Xreg.queryID negb].
    replace (findLatest (entries e0) (queryID id)) with (@None baseEntry);
      [reflexivity|].
    symmetry. apply findLatest_None_iff. intros x Hx.
    destruct (Hall x Hx) as [Hin Hne].
    destruct (matchEntry x (queryID id)) eqn:E; [|reflexivity].
    apply (Hmatch x Hin) in E. contradiction. }
  unfold Xreg.removeFinishedByID, Xreg.findUnlocked.
  cbn [OnlyRunning Xreg.queryID negb]. fold (queryID id).
  destruct (findLatest (entries e) (queryID id)) as [xact|] eqn:Ef.
  - destruct (findLatest_Some _ _ _ Ef) as [Hin Hm].
    apply (Hmatch xact Hin) in Hm.
    destruct (Finished (Get xact)) eqn:Efin; cbn [negb].
    + exists None, (remove e id). split; [reflexivity|].
      destruct (registry_wf_remove e id Hwf) as (_ & Hme & _).
      split; [exact Hme|]. split.
      * intros x Hx Hxid. destruct Hwf as (Hnd & _).
        rewrite (NoDup_map_eq (entries e) x xact Hnd Hx Hin); [done|].
        by rewrite Hxid, Hm.
      * apply Hgone. intros x Hx. by apply Hme.
    + exists (Some (ErrStillRunning (Kind xact) id)), e.
      split; [reflexivity|]. split; [reflexivity|]. eauto.
  - exists None, e. split; [reflexivity|].
    pose proof (findLatest_None _ _ Ef) as Hnone.
    assert (Hno : forall x, x ∈ entries e -> idstr x <> id).
    { intros x Hx Hxid. apply (Hmatch x Hx) in Hxid.
      rewrite (Hnone x Hx) in Hxid. discriminate. }
    split; [|split].
    + intros x. split; [intros Hx; split; [done|by apply Hno]|tauto].
    + intros x Hx Hxid. exfalso. by apply (Hno x Hx).
    + apply Hgone. intros x Hx. split; [done|by apply Hno].
Qed.

End Registry.

(** C4, as stated, fails: the query with an empty id and an empty kind
    matches the lru entry in the words of the specification but not in
    [matchEntry], so the lookup finds nothing; and a query by id matches the
    entry with that id whatever kind the query names. *)
Lemma matchEntry_counterexample :
  Demo.specMatches Demo.lru1 (Demo.query "" "") = true /\
  Demo.matchEntry Demo.lru1 (Demo.query "" "") = false /\
  Demo.findUnlocked Demo.small (Demo.query "" "") = Some (None, false) /\
  Demo.specMatches Demo.lru1 (Demo.query "x1" "ec-get") = false /\
  Demo.matchEntry Demo.lru1 (Demo.query "x1" "ec-get") = true.
Proof. vm_compute. repeat split. Qed.

Lemma matchEntry_findUnlocked_spec_witness :
  exists r,
    Demo.findUnlocked Demo.small (Demo.query "" "lru") = Some (r, false) /\
    match r with
    | Some x => x ∈ entries Demo.small /\
                Demo.matchEntry x (Demo.query "" "lru") = true
    | None => forall x, x ∈ entries Demo.small ->
                        Demo.matchEntry x (Demo.query "" "lru") = false
    end.
Proof.
  apply (proj1 (proj2 (proj2 (proj2
           (matchEntry_findUnlocked_spec Demo.Bck_Equal Demo.Bck_IsEmpty
              Demo.XactsMeta Demo.rebID_Compare Demo.small
              (Demo.query "" "lru") Demo.lru1))))).
  reflexivity.
Defined.

Lemma registry_ok_mixed : Xreg.registry_ok Demo.rebID_String Demo.mixed.
Proof.
  split.
  - apply (bool_decide_unpack _). vm_compute. exact I.
  - intros x Hx. apply list_elem_of_In in Hx. apply list_elem_of_In.
    simpl in *. intuition.
Defined.

Lemma cleanUpFinished_distinct_ids_witness :
  let e := Demo.mixed in
  let e' := {| active := [Demo.list1; Demo.lruRunning];
               entries := [Demo.lruRunning; Demo.list1];
               taskCount := 1 |} in
  (taskCount e = 0 /\ Z.of_nat (length (entries e)) <= entriesSizeHW ->
   e' = e) /\
  (taskCount e <> 0 \/ entriesSizeHW < Z.of_nat (length (entries e)) ->
   forall x, x ∈ entries e' <->
             x ∈ entries e /\
             (Finished (Get x) = false \/
              Demo.later <= EndTime (Get x) + entryOldAge)).
Proof.
  apply (cleanUpFinished_distinct_ids Demo.Bck_Equal Demo.Bck_IsEmpty
           Demo.Bck_HasProvider Demo.XactsMeta Demo.rebID_String
           Demo.rebID_Compare Demo.mixed _ Demo.later true).
  - vm_compute. reflexivity.
  - apply registry_ok_mixed.
Defined.

(** C3. The housekeeper does not keep the most recent entry of a kind.  In
    [withTask] the finished xaction [lru2] is the only lru entry, hence the
    most recent one, and the latest-history lookup for lru returns it; it
    ended more than an hour before [later].  The run at [later] removes it,
    and the lookup finds nothing afterwards: the test at the comment "if it
    is we want to keep it anyway" asks [findUnlocked] for a running
    xaction of the kind, which a finished entry never is.  The removal is
    by id string, and ids repeat (every demand xaction has the empty id):
    in [demand] the run puts the id of the expired [ecOld] on its list and
    removes the first entry with that id, the running [ecRunning], which
    is the most recent ec-get entry of bucket b2, from both lists, while
    [ecOld] stays. *)
Theorem cleanUpFinished_drops_latest :
  (Demo.mostRecent Demo.withTask Demo.lru2 /\
   Demo.findUnlocked Demo.withTask (Demo.query "" "lru")
   = Some (Some Demo.lru2, false) /\
   Finished (Get Demo.lru2) = true /\
   (EndTime (Get Demo.lru2) + entryOldAge <? Demo.later) = true /\
   Demo.cleanUpFinished Demo.withTask Demo.later
   = Some (Demo.withTaskCleaned, false) /\
   entries Demo.withTaskCleaned = [Demo.list1] /\
   Demo.findUnlocked Demo.withTaskCleaned (Demo.query "" "lru")
   = Some (None, false)) /\
  (Demo.mostRecent Demo.demand Demo.ecRunning /\
   Finished (Get Demo.ecRunning) = false /\
   Demo.idstr Demo.ecRunning = Demo.idstr Demo.ecOld /\
   Demo.cleanUpFinished Demo.demand Demo.later
   = Some (Demo.demandCleaned, false) /\
   entries Demo.demandCleaned = [Demo.list1; Demo.ecOld] /\
   active Demo.demandCleaned = [Demo.list1] /\
   Demo.findUnlocked Demo.demandCleaned (Demo.queryBck "ec-get" "b2")
   = Some (None, false)).
Proof. vm_compute. repeat split. Qed.

Lemma registry_wf_mixed : Demo.registry_wf Demo.mixed.
Proof.
  split; [|split].
  - apply (bool_decide_unpack _). vm_compute. exact I.
  - apply (bool_decide_unpack _). vm_compute. exact I.
  - intros x Hx. apply list_elem_of_In in Hx. apply list_elem_of_In.
    simpl in *. intuition.
Defined.

Lemma storeEntry_GetXact_witness :
  Demo.GetXact (Demo.storeEntry Demo.mixed Demo.lruNew) "x4"
  = Some (Some Demo.lruNew) /\
  Demo.GetLatest (Demo.storeEntry Demo.mixed Demo.lruNew)
    (queryKind (Kind Demo.lruNew))
  = Some (Some Demo.lruNew, false).
Proof.
  apply (storeEntry_GetXact Demo.Bck_Equal Demo.Bck_IsEmpty Demo.XactsMeta
           Demo.rebID_Compare Demo.mixed Demo.lruNew "x4").
  - reflexivity.
  - discriminate.
Defined.

Lemma storeEntry_running_witness :
  Demo.IsXactRunning (Demo.storeEntry Demo.mixed Demo.lruNew)
    (queryKind (Kind Demo.lruNew)) = Some true /\
  exists found,
    Demo.GetRunning (Demo.storeEntry Demo.mixed Demo.lruNew)
      (queryKind (Kind Demo.lruNew))
    = Some (Some found, false) /\
    Kind found = Kind Demo.lruNew /\ Finished (Get found) = false /\
    (found ∈ active Demo.mixed \/ found = Demo.lruNew) /\
    ((forall x, x ∈ active Demo.mixed -> Kind x = Kind Demo.lruNew ->
                Finished (Get x) = true) -> found = Demo.lruNew).
Proof.
  apply (storeEntry_running Demo.Bck_Equal Demo.Bck_IsEmpty Demo.XactsMeta
           Demo.rebID_Compare Demo.mixed Demo.lruNew).
  - reflexivity.
  - vm_compute. reflexivity.
Defined.

Lemma taskCount_counts_tasks_witness :
  Demo.taskCount_ok newRegistryEntries /\
  (forall entry, Demo.taskCount_ok (Demo.insert Demo.mixed entry)) /\
  (forall id, Demo.taskCount_ok (Demo.remove Demo.mixed id)) /\
  Demo.taskCount_ok (housekeepActive Demo.mixed) /\
  (forall startTime e' freed,
     Demo.cleanUpFinished Demo.mixed startTime = Some (e', freed) ->
     Demo.taskCount_ok e') /\
  (taskCount Demo.mixed = 0 <->
   forall x, x ∈ entries Demo.mixed -> isTask Demo.XactsMeta x = false).
Proof.
  apply (taskCount_counts_tasks Demo.Bck_Equal Demo.Bck_IsEmpty
           Demo.Bck_HasProvider Demo.XactsMeta Demo.rebID_String
           Demo.rebID_Compare Demo.mixed).
  vm_compute. reflexivity.
Defined.

Lemma registry_wf_kept_witness :
  Demo.registry_wf newRegistryEntries /\
  (forall entry,
     Demo.idstr entry ∉ Demo.idstr <$> entries Demo.mixed ->
     Demo.registry_wf (Demo.insert Demo.mixed entry)) /\
  (forall id,
     Demo.registry_wf (Demo.remove Demo.mixed id) /\
     (forall y, y ∈ entries (Demo.remove Demo.mixed id)
                <-> y ∈ entries Demo.mixed /\ Demo.idstr y <> id) /\
     (forall y, y ∈ active (Demo.remove Demo.mixed id)
                <-> y ∈ active Demo.mixed /\ Demo.idstr y <> id)) /\
  Demo.registry_wf (housekeepActive Demo.mixed) /\
  (forall startTime e' freed,
     Demo.cleanUpFinished Demo.mixed startTime = Some (e', freed) ->
     Demo.registry_wf e').
Proof.
  apply (registry_wf_kept Demo.Bck_Equal Demo.Bck_IsEmpty
           Demo.Bck_HasProvider Demo.XactsMeta Demo.rebID_String
           Demo.rebID_Compare Demo.mixed).
  exact registry_wf_mixed.
Defined.

Lemma remove_unknown_witness :
  ((forall x, x ∈ entries Demo.mixed -> Demo.idstr x <> "x9") ->
   Demo.remove Demo.mixed "x9" = Demo.mixed) /\
  Demo.remove (Demo.remove Demo.mixed "x9") "x9"
  = Demo.remove Demo.mixed "x9".
Proof.
  apply (remove_unknown Demo.XactsMeta Demo.rebID_String Demo.mixed "x9").
  exact registry_wf_mixed.
Defined.

Lemma removeFinishedByID_spec_witness :
  exists err e',
    Demo.removeFinishedByID Demo.mixed "x1" = Some (err, e') /\
    match err with
    | Some _ =>
        e' = Demo.mixed /\
        exists x, x ∈ entries Demo.mixed /\ Demo.idstr x = "x1" /\
                  Finished (Get x) = false
    | None =>
        (forall x, x ∈ entries e'
                   <-> x ∈ entries Demo.mixed /\ Demo.idstr x <> "x1") /\
        (forall x, x ∈ entries Demo.mixed -> Demo.idstr x = "x1" ->
                   Finished (Get x) = true) /\
        Demo.GetXact e' "x1" = Some None
    end.
Proof.
  apply (removeFinishedByID_spec Demo.Bck_Equal Demo.Bck_IsEmpty
           Demo.XactsMeta Demo.rebID_String Demo.rebID_Compare Demo.mixed
           "x1").
  - exact registry_wf_mixed.
  - discriminate.
  - repeat constructor; eexists; reflexivity.
Defined.

End XregFacts.

(** ** downloader/jogger.go *)
Module JoggerFacts.
Import Jogger.

Local Open Scope string_scope.
Local Open Scope Z_scope.

Lemma set_q_id j : set_q j (q j) = j.
Proof. destruct j. reflexivity. Qed.

Lemma exists_putToSet qu mm a b :
  m qu = Some mm ->
  exists qu',
    putToSet qu a b = Some qu' /\ ch qu' = ch qu /\ is_Some (m qu') /\
    forall a' b', exists_ qu' a' b' = true
                  <-> exists_ qu a' b' = true \/ (a' = a /\ b' = b).
Proof.
  intros Hm. unfold putToSet. rewrite Hm. eexists.
  split; [reflexivity|]. split; [reflexivity|]. split; [simpl; eauto|].
  intros a' b'. unfold exists_. simpl. rewrite Hm.
  destruct (decide (a' = a)) as [->|Hne].
  - rewrite lookup_insert_eq. rewrite bool_decide_eq_true.
    destruct (mm !! a) as [jobM|]; simpl.
    + rewrite bool_decide_eq_true. set_solver.
    + split; [intros Hin; right; set_solver|].
      intros [?|[_ ->]]; [discriminate|set_solver].
  - rewrite lookup_insert_ne by done.
    split; [tauto|]. intros [?|[? _]]; [done|congruence].
Qed.



Lemma jobEntries_exists qu jobID u :
  u ∈ jobEntries qu jobID <-> exists_ qu jobID u = true.
Proof.
  unfold jobEntries, exists_. destruct (m qu) as [mm|]; [|set_solver].
  destruct (mm !! jobID); simpl; [|set_solver].
  by rewrite bool_decide_eq_true.
Qed.

(** a task whose pair is in the set, or that comes after the stop, gets the
    sink channel and the jogger is as before *)
Lemma putCh_dropped j t :
  stopped (q j) = true \/ exists_ (q j) (id t) (uid t) = true ->
  putCh j t = Some (SinkCh, j).
Proof.
  intros Hc. unfold putCh, queue_putCh.
  assert (Hb : stopped (q j) || exists_ (q j) (id t) (uid t) = true)
    by (apply orb_true_iff; exact Hc).
  rewrite Hb. rewrite set_q_id. reflexivity.
Qed.

(** C5. For every submitted task: if its (job id, request uid) pair is
    already in the set of the jogger's queue, or the queue has been stopped,
    [putCh] returns a sink channel (the task sent on it is dropped) and
    leaves the jogger, its pending count included, as it was; otherwise the
    pair is added to the set, the queue's own channel is returned, and the
    pending count is incremented by one. *)
Theorem putCh_spec j t :
  (stopped (q j) = true \/ exists_ (q j) (id t) (uid t) = true ->
   putCh j t = Some (SinkCh, j) /\ send j SinkCh t = Some j) /\
  (stopped (q j) = false -> exists_ (q j) (id t) (uid t) = false ->
   exists j',
     putCh j t = Some (QueueCh, j') /\
     pending j' = pending j + 1 /\
     (forall a b, exists_ (q j') a b = true
                  <-> exists_ (q j) a b = true \/ (a = id t /\ b = uid t)) /\
     ch (q j') = ch (q j) /\ task j' = task j).
Proof.
  split.
  - intros Hc. split; [|reflexivity]. apply putCh_dropped, Hc.
  - intros Hs He. unfold putCh, queue_putCh. rewrite Hs, He. simpl.
    assert (Hm : is_Some (m (q j))).
    { unfold stopped in Hs. destruct (m (q j)); [eauto|discriminate]. }
    destruct Hm as [mm Hm].
    destruct (exists_putToSet (q j) mm (id t) (uid t) Hm)
      as (qu' & Hput & Hch & _ & Hex).
    rewrite Hput. eexists. split; [reflexivity|]. simpl. auto.
Qed.

Lemma putCh_spec_witness :
  (putCh Demo.afterT1 Demo.t1' = Some (SinkCh, Demo.afterT1) /\
   send Demo.afterT1 SinkCh Demo.t1' = Some Demo.afterT1) /\
  exists j',
    putCh Demo.afterT1 Demo.t2 = Some (QueueCh, j') /\
    pending j' = pending Demo.afterT1 + 1 /\
    (forall a b, exists_ (q j') a b = true
       <-> exists_ (q Demo.afterT1) a b = true \/
           (a = id Demo.t2 /\ b = uid Demo.t2)) /\
    ch (q j') = ch (q Demo.afterT1) /\ task j' = task Demo.afterT1.
Proof.
  split.
  - apply (proj1 (putCh_spec Demo.afterT1 Demo.t1')).
    right. vm_compute. reflexivity.
  - apply (proj2 (putCh_spec Demo.afterT1 Demo.t2)).
    + vm_compute. reflexivity.
    + vm_compute. reflexivity.
Defined.

Lemma abortJob_fields j jobID :
  q (abortJob j jobID) = snd (removeJob (q j) jobID) /\
  pending (abortJob j jobID) = pending j - fst (removeJob (q j) jobID) /\
  cancelled (abortJob j jobID)
  = (cancelled j ++
     match task j with
     | Some t => if String.eqb (id t) jobID then [t] else []
     | None => []
     end)%list /\
  task (abortJob j jobID) = task j.
Proof.
  unfold abortJob. destruct (removeJob (q j) jobID) as [cnt qu'].
  cbn [set_q set_pending task q pending cancelled fst snd].
  destruct (task j) as [t|] eqn:Et.
  - destruct (String.eqb (id t) jobID); simpl; rewrite ?app_nil_r; auto.
  - simpl. rewrite app_nil_r. auto.
Qed.

Lemma removeJob_spec qu jobID :
  queue_ok qu ->
  fst (removeJob qu jobID) = Z.of_nat (size (jobEntries qu jobID)) /\
  (forall u, exists_ (snd (removeJob qu jobID)) jobID u = false) /\
  (forall a u, a <> jobID ->
               exists_ (snd (removeJob qu jobID)) a u = exists_ qu a u).
Proof.
  intros Hok. unfold removeJob, jobEntries, queue_ok in *.
  destruct (stopped qu) eqn:Hs.
  - assert (Hm : m qu = None).
    { unfold stopped in Hs. destruct (m qu) eqn:Em; [|done].
      destruct (ch qu) eqn:Ec; [discriminate|]. by apply Hok. }
    rewrite Hm. cbn [fst snd]. rewrite size_empty.
    split; [reflexivity|]. split; [|reflexivity].
    intros u. unfold exists_. by rewrite Hm.
  - destruct (m qu) as [mm|] eqn:Em;
      [|unfold stopped in Hs; rewrite Em in Hs; discriminate].
    destruct (mm !! jobID) as [jobM|] eqn:Ej; cbn [fst snd default].
    + split; [reflexivity|]. split.
      * intros u. unfold exists_. cbn [m]. by rewrite lookup_delete_eq.
      * intros a u Hne. unfold exists_. cbn [m]. rewrite Em.
        by rewrite lookup_delete_ne.
    + rewrite size_empty. split; [reflexivity|]. split; [|reflexivity].
      intros u. unfold exists_. by rewrite Em, Ej.
Qed.

(** C7. [abortJob] removes all entries of the job from the set of the
    queue (entries of other jobs stay), subtracts exactly the number of
    removed entries from the pending count of the downloader, and invokes
    the cancel handle of the currently running task if and only if that task
    belongs to the job. *)
Theorem abortJob_spec j jobID :
  queue_ok (q j) ->
  (forall u, u ∈ jobEntries (q j) jobID <-> exists_ (q j) jobID u = true) /\
  (forall u, exists_ (q (abortJob j jobID)) jobID u = false) /\
  (forall a u, a <> jobID ->
               exists_ (q (abortJob j jobID)) a u = exists_ (q j) a u) /\
  pending (abortJob j jobID)
  = pending j - Z.of_nat (size (jobEntries (q j) jobID)) /\
  cancelled (abortJob j jobID)
  = (cancelled j ++
     match task j with
     | Some t => if String.eqb (id t) jobID then [t] else []
     | None => []
     end)%list /\
  task (abortJob j jobID) = task j.
Proof.
  intros Hok. split; [intros u; apply jobEntries_exists|].
  destruct (abortJob_fields j jobID) as (Hq & Hp & Hc & Ht).
  destruct (removeJob_spec (q j) jobID Hok) as (Hcnt & Hgone & Hother).
  rewrite Hq, Hp, Hcnt. auto.
Qed.

Lemma abortJob_spec_witness :
  (forall u, exists_ (q (abortJob Demo.busy "j1")) "j1" u = false) /\
  exists_ (q (abortJob Demo.busy "j1")) "j2" "u1" = true /\
  pending (abortJob Demo.busy "j1") = 3 - 2 /\
  cancelled (abortJob Demo.busy "j1") = [Demo.t1].
Proof.
  assert (Hok : queue_ok (q Demo.busy)) by (split; discriminate).
  destruct (abortJob_spec Demo.busy "j1" Hok)
    as (_ & Hgone & Hother & Hp & Hc & _).
  split; [exact Hgone|]. split; [|split].
  - rewrite Hother by discriminate. vm_compute. reflexivity.
  - rewrite Hp. vm_compute. reflexivity.
  - rewrite Hc. reflexivity.
Defined.

(** *** the jogger without aborts *)












(** *** the jogger in every run, aborts included *)

Lemma setSize_empty : setSize ∅ = 0%nat.
Proof. unfold setSize. apply map_fold_empty. Qed.

Lemma setSize_insert_fresh mm a s :
  mm !! a = None -> setSize (<[a := s]> mm) = (size s + setSize mm)%nat.
Proof.
  intros Ha. unfold setSize.
  apply (map_fold_insert_L (fun _ (s : gset string) n => (size s + n)%nat));
    [intros; lia|done].
Qed.

Lemma setSize_delete mm a s :
  mm !! a = Some s ->
  setSize mm = (size s + setSize (base.delete a mm))%nat.
Proof.
  intros Ha. unfold setSize.
  apply (map_fold_delete_L (fun _ (s : gset string) n => (size s + n)%nat));
    [intros; lia|done].
Qed.

Lemma setSize_insert mm a s s' :
  mm !! a = Some s ->
  (setSize (<[a := s']> mm) + size s = setSize mm + size s')%nat.
Proof.
  intros Ha. rewrite <- insert_delete_eq.
  rewrite setSize_insert_fresh by apply lookup_delete_eq.
  rewrite (setSize_delete mm a s Ha). lia.
Qed.

Lemma removeFromSet_absent qu a b :
  exists_ qu a b = false -> removeFromSet qu a b = qu.
Proof.
  unfold exists_, removeFromSet. destruct (m qu) as [mm|]; [|done].
  destruct (mm !! a) as [jobM|]; [|done]. by intros ->.
Qed.

(** what [putToSet] does to the map, for a pair that is not in the set *)
Lemma putToSet_fresh qu mm a b :
  m qu = Some mm -> exists_ qu a b = false ->
  exists mm',
    putToSet qu a b = Some {| ch := ch qu; m := Some mm' |} /\
    setSize mm' = S (setSize mm) /\
    (forall k s, mm' !! k = Some s ->
                 (k = a /\ s <> ∅) \/ (k <> a /\ mm !! k = Some s)).
Proof.
  intros Hm He. unfold putToSet. rewrite Hm. eexists. split; [reflexivity|].
  unfold exists_ in He. rewrite Hm in He.
  destruct (mm !! a) as [jobM|] eqn:Ha; cbn [default]; unfold Datatypes.id.
  - apply bool_decide_eq_false in He. split.
    + pose proof (setSize_insert mm a jobM ({[b]} ∪ jobM) Ha) as Hs.
      rewrite size_union in Hs by set_solver.
      rewrite size_singleton in Hs. lia.
    + intros k s. destruct (decide (k = a)) as [->|Hne].
      * rewrite lookup_insert_eq. intros [= <-]. left. split; [done|set_solver].
      * rewrite lookup_insert_ne by done. auto.
  - split.
    + rewrite setSize_insert_fresh by done.
      rewrite size_union by set_solver.
      rewrite size_singleton, size_empty. lia.
    + intros k s. destruct (decide (k = a)) as [->|Hne].
      * rewrite lookup_insert_eq. intros [= <-]. left. split; [done|set_solver].
      * rewrite lookup_insert_ne by done. auto.
Qed.

(** what [removeFromSet] does to the map, for a pair that is in the set *)
Lemma removeFromSet_present qu mm a b :
  m qu = Some mm -> exists_ qu a b = true ->
  exists mm',
    removeFromSet qu a b = {| ch := ch qu; m := Some mm' |} /\
    S (setSize mm') = setSize mm /\
    (forall k s, mm' !! k = Some s ->
                 (k = a /\ s <> ∅) \/ (k <> a /\ mm !! k = Some s)).
Proof.
  intros Hm He. unfold removeFromSet. unfold exists_ in He.
  rewrite Hm in *. destruct (mm !! a) as [jobM|] eqn:Ha; [|discriminate].
  rewrite He. apply bool_decide_eq_true in He.
  assert (Hsz : size jobM = S (size (jobM ∖ {[b]}))).
  { rewrite size_difference by set_solver. rewrite size_singleton.
    assert (size jobM <> 0%nat); [|lia].
    intros Hz. apply size_empty_inv in Hz. set_solver. }
  destruct (bool_decide (size (jobM ∖ {[b]}) = 0%nat)) eqn:Hs.
  - apply bool_decide_eq_true in Hs. eexists. split; [reflexivity|]. split.
    + rewrite (setSize_delete mm a jobM Ha). lia.
    + intros k s. destruct (decide (k = a)) as [->|Hne].
      * by rewrite lookup_delete_eq.
      * rewrite lookup_delete_ne by done. auto.
  - apply bool_decide_eq_false in Hs. eexists. split; [reflexivity|]. split.
    + pose proof (setSize_insert mm a jobM (jobM ∖ {[b]}) Ha). lia.
    + intros k s. destruct (decide (k = a)) as [->|Hne].
      * rewrite lookup_insert_eq. intros [= <-]. left. split; [done|].
        intros Hz. apply Hs. rewrite Hz. apply size_empty.
      * rewrite lookup_insert_ne by done. auto.
Qed.

Lemma WF_new parent : WF parent (newJogger parent).
Proof.
  unfold WF. simpl. split; [done|]. split.
  - intros mm a s [= <-]. by rewrite lookup_empty.
  - rewrite setSize_empty. lia.
Qed.

Lemma abortJob_terminated j jobID :
  terminated (abortJob j jobID) = terminated j.
Proof.
  unfold abortJob. destruct (removeJob (q j) jobID) as [cnt qu'].
  cbn [set_q set_pending task]. destruct (task j) as [t|]; [|reflexivity].
  by destruct (String.eqb (id t) jobID).
Qed.

Lemma WF_step base a j j' :
  WF base j -> exec a j = Some j' -> WF (base + others [a]) j'.
Proof.
  intros Hwf.
  destruct a as [t| | |jobID| |n]; cbn [others exec];
    rewrite ?Z.add_0_r.
  - (* Submit *)
    unfold putCh, queue_putCh.
    destruct (stopped (q j) || exists_ (q j) (id t) (uid t)) eqn:Hb.
    + rewrite set_q_id. simpl. by intros [= <-].
    + apply orb_false_iff in Hb as [Hs He]. unfold stopped in Hs.
      unfold WF in Hwf.
      destruct (m (q j)) as [mm|] eqn:Hm; [|discriminate].
      destruct (ch (q j)) as [buf|] eqn:Hc; [|discriminate].
      destruct Hwf as (Ht & Hne & Hp).
      destruct (putToSet_fresh (q j) mm (id t) (uid t) Hm He)
        as (mm' & Hput & Hsz & Hkeys).
      rewrite Hput. unfold send. cbn [q set_q set_pending ch]. rewrite Hc.
      destruct (bool_decide (length buf < queueChSize)%nat); [|discriminate].
      intros [= <-]. unfold WF. cbn [q set_q set_pending m ch terminated pending].
      split; [exact Ht|]. split.
      * intros mm0 k s [= <-] Hk. apply Hkeys in Hk as [[_ ?]|[_ Hk]]; [done|].
        by apply (Hne mm k s).
      * rewrite Hsz, Hp. lia.
  - (* JogTake *)
    destruct (terminated j) eqn:Ht; [discriminate|].
    destruct (task j) as [t0|] eqn:Htask; [discriminate|].
    unfold jogTake, get. unfold WF in Hwf.
    destruct (ch (q j)) as [buf|] eqn:Hc; [|discriminate].
    destruct (m (q j)) as [mm|] eqn:Hm; [|done].
    destruct Hwf as (_ & Hne & Hp).
    destruct (getLoop (q j) buf) as [[t rest]|]; [|discriminate].
    cbn [set_q stopAgent]. destruct (stopAgent j).
    + intros [= <-]. unfold WF. simpl. done.
    + intros [= <-]. unfold WF. cbn [q set_q set_task m ch terminated pending].
      rewrite ?Hm. split; [exact Ht|]. split; [|exact Hp].
      intros mm0 k s [= <-]. by apply Hne.
  - (* JogFinish *)
    unfold jogFinish. destruct (task j) as [t|] eqn:Htask; [|discriminate].
    unfold delete. cbn [q]. unfold WF in Hwf.
    destruct (m (q j)) as [mm|] eqn:Hm;
      destruct (ch (q j)) as [buf|] eqn:Hc; try done;
      [|destruct Hwf; congruence].
    destruct Hwf as (Hter & Hne & Hp).
    destruct (exists_ (q j) (id t) (uid t)) eqn:He.
    + destruct (removeFromSet_present (q j) mm (id t) (uid t) Hm He)
        as (mm' & Hrem & Hsz & Hkeys).
      rewrite Hrem, Hc. intros [= <-]. unfold WF.
      cbn [q set_q set_pending m ch terminated pending].
      split; [exact Hter|]. split.
      * intros mm0 k s [= <-] Hk. apply Hkeys in Hk as [[_ ?]|[_ Hk]]; [done|].
        by apply (Hne mm k s).
      * rewrite Hp. lia.
    + rewrite removeFromSet_absent by done. intros [= <-]. unfold WF.
      cbn [q set_q set_pending m ch terminated pending].
      rewrite ?Hm, ?Hc. done.
  - (* AbortJob *)
    intros [= <-].
    destruct (abortJob_fields j jobID) as (Hq & Hp & _ & Htask).
    unfold WF. rewrite Hq, Hp, Htask, abortJob_terminated.
    unfold WF in Hwf. unfold removeJob, stopped.
    destruct (m (q j)) as [mm|] eqn:Hm;
      destruct (ch (q j)) as [buf|] eqn:Hc; try done.
    + destruct Hwf as (Hter & Hne & Hpj).
      destruct (mm !! jobID) as [jobM|] eqn:Hj; cbn [fst snd m ch].
      * split; [exact Hter|]. split.
        -- intros mm0 k s [= <-] Hk.
           destruct (decide (k = jobID)) as [->|Hd];
             [by rewrite lookup_delete_eq in Hk|].
           rewrite lookup_delete_ne in Hk by done. by apply (Hne mm k s).
        -- rewrite Hpj, (setSize_delete mm jobID jobM Hj). lia.
      * rewrite ?Hm, ?Hc. split; [exact Hter|]. split; [exact Hne|lia].
    + cbn [fst snd]. rewrite ?Hm, ?Hc. exact Hwf.
  - (* Stop *)
    intros [= <-]. exact Hwf.
  - (* OtherJogger *)
    intros [= <-]. unfold WF in *.
    cbn [q set_pending m ch terminated pending task].
    destruct (m (q j)) as [mm|]; destruct (ch (q j)) as [buf|]; try done.
    destruct Hwf as (Hter & Hne & Hp). split; [exact Hter|].
    split; [exact Hne|]. lia.
Qed.

Lemma others_cons a tr : others (a :: tr) = others [a] + others tr.
Proof. destruct a; simpl; lia. Qed.

Lemma WF_run base tr j j' :
  WF base j -> run tr j = Some j' -> WF (base + others tr) j'.
Proof.
  revert base j. induction tr as [|a tr IH]; intros base j Hwf.
  - simpl. rewrite Z.add_0_r. by intros [= <-].
  - cbn [run]. destruct (exec a j) as [j1|] eqn:He; [|discriminate].
    intros Hrun. rewrite others_cons, Z.add_assoc.
    apply (IH _ j1); [|exact Hrun]. eapply WF_step; eauto.
Qed.

Lemma WF_reach parent tr j :
  run tr (newJogger parent) = Some j -> WF (parent + others tr) j.
Proof. apply WF_run, WF_new. Qed.

Lemma WF_noEmpty base j : WF base j -> noEmpty (q j).
Proof.
  unfold WF. intros Hwf mm a s Hm. rewrite Hm in Hwf.
  destruct (ch (q j)); [|done]. destruct Hwf as (_ & Hne & _).
  by apply Hne.
Qed.

Lemma setSize_0 mm :
  (forall a s, mm !! a = Some s -> s <> ∅) ->
  (setSize mm = 0%nat <-> mm = ∅).
Proof.
  intros Hne. split; [|intros ->; apply setSize_empty].
  intros Hz. apply map_empty. intros a.
  destruct (mm !! a) as [s|] eqn:Ha; [|reflexivity]. exfalso.
  rewrite (setSize_delete mm a s Ha) in Hz.
  apply (Hne a s Ha). apply leibniz_equiv, size_empty_inv. lia.
Qed.

(** X10. The share of a jogger in the pending counter of the downloader.
    The counter is shared by all joggers of the downloader.  As long as the
    loop of the jogger has not exited, and between its operations, the
    counter is its value when the jogger was made, plus what the other
    joggers have added to it since, plus the number of (job id, request
    uid) pairs in the set of this jogger's queue, whatever was submitted,
    run, finished or aborted before; so this jogger's share is zero exactly
    when its set is empty. *)
Theorem pending_counts_set parent tr j :
  run tr (newJogger parent) = Some j -> terminated j = false ->
  exists mm,
    m (q j) = Some mm /\
    pending j = parent + others tr + Z.of_nat (setSize mm) /\
    (pending j = parent + others tr
     <-> forall a b, exists_ (q j) a b = false).
Proof.
  intros Hrun Hter. pose proof (WF_reach parent tr j Hrun) as Hwf.
  unfold WF in Hwf.
  destruct (m (q j)) as [mm|] eqn:Hm; destruct (ch (q j)) as [buf|] eqn:Hc;
    try done; [|destruct Hwf; congruence].
  destruct Hwf as (_ & Hne & Hp). exists mm. split; [reflexivity|].
  split; [exact Hp|]. rewrite Hp.
  assert (Hne' : forall a s, mm !! a = Some s -> s <> ∅)
    by (intros a s; by apply Hne).
  split.
  - intros Hz. assert (Hmm : mm = ∅) by (apply setSize_0; [done|lia]).
    intros a b. unfold exists_. rewrite Hm, Hmm. by rewrite lookup_empty.
  - intros Hall. assert (Hmm : mm = ∅).
    { apply map_empty. intros a.
      destruct (mm !! a) as [s|] eqn:Ha; [|reflexivity]. exfalso.
      destruct (set_choose_L s (Hne' a s Ha)) as [b Hb].
      specialize (Hall a b). unfold exists_ in Hall. rewrite Hm, Ha in Hall.
      by apply bool_decide_eq_false in Hall. }
    rewrite Hmm, setSize_empty. lia.
Qed.

Lemma pending_counts_set_witness :
  exists mm,
    m (q Demo.shared) = Some mm /\
    pending Demo.shared
    = 5 + others Demo.sharedRun + Z.of_nat (setSize mm) /\
    (pending Demo.shared = 5 + others Demo.sharedRun
     <-> forall a b, exists_ (q Demo.shared) a b = false).
Proof.
  apply (pending_counts_set 5 Demo.sharedRun).
  - vm_compute. reflexivity.
  - vm_compute. reflexivity.
Defined.

(** X11. In every run, [jogger.pending] answers true for a job exactly when
    the current task belongs to the job or the set of the queue holds a
    pair of the job: a job never stays in the map with an empty set. *)
Theorem jogger_pending_iff parent tr j jobID :
  run tr (newJogger parent) = Some j ->
  (jogger_pending j jobID = true <->
   (exists t, task j = Some t /\ id t = jobID) \/
   (exists u, exists_ (q j) jobID u = true)).
Proof.
  intros Hrun. pose proof (WF_reach parent tr j Hrun) as Hwf.
  assert (Hq : queue_pending (q j) jobID = true
               <-> exists u, exists_ (q j) jobID u = true).
  { unfold queue_pending, exists_, WF in *.
    destruct (m (q j)) as [mm|] eqn:Hm.
    - destruct (ch (q j)); [|done]. destruct Hwf as (_ & Hne & _).
      rewrite bool_decide_eq_true. split.
      + intros [s Hs]. rewrite Hs.
        destruct (set_choose_L s (Hne mm jobID s Hm Hs)) as [u Hu].
        exists u. by apply bool_decide_eq_true.
      + intros [u Hu]. destruct (mm !! jobID); [eauto|discriminate].
    - split; [discriminate|]. by intros [u Hu]. }
  unfold jogger_pending. destruct (task j) as [t|].
  - rewrite orb_true_iff, Hq. rewrite String.eqb_eq. split.
    + intros [Hi|Hu]; [left; eauto|right; done].
    + intros [(t' & [= <-] & Hi)|Hu]; [left; done|right; done].
  - rewrite Hq. split; [auto|]. intros [(t' & Ht & _)|Hu]; [discriminate|done].
Qed.

Lemma jogger_pending_iff_witness :
  jogger_pending Demo.aborted "j1" = true <->
  (exists t, task Demo.aborted = Some t /\ id t = "j1") \/
  (exists u, exists_ (q Demo.aborted) "j1" u = true).
Proof.
  apply (jogger_pending_iff 0 [Submit Demo.t1; JogTake; AbortJob "j1"]).
  vm_compute. reflexivity.
Defined.

Lemma getLoop_spec qu buf :
  match getLoop qu buf with
  | Some (t, rest) =>
      exists skipped,
        buf = (skipped ++ t :: rest)%list /\
        Forall (dropped qu) skipped /\
        exists_ qu (id t) (uid t) = true
  | None => Forall (dropped qu) buf
  end.
Proof.
  induction buf as [|x buf IH]; simpl; [constructor|].
  destruct (exists_ qu (id x) (uid x)) eqn:He.
  - exists []. split; [reflexivity|]. split; [constructor|exact He].
  - destruct (getLoop qu buf) as [[t rest]|].
    + destruct IH as (skipped & -> & Hs & Ht).
      exists (x :: skipped). split; [reflexivity|].
      split; [constructor; done|exact Ht].
    + constructor; done.
Qed.

Lemma get_spec qu :
  match get qu with
  | Some (t, qu') =>
      exists skipped rest,
        ch qu = Some (skipped ++ t :: rest)%list /\
        Forall (dropped qu) skipped /\
        exists_ qu (id t) (uid t) = true /\
        qu' = {| ch := Some rest; m := m qu |}
  | None => forall buf, ch qu = Some buf -> Forall (dropped qu) buf
  end.
Proof.
  unfold get. destruct (ch qu) as [buf|]; [|discriminate].
  pose proof (getLoop_spec qu buf) as Hl.
  destruct (getLoop qu buf) as [[t rest]|].
  - destruct Hl as (skipped & -> & Hs & Ht). exists skipped, rest. done.
  - by intros buf' [= <-].
Qed.

(** X12. [queue.get] hands out the buffered tasks in the order in which they
    were sent: it returns the first buffered task whose pair is still in
    the set, discards exactly the tasks in front of it (their pairs were
    removed in the meantime), leaves the tasks behind it in the buffer and
    does not touch the set; it blocks when no buffered task is accepted. *)
Theorem get_skips_dropped qu :
  match get qu with
  | Some (t, qu') =>
      exists skipped rest,
        ch qu = Some (skipped ++ t :: rest)%list /\
        Forall (dropped qu) skipped /\
        exists_ qu (id t) (uid t) = true /\
        qu' = {| ch := Some rest; m := m qu |}
  | None => forall buf, ch qu = Some buf -> Forall (dropped qu) buf
  end.
Proof. apply get_spec. Qed.

(** X13. Adding a pair that is not in the set and deleting it again gives
    back the queue as it was, map included: the job's entry that [putToSet]
    made is removed again when its last pair goes. *)
Theorem putToSet_delete qu t qu1 :
  noEmpty qu -> exists_ qu (id t) (uid t) = false ->
  putToSet qu (id t) (uid t) = Some qu1 ->
  exists_ qu1 (id t) (uid t) = true /\ delete qu1 t = (true, qu).
Proof.
  intros Hne He Hput. unfold putToSet in Hput.
  destruct (m qu) as [mm|] eqn:Hm; [|discriminate]. injection Hput as <-.
  assert (Hex : exists_ {| ch := ch qu;
                           m := Some (<[id t := {[uid t]}
                                        ∪ default ∅ (mm !! id t)]> mm) |}
                  (id t) (uid t) = true).
  { unfold exists_. cbn [m]. rewrite lookup_insert_eq.
    apply bool_decide_eq_true. set_solver. }
  split; [exact Hex|]. unfold delete. rewrite Hex. f_equal.
  unfold removeFromSet. cbn [m ch]. rewrite lookup_insert_eq.
  rewrite bool_decide_true by set_solver.
  unfold exists_ in He. rewrite Hm in He.
  destruct qu as [c mq]. cbn [m ch] in *. subst mq.
  destruct (mm !! id t) as [jobM|] eqn:Ha; cbn [default]; unfold Datatypes.id.
  - apply bool_decide_eq_false in He.
    assert (Hd : ({[uid t]} ∪ jobM) ∖ {[uid t]} = jobM) by set_solver.
    rewrite Hd. rewrite bool_decide_false.
    + by rewrite insert_insert_eq, insert_id.
    + intros Hz. apply size_empty_inv in Hz.
      apply (Hne mm (id t) jobM eq_refl Ha). apply leibniz_equiv. exact Hz.
  - assert (Hd : ({[uid t]} ∪ ∅) ∖ {[uid t]} = (∅ : gset string))
      by set_solver.
    rewrite Hd. rewrite bool_decide_true by apply size_empty.
    by rewrite delete_insert_id.
Qed.

Lemma putToSet_delete_witness :
  exists_ (default newQueue (putToSet (q Demo.afterT1) "j1" "u2")) "j1" "u2"
  = true /\
  delete (default newQueue (putToSet (q Demo.afterT1) "j1" "u2")) Demo.t2
  = (true, q Demo.afterT1).
Proof.
  apply (putToSet_delete (q Demo.afterT1) Demo.t2).
  - apply (WF_noEmpty (0 + others [Submit Demo.t1])).
    apply (WF_reach 0 [Submit Demo.t1]). vm_compute. reflexivity.
  - vm_compute. reflexivity.
  - vm_compute. reflexivity.
Defined.

(** X14. Once the loop of the jogger has exited, both the channel and the map
    of the queue are nil and no task is current or live; every later
    submission is handed the sink channel and changes nothing, the loop
    takes and finishes nothing more, and no job is pending. *)
Theorem terminated_drops parent tr j :
  run tr (newJogger parent) = Some j -> terminated j = true ->
  q j = {| ch := None; m := None |} /\ task j = None /\ live j = [] /\
  (forall t, putCh j t = Some (SinkCh, j) /\ exec (Submit t) j = Some j) /\
  exec JogTake j = None /\ exec JogFinish j = None /\
  (forall jobID, jogger_pending j jobID = false).
Proof.
  intros Hrun Hter. pose proof (WF_reach parent tr j Hrun) as Hwf.
  unfold WF in Hwf.
  destruct (m (q j)) as [mm|] eqn:Hm; destruct (ch (q j)) as [buf|] eqn:Hc;
    try done; [destruct Hwf; congruence|].
  destruct Hwf as [_ Htask].
  assert (Hq : q j = {| ch := None; m := None |}).
  { destruct (q j) as [c mq]. simpl in *. by subst. }
  assert (Hput : forall t, putCh j t = Some (SinkCh, j)).
  { intros t. apply putCh_dropped. left. unfold stopped. by rewrite Hm. }
  split; [exact Hq|]. split; [exact Htask|]. split.
  { unfold live. rewrite Htask, Hc. reflexivity. }
  split.
  { intros t. split; [apply Hput|]. cbn [exec]. by rewrite Hput. }
  split; [cbn [exec]; by rewrite Hter|].
  split; [cbn [exec]; unfold jogFinish; by rewrite Htask|].
  intros jobID. unfold jogger_pending, queue_pending. by rewrite Htask, Hm.
Qed.

Lemma terminated_drops_witness :
  q Demo.exited = {| ch := None; m := None |} /\ task Demo.exited = None /\
  live Demo.exited = [] /\
  (forall t, putCh Demo.exited t = Some (SinkCh, Demo.exited) /\
             exec (Submit t) Demo.exited = Some Demo.exited) /\
  exec JogTake Demo.exited = None /\ exec JogFinish Demo.exited = None /\
  (forall jobID, jogger_pending Demo.exited jobID = false).
Proof.
  apply (terminated_drops 0 Demo.stoppedRun).
  - vm_compute. reflexivity.
  - vm_compute. reflexivity.
Defined.

(** X15. A jogger that was stopped does not run the next task that its loop
    dequeues: the loop exits, the queue is cleaned up, the task is neither
    downloaded nor persisted, and the exit does not touch the counter of
    the downloader, so that the share of this jogger, the number of pairs
    that were in its set (at least one, the pair of the dequeued task), is
    not given back.  If nothing that is still accepted is buffered, the
    loop stays blocked in [queue.get] and the jogger does not terminate. *)
Theorem stop_discards_next parent tr j :
  run tr (newJogger parent) = Some j -> task j = None ->
  terminated j = false ->
  match get (q j) with
  | Some (t, _) =>
      exists j',
        exec JogTake (stop j) = Some j' /\ terminated j' = true /\
        stopped (q j') = true /\ task j' = None /\
        persisted j' = persisted j /\ pending j' = pending j /\
        exists mm, m (q j) = Some mm /\
                   pending j'
                   = parent + others tr + Z.of_nat (setSize mm) /\
                   (0 < setSize mm)%nat
  | None => exec JogTake (stop j) = None /\ terminated (stop j) = false
  end.
Proof.
  intros Hrun Htask Hter.
  pose proof (WF_reach parent tr j Hrun) as Hwf.
  pose proof (WF_noEmpty _ j Hwf) as Hne0. unfold WF in Hwf.
  destruct (m (q j)) as [mm|] eqn:Hm; destruct (ch (q j)) as [buf|] eqn:Hcb;
    try done; [|destruct Hwf; congruence].
  destruct Hwf as (_ & _ & Hp).
  assert (Hne : forall a s, mm !! a = Some s -> s <> ∅)
    by (intros a s; by apply Hne0).
  assert (Hx : exec JogTake (stop j)
               = match get (q j) with
                 | None => None
                 | Some (t, qu') =>
                     Some {| q := cleanup qu'; task := None;
                             stopAgent := true; terminated := true;
                             pending := pending j; cancelled := cancelled j;
                             failed := failed j; persisted := persisted j |}
                 end).
  { cbn [exec]. unfold jogTake, stop.
    cbn [terminated task q stopAgent]. rewrite Hter, Htask.
    destruct (get (q j)) as [[t qu']|]; [|reflexivity].
    cbn [set_q stopAgent task q terminated pending cancelled failed
         persisted]. reflexivity. }
  rewrite Hx. clear Hx.
  pose proof (get_spec (q j)) as Hg.
  destruct (get (q j)) as [[t qu']|]; [|split; [reflexivity|exact Hter]].
  destruct Hg as (skipped & rest & Hc & _ & He & ->).
  eexists. split; [reflexivity|].
  cbn [terminated q task persisted pending cleanup stopped m ch].
  repeat (split; [reflexivity|]).
  exists mm. split; [reflexivity|]. split; [exact Hp|].
  unfold exists_ in He. rewrite Hm in He.
  destruct (mm !! id t) as [s|] eqn:Hs; [|discriminate].
  rewrite (setSize_delete mm (id t) s Hs).
  assert (size s <> 0%nat); [|lia].
  intros Hz. apply size_empty_inv, leibniz_equiv in Hz.
  by apply (Hne (id t) s).
Qed.

Lemma stop_discards_next_witness :
  match get (q Demo.afterT1) with
  | Some (t, _) =>
      exists j',
        exec JogTake (stop Demo.afterT1) = Some j' /\ terminated j' = true /\
        stopped (q j') = true /\ task j' = None /\
        persisted j' = persisted Demo.afterT1 /\
        pending j' = pending Demo.afterT1 /\
        exists mm, m (q Demo.afterT1) = Some mm /\
                   pending j'
                   = 0 + others [Submit Demo.t1] + Z.of_nat (setSize mm) /\
                   (0 < setSize mm)%nat
  | None => exec JogTake (stop Demo.afterT1) = None /\
            terminated (stop Demo.afterT1) = false
  end.
Proof.
  apply (stop_discards_next 0 [Submit Demo.t1]).
  - vm_compute. reflexivity.
  - vm_compute. reflexivity.
  - vm_compute. reflexivity.
Defined.



End JoggerFacts.

(** ** ais/prxtxn.go *)
Module PrxtxnFacts.
Import Prxtxn.

Local Open Scope string_scope.
Local Open Scope Z_scope.

Section Proxy.

Context {Bck : Type} `{Countable Bck}.
Context {Rest RawValue PropsToUpdate Header Smap : Type}.
Variable Bck_Name : Bck -> string.
Variable Apply : @BucketProps Rest -> PropsToUpdate -> @BucketProps Rest.
Variable Validate : @BucketProps Rest -> Z -> option (@error Bck).
Variable DefaultBucketProps : @BucketProps Rest.
Variable CloudBucketProps : Header -> @BucketProps Rest.
Variable isPrimary : Smap -> bool.
Variable CountTargets : Smap -> Z.
Variable pname : string.
Variable CplaneOperation : Z.
Variable MaxKeepalive : Z.
Variable LongTimeout : Z.
Variable cfg_Mirror_Copies : Z.
Variable GenUUID : nat -> string.
Variable UnixNano2S : Z -> string.
Variable AddBckToQuery : gmap string string -> Bck -> gmap string string.
Variable parseNCopies : @value Bck Rest RawValue -> Z + @error Bck.
Variable targets : @bcastArgs Bck Rest RawValue Smap -> list (option (@error Bck)).
Variable canStartRebalance : option (@error Bck).


Local Abbreviation run :=
  (run Bck_Name Apply Validate DefaultBucketProps CloudBucketProps isPrimary
     CountTargets pname CplaneOperation MaxKeepalive LongTimeout
     cfg_Mirror_Copies GenUUID UnixNano2S AddBckToQuery parseNCopies targets
     canStartRebalance).
Local Abbreviation proxy := (@proxy Bck _ _ Rest RawValue Smap).
Local Abbreviation txn := (@txn Bck Rest RawValue PropsToUpdate Header).
Local Abbreviation bcastArgs := (@bcastArgs Bck Rest RawValue Smap).
Local Abbreviation error := (@error Bck).
Local Abbreviation Returns := (@Return Bck unit).

Lemma firstErr_Some (l : list (option error)) e0 :
  Some e0 ∈ l -> exists e, firstErr l = Some e /\ Some e ∈ l.
Proof.
  induction l as [|[e|] l IH]; intros Hin.
  - by apply elem_of_nil in Hin.
  - exists e. split; [reflexivity|by left].
  - apply elem_of_cons in Hin as [?|Hin]; [discriminate|].
    destruct (IH Hin) as (e & ? & ?). exists e. split; [done|by right].
Qed.

Lemma app_self_inv {A} (l : list A) b rest :
  l = (l ++ b :: rest)%list -> False.
Proof.
  intros Heq. apply (f_equal length) in Heq.
  rewrite length_app in Heq. simpl in Heq. lia.
Qed.


(** *** effects of a method on the log of broadcasts and on the BMD *)

Local Abbreviation M := (@M Bck _ _ Rest RawValue Smap).

Local Abbreviation appending := (@appending Bck _ _ Rest RawValue Smap).
Local Abbreviation silent := (@silent Bck _ _ Rest RawValue Smap).
Local Abbreviation beginOK := (@beginOK Bck _ _ Rest RawValue Smap targets).

Lemma silent_appending {A} (m : M A) : silent m -> appending m.
Proof.
  intros Hs p. exists []. rewrite app_nil_r. apply Hs.
Qed.

Lemma appending_bind {A B} (m : M A) (k : A -> M B) :
  appending m -> (forall a, appending (k a)) -> appending (bind m k).
Proof.
  intros Hm Hk p. unfold bind. destruct (Hm p) as [l Hl].
  destruct (m p) as [p1 [a| | |]]; simpl in *; try (by exists l).
  destruct (Hk a p1) as [l' Hl']. exists (l ++ l')%list.
  rewrite Hl', Hl, app_assoc. reflexivity.
Qed.

Lemma appending_defer {A} (f : proxy -> proxy) (body : M A) :
  (forall p, bcasts (f p) = bcasts p) -> appending body ->
  appending (defer f body).
Proof.
  intros Hf Hb p. unfold defer. destruct (Hb p) as [l Hl].
  destruct (body p) as [p1 r]. simpl in *. exists l. by rewrite Hf.
Qed.

Lemma silent_beginOK path {A} (m : M A) : silent m -> beginOK path m.
Proof.
  intros Hs p p' r Hm. left. specialize (Hs p). rewrite Hm in Hs. exact Hs.
Qed.

(** a silent step with what is known of its value, then a continuation *)
Lemma beginOK_bind path {A B} (R : A -> Prop) (m : M A) (k : A -> M B) :
  silent m ->
  (forall p p' a, m p = (p', Val a) -> R a) ->
  (forall a, R a -> beginOK path (k a)) ->
  beginOK path (bind m k).
Proof.
  intros Hs HR Hk p p' r. unfold bind.
  destruct (m p) as [p1 r1] eqn:Hm.
  pose proof (Hs p) as [Hb1 Hm1]. rewrite Hm in Hb1, Hm1. simpl in *.
  destruct r1 as [a| | |]; try (intros [= <- <-]; left; done).
  intros Hka. apply (Hk a (HR _ _ _ Hm)) in Hka.
  rewrite Hb1, Hm1 in Hka. exact Hka.
Qed.

Lemma beginOK_defer path {A} (f : proxy -> proxy) (body : M A) :
  (forall p, bcasts (f p) = bcasts p /\ bmd (f p) = bmd p) ->
  beginOK path body -> beginOK path (defer f body).
Proof.
  intros Hf Hb p p' r. unfold defer.
  destruct (body p) as [p1 r1] eqn:Hbody. intros [= <- <-].
  destruct (Hf p1) as [-> ->]. eauto.
Qed.

(** the begin phase itself, followed by any continuation that only
    appends to the log *)
Lemma beginOK_beginPhase {B} (c : txnClientCtx) cleanup (k : unit -> M B) :
  (forall p, bcasts (cleanup p) = bcasts p /\ bmd (cleanup p) = bmd p) ->
  Path (c_req c) = (c_path c ++ [ActBegin])%list ->
  (forall u, appending (k u)) ->
  beginOK (c_path c ++ [ActBegin])%list
    (bind (beginPhase targets c cleanup) k).
Proof.
  intros Hcl Hpath Hk p p' r.
  unfold bind at 1, beginPhase, bind at 1, bcastPost at 1.
  set (b := bargs (c_req c) (c_smap c) None).
  destruct (firstErr (targets b)) as [e|] eqn:He.
  - unfold bind, bcastPost. cbn [fst snd bcasts bmd].
    intros [= <- <-]. right. right. exists b, e.
    destruct (Hcl {| bmd := bmd p; rmd := rmd p; psmap := psmap p;
                     locks := locks p; uuids := uuids p;
                     bcasts := ((bcasts p ++ [b]) ++
                                [bargs (set_path (c_req c)
                                   (URLPath (c_path c ++ [ActAbort])))
                                   (c_smap c) None])%list;
                     synced := synced p; spawned := spawned p |})
      as [Hc1 Hc2].
    rewrite Hc1, Hc2. cbn [bcasts bmd].
    split; [|done].
    rewrite <- app_assoc. cbn [app]. do 3 f_equal.
    unfold abortOf, b, bargs. cbn [req smap timeout Path].
    rewrite Hpath, removelast_last. reflexivity.
  - unfold ret. cbn [fst snd]. intros Hrun.
    destruct (Hk tt {| bmd := bmd p; rmd := rmd p; psmap := psmap p;
                       locks := locks p; uuids := uuids p;
                       bcasts := (bcasts p ++ [b])%list;
                       synced := synced p; spawned := spawned p |})
      as [l Hl].
    rewrite Hrun in Hl. cbn [fst bcasts] in Hl.
    right. left. exists b, l. split; [|done].
    rewrite Hl, <- app_assoc. reflexivity.
Qed.

Lemma silent_bind {A B} (m : M A) (k : A -> M B) :
  silent m -> (forall a, silent (k a)) -> silent (bind m k).
Proof.
  intros Hm Hk p. unfold bind. destruct (Hm p) as [H1 H2].
  destruct (m p) as [p1 [a| | |]]; simpl in *; try done.
  destruct (Hk a p1) as [H3 H4]. rewrite H3, H4. done.
Qed.

Ltac prim_silent :=
  let p := fresh "p" in
  intros p;
  cbv [ret return_ Assert get_bmd get_smap fresh_uuid nlp_Lock nlp_TryLock
       nlp_TryRLock nlp_Unlock nlp_RUnlock unlock runlock set_locks];
  repeat case_match; cbn [fst bcasts bmd]; done.

Ltac prim_appending :=
  let p := fresh "p" in
  intros p;
  cbv [put_bmd put_rmd bcastPost metasync go];
  cbn [fst bcasts]; first [by exists []; rewrite app_nil_r | by eexists].

Ltac silent_tac :=
  repeat first
    [ progress intros
    | apply silent_bind
    | solve [prim_silent]
    | match goal with
      | |- silent (match ?x with _ => _ end) => destruct x
      end
    | progress unfold makeNprops ].

Lemma appending_rmd_modify (post : rebMD -> M unit) :
  (forall c, appending (post c)) -> appending (rmd_modify post).
Proof.
  intros Hp p. unfold rmd_modify. cbv zeta.
  apply (appending_bind _ _); [prim_appending|]. intros _.
  apply appending_bind; [apply Hp|]. intros _.
  apply silent_appending. prim_silent.
Qed.

Ltac appending_tac :=
  repeat first
    [ progress intros
    | apply appending_bind
    | apply appending_rmd_modify
    | apply appending_defer; [intros; reflexivity|]
    | apply silent_appending; solve [prim_silent]
    | solve [prim_appending]
    | match goal with
      | |- appending (match ?x with _ => _ end) => destruct x
      end
    | progress unfold undoCreateBucket, undoUpdateCopies, makeNprops ].

Lemma prepTxnClient_spec (msg : ActionMsg) bck :
  silent (prepTxnClient Bck_Name isPrimary CplaneOperation GenUUID UnixNano2S
            AddBckToQuery msg bck) /\
  forall p p' c,
    prepTxnClient Bck_Name isPrimary CplaneOperation GenUUID UnixNano2S
      AddBckToQuery msg bck p = (p', Val c) ->
    c_path c = [Version; Txn; Bck_Name bck] /\
    Path (c_req c) = (c_path c ++ [ActBegin])%list.
Proof.
  split.
  - unfold prepTxnClient. silent_tac.
  - intros p p' c. unfold prepTxnClient.
    cbv [bind get_smap Assert fresh_uuid ret].
    destruct (isPrimary (psmap p)); [|discriminate].
    intros [= <- <-]. split; reflexivity.
Qed.

Local Abbreviation beginPath :=
  (@beginPath Bck Rest RawValue PropsToUpdate Header Bck_Name).

Ltac prep_step msg bck :=
  apply (beginOK_bind _ (fun c =>
           c_path c = [Version; Txn; Bck_Name bck] /\
           Path (c_req c) = (c_path c ++ [ActBegin])%list));
  [ apply (prepTxnClient_spec msg bck)
  | apply (prepTxnClient_spec msg bck)
  | let c := fresh "c" in
    let Hp := fresh "Hp" in
    let Hr := fresh "Hr" in
    intros c [Hp Hr] ].

Ltac begin_step c Hp Hr :=
  replace [Version; Txn; Bck_Name _; ActBegin]
    with (c_path c ++ [ActBegin])%list by (rewrite Hp; reflexivity);
  apply beginOK_beginPhase;
  [ intros ?; cbv [runlock unlock set_locks]; repeat case_match;
    split; reflexivity
  | exact Hr
  | appending_tac ].

(** walk through a method up to and including its begin phase *)
Ltac beginOK_step :=
  lazymatch goal with
  | |- beginOK _ (bind (prepTxnClient _ _ _ _ _ _ ?msg ?bck) _) =>
      prep_step msg bck
  | Hp : c_path ?c = _, Hr : Path (c_req ?c) = _
    |- beginOK _ (bind (beginPhase _ ?c _) _) =>
      begin_step c Hp Hr
  | |- beginOK _ (bind _ _) =>
      apply (beginOK_bind _ (fun _ => True));
      [solve [silent_tac] | done | intros ? _]
  | |- beginOK _ (defer _ _) =>
      apply beginOK_defer; [intros; split; reflexivity|]
  | |- beginOK _ (match ?x with _ => _ end) => destruct x
  | |- beginOK _ _ => apply silent_beginOK; solve [silent_tac]
  end.

Lemma createBucket_beginOK msg bck h :
  beginOK (beginPath (CreateBucket msg bck h))
    (call Bck_Name Apply Validate DefaultBucketProps CloudBucketProps
       isPrimary CountTargets pname CplaneOperation MaxKeepalive LongTimeout
       cfg_Mirror_Copies GenUUID UnixNano2S AddBckToQuery parseNCopies targets
       canStartRebalance (CreateBucket msg bck h)).
Proof.
  unfold Prxtxn.beginPath. cbn [call txn_bck]. unfold createBucket.
  repeat beginOK_step.
Qed.

Lemma makeNCopies_beginOK msg bck :
  beginOK (beginPath (MakeNCopies msg bck))
    (call Bck_Name Apply Validate DefaultBucketProps CloudBucketProps
       isPrimary CountTargets pname CplaneOperation MaxKeepalive LongTimeout
       cfg_Mirror_Copies GenUUID UnixNano2S AddBckToQuery parseNCopies targets
       canStartRebalance (MakeNCopies msg bck)).
Proof.
  unfold Prxtxn.beginPath. cbn [call txn_bck]. unfold makeNCopies.
  repeat beginOK_step.
Qed.

Lemma setBucketProps_beginOK msg bck u :
  beginOK (beginPath (SetBucketProps msg bck u))
    (call Bck_Name Apply Validate DefaultBucketProps CloudBucketProps
       isPrimary CountTargets pname CplaneOperation MaxKeepalive LongTimeout
       cfg_Mirror_Copies GenUUID UnixNano2S AddBckToQuery parseNCopies targets
       canStartRebalance (SetBucketProps msg bck u)).
Proof.
  unfold Prxtxn.beginPath. cbn [call txn_bck]. unfold setBucketProps.
  repeat beginOK_step.
Qed.

Lemma renameBucket_beginOK bckFrom bckTo msg :
  beginOK (beginPath (RenameBucket bckFrom bckTo msg))
    (call Bck_Name Apply Validate DefaultBucketProps CloudBucketProps
       isPrimary CountTargets pname CplaneOperation MaxKeepalive LongTimeout
       cfg_Mirror_Copies GenUUID UnixNano2S AddBckToQuery parseNCopies targets
       canStartRebalance (RenameBucket bckFrom bckTo msg)).
Proof.
  unfold Prxtxn.beginPath. cbn [call txn_bck]. unfold renameBucket.
  repeat beginOK_step.
Qed.

Lemma copyBucket_beginOK bckFrom bckTo msg :
  beginOK (beginPath (CopyBucket bckFrom bckTo msg))
    (call Bck_Name Apply Validate DefaultBucketProps CloudBucketProps
       isPrimary CountTargets pname CplaneOperation MaxKeepalive LongTimeout
       cfg_Mirror_Copies GenUUID UnixNano2S AddBckToQuery parseNCopies targets
       canStartRebalance (CopyBucket bckFrom bckTo msg)).
Proof.
  unfold Prxtxn.beginPath. cbn [call txn_bck]. unfold copyBucket.
  repeat beginOK_step.
Qed.

(** C1. For every transactional bucket mutation (createBucket, makeNCopies,
    setBucketProps, renameBucket, copyBucket): if the method reaches its
    begin phase, that is, its first broadcast [b] goes out, and a target
    answers it with an error, then [b] is the begin request on the
    transaction path of the bucket, the only other broadcast is the abort on
    the same path, the method returns the first error of the results, and
    the BMD is the one from before the call. *)
Theorem begin_failure_aborts (t : txn) (p p' : proxy) out b rest e0 :
  run t p = (p', out) ->
  bcasts p' = (bcasts p ++ b :: rest)%list ->
  Some e0 ∈ targets b ->
  exists e,
    firstErr (targets b) = Some e /\ Some e ∈ targets b /\
    Path (req b) = [Version; Txn; Bck_Name (txn_bck t); ActBegin] /\
    rest = [abortOf b] /\
    Path (req (abortOf b)) = [Version; Txn; Bck_Name (txn_bck t); ActAbort] /\
    smap (abortOf b) = smap b /\ Body (req (abortOf b)) = Body (req b) /\
    out = Return (Some e) /\
    bmd p' = bmd p.
Proof.
  intros Hrun Hb He.
  assert (Hok : beginOK (beginPath t)
                  (call Bck_Name Apply Validate DefaultBucketProps
                     CloudBucketProps isPrimary CountTargets pname
                     CplaneOperation MaxKeepalive LongTimeout
                     cfg_Mirror_Copies GenUUID UnixNano2S AddBckToQuery
                     parseNCopies targets canStartRebalance t)).
  { destruct t.
    - apply createBucket_beginOK.
    - apply makeNCopies_beginOK.
    - apply setBucketProps_beginOK.
    - apply renameBucket_beginOK.
    - apply copyBucket_beginOK. }
  destruct (firstErr_Some _ _ He) as (e & Hfe & Hin).
  destruct (Hok p p' out Hrun) as [[Hq _]|[(b0 & l & Hb0 & Hnone)|Hfail]].
  - rewrite Hq in Hb. by apply app_self_inv in Hb.
  - rewrite Hb0 in Hb. apply app_inv_head in Hb. injection Hb as <- _.
    congruence.
  - destruct Hfail as (b0 & e' & Hb0 & Hfe' & Hpath & Hout & Hbmd).
    rewrite Hb0 in Hb. apply app_inv_head in Hb. injection Hb as <- <-.
    exists e. assert (e' = e) by congruence. subst e'.
    unfold Prxtxn.beginPath in Hpath.
    repeat split; try done.
    unfold abortOf. cbn [req Path set_path]. rewrite Hpath. reflexivity.
Qed.

Ltac unfold_txn H :=
  cbv [Prxtxn.run call createBucket makeNCopies setBucketProps renameBucket
       copyBucket prepTxnClient beginPhase undoCreateBucket undoUpdateCopies
       makeNprops rmd_modify lock_of
       bind ret return_ Assert defer get_bmd get_smap put_bmd put_rmd
       bcastPost metasync go fresh_uuid nlp_Lock nlp_TryLock nlp_TryRLock
       nlp_Unlock nlp_RUnlock bmd_Get bmd_add bmd_set bmd_del] in H.

Ltac simp_state H :=
  cbn [bmd rmd psmap locks uuids bcasts synced spawned Buckets BVersion
       fst snd set_locks unlock runlock negb
       c_uuid c_smap c_msg c_body c_path c_timeout c_req] in H.

(** C9. [makeNCopies] with copies = 1 is not an error: on an existing
    bucket, with the bucket's name lock free and no target failing, it
    returns nil and the bucket's updated properties have Mirror.Enabled =
    false and Mirror.Copies = 1; for every accepted number of copies the
    updated properties have Mirror.Enabled = (copies > 1) and Mirror.Copies
    = copies, the rest of the properties and the other buckets being as
    before. *)
Theorem makeNCopies_mirror msg bck copies bprops (p p' : proxy) out :
  run (MakeNCopies msg bck) p = (p', out) ->
  parseNCopies (Value msg) = inl copies ->
  isPrimary (psmap p) = true ->
  lock_of p bck = Unlocked ->
  Buckets (bmd p) !! bck = Some bprops ->
  (forall b, firstErr (targets b) = None) ->
  out = Return None /\
  Buckets (bmd p') !! bck = Some (set_mirror bprops (1 <? copies) copies) /\
  (forall nprops, Buckets (bmd p') !! bck = Some nprops ->
     Mirror_Enabled (Mirror nprops) = (1 <? copies) /\
     Mirror_Copies (Mirror nprops) = copies /\
     EC nprops = EC bprops /\ Renamed nprops = Renamed bprops /\
     rest nprops = rest bprops) /\
  (copies = 1 ->
   forall nprops, Buckets (bmd p') !! bck = Some nprops ->
     Mirror nprops = {| Mirror_Enabled := false; Mirror_Copies := 1 |}) /\
  BVersion (bmd p') = BVersion (bmd p) + 1 /\
  (forall bck', bck' <> bck ->
     Buckets (bmd p') !! bck' = Buckets (bmd p) !! bck') /\
  lock_of p' bck = Unlocked.
Proof.
  intros Hrun Hparse Hprim Hlock Hb Hok.
  unfold lock_of in Hlock.
  unfold_txn Hrun. rewrite Hprim, Hparse in Hrun. simp_state Hrun.
  rewrite Hlock in Hrun. simp_state Hrun.
  rewrite Hb, Hok in Hrun. simp_state Hrun.
  rewrite Hb, Hok in Hrun. simp_state Hrun.
  injection Hrun as <- <-.
  unfold lock_of. cbn [bmd Buckets BVersion locks unlock set_locks].
  rewrite !lookup_insert_eq.
  split; [reflexivity|]. split; [reflexivity|]. split.
  { intros nprops [= <-]. done. }
  split.
  { intros -> nprops [= <-]. reflexivity. }
  split; [reflexivity|]. split; [|reflexivity].
  intros bck' Hne. by rewrite lookup_insert_ne.
Qed.

Lemma lock_of_insert (l : gmap Bck nlp) b b' v :
  default Unlocked (<[b := v]> l !! b')
  = if decide (b = b') then v else default Unlocked (l !! b').
Proof.
  destruct (decide (b = b')) as [->|Hne].
  - by rewrite lookup_insert_eq.
  - by rewrite lookup_insert_ne.
Qed.

(** C2 (amended). Once the proxy can start a rebalance, [renameBucket]
    returns BucketIsBusy for the source if the try-lock of the source name
    lock fails, and BucketIsBusy for the destination if the try-lock of the
    destination name lock fails (the source lock is released again); with
    both locks taken it returns BucketDoesNotExist if the source bucket is
    absent from the BMD and BucketAlreadyExists if the destination is
    present, the BMD being untouched and both locks released; and when no
    target fails, its BMD update keeps the source bucket with its Renamed
    property set and adds the destination bucket with a copy of the source's
    properties, all other buckets being as before. *)
Theorem renameBucket_spec bckFrom bckTo msg (p p' : proxy) out :
  run (RenameBucket bckFrom bckTo msg) p = (p', out) ->
  canStartRebalance = None ->
  (lock_of p bckFrom <> Unlocked ->
   out = Return (Some (ErrorBucketIsBusy bckFrom pname)) /\ p' = p) /\
  (lock_of p bckFrom = Unlocked ->
   bckTo = bckFrom \/ lock_of p bckTo <> Unlocked ->
   out = Return (Some (ErrorBucketIsBusy bckTo pname)) /\
   bmd p' = bmd p /\ lock_of p' bckFrom = Unlocked) /\
  (lock_of p bckFrom = Unlocked -> bckTo <> bckFrom ->
   lock_of p bckTo = Unlocked ->
   (Buckets (bmd p) !! bckFrom = None ->
    out = Return (Some (ErrorBucketDoesNotExist bckFrom pname)) /\
    bmd p' = bmd p /\
    lock_of p' bckFrom = Unlocked /\ lock_of p' bckTo = Unlocked) /\
   (is_Some (Buckets (bmd p) !! bckFrom) ->
    is_Some (Buckets (bmd p) !! bckTo) ->
    out = Return (Some (ErrorBucketAlreadyExists bckTo pname)) /\
    bmd p' = bmd p /\
    lock_of p' bckFrom = Unlocked /\ lock_of p' bckTo = Unlocked) /\
   (forall bprops,
      Buckets (bmd p) !! bckFrom = Some bprops ->
      Buckets (bmd p) !! bckTo = None ->
      isPrimary (psmap p) = true ->
      (forall b, firstErr (targets b) = None) ->
      out = Return None /\
      Buckets (bmd p') !! bckFrom = Some (set_renamed bprops ActRenameLB) /\
      Buckets (bmd p') !! bckTo = Some bprops /\
      (forall bck, bck <> bckFrom -> bck <> bckTo ->
         Buckets (bmd p') !! bck = Buckets (bmd p) !! bck) /\
      BVersion (bmd p) < BVersion (bmd p') /\
      lock_of p' bckFrom = WLocked /\ lock_of p' bckTo = WLocked /\
      spawned p' = (spawned p ++ [waitRebalance (rmd p') bckFrom bckTo])%list)).
Proof.
  intros Hrun Hreb. unfold lock_of.
  unfold_txn Hrun. rewrite Hreb in Hrun. simp_state Hrun.
  split; [|split].
  - intros Hbusy.
    destruct (default Unlocked (locks p !! bckFrom)); [done| |];
      simp_state Hrun; injection Hrun as <- <-; done.
  - intros Hfree Hto. rewrite Hfree in Hrun. simp_state Hrun.
    rewrite lock_of_insert in Hrun.
    destruct (decide (bckFrom = bckTo)) as [Heq|Hne].
    + simp_state Hrun. injection Hrun as <- <-. cbn [bmd locks unlock set_locks].
      rewrite lookup_insert_eq. done.
    + destruct Hto as [Heq|Hto]; [congruence|].
      destruct (default Unlocked (locks p !! bckTo)); [done| |];
        simp_state Hrun; injection Hrun as <- <-; cbn [bmd locks unlock set_locks];
        rewrite lookup_insert_eq; done.
  - intros Hfree Hne Hfree'. rewrite Hfree in Hrun. simp_state Hrun.
    rewrite lock_of_insert in Hrun.
    rewrite decide_False in Hrun by congruence.
    rewrite Hfree' in Hrun. simp_state Hrun.
    split; [|split].
    + intros Hfrom. rewrite Hfrom in Hrun. simp_state Hrun.
      injection Hrun as <- <-. cbn [bmd locks unlock set_locks].
      rewrite lookup_insert_eq.
      rewrite lookup_insert_ne by congruence. rewrite lookup_insert_eq. done.
    + intros [bp Hfrom] [bp' Hto]. rewrite Hfrom, Hto in Hrun.
      simp_state Hrun.
      injection Hrun as <- <-. cbn [bmd locks unlock set_locks].
      rewrite lookup_insert_eq.
      rewrite lookup_insert_ne by congruence. rewrite lookup_insert_eq. done.
    + intros bprops Hfrom Hto Hprim Hok.
      rewrite Hfrom, Hto in Hrun. simp_state Hrun.
      rewrite Hprim in Hrun. simp_state Hrun.
      rewrite Hok in Hrun. simp_state Hrun.
      rewrite Hfrom, Hto in Hrun. simp_state Hrun.
      injection Hrun as <- <-. cbn [bmd rmd locks spawned Buckets BVersion unlock set_locks].
      rewrite lookup_insert_eq.
      rewrite (lookup_insert_ne _ bckFrom bckTo) by congruence.
      rewrite !lookup_insert_eq.
      rewrite (lookup_insert_ne _ bckTo bckFrom) by congruence.
      rewrite lookup_insert_eq.
      repeat split; try done; [|lia].
      intros bck H1 H2. by rewrite !lookup_insert_ne.
Qed.

(** *** more on the helpers and on the protocol *)

Local Abbreviation BucketProps := (@BucketProps Rest).
Local Abbreviation makeNprops :=
  (@makeNprops Bck _ _ Rest RawValue PropsToUpdate Smap Apply Validate
     CountTargets cfg_Mirror_Copies).

(** X17. [makeNprops] leaves the proxy as it is and, with [a] the properties
    after [Apply]: if EC is enabled before and after and its configuration
    differs, it returns the "once enabled, EC configuration can be only
    disabled" error; otherwise the error is what [Validate] says of the
    returned properties, and in those properties an enabled mirror never
    has exactly one copy (a mirror that is switched on with one copy gets
    max(cfg.Mirror.Copies, 2), any other mirror with one copy is switched
    off), a newly enabled EC has neither zero data slices nor zero parity
    slices, an EC that stays enabled is unchanged, and nothing else
    differs from [a]. *)
Theorem makeNprops_normalizes (bprops : BucketProps) (u : PropsToUpdate)
    (p : proxy) :
  exists nprops err,
    makeNprops bprops u p = (p, Val (nprops, err)) /\
    (EC_Enabled (EC bprops) = true /\
     EC_Enabled (EC (Apply bprops u)) = true /\
     EC (Apply bprops u) <> EC bprops ->
     nprops = Apply bprops u /\ err = Some ErrECReconfig) /\
    (~ (EC_Enabled (EC bprops) = true /\
        EC_Enabled (EC (Apply bprops u)) = true /\
        EC (Apply bprops u) <> EC bprops) ->
     err = Validate nprops (CountTargets (psmap p)) /\
     (Mirror_Enabled (Mirror nprops) = true ->
      Mirror_Copies (Mirror nprops) <> 1) /\
     (Mirror_Enabled (Mirror bprops) = false ->
      Mirror_Enabled (Mirror (Apply bprops u)) = true ->
      Mirror_Copies (Mirror (Apply bprops u)) = 1 ->
      Mirror nprops = {| Mirror_Enabled := true;
                         Mirror_Copies := Z.max cfg_Mirror_Copies 2 |}) /\
     (EC_Enabled (EC bprops) = false -> EC_Enabled (EC nprops) = true ->
      EC_DataSlices (EC nprops) <> 0 /\ EC_ParitySlices (EC nprops) <> 0) /\
     (EC_Enabled (EC bprops) = true -> EC_Enabled (EC nprops) = true ->
      EC nprops = EC bprops) /\
     EC_Enabled (EC nprops) = EC_Enabled (EC (Apply bprops u)) /\
     Renamed nprops = Renamed (Apply bprops u) /\
     rest nprops = rest (Apply bprops u)).
Proof.
  unfold Prxtxn.makeNprops. cbv [bind get_smap ret]. cbv zeta.
  set (a := Apply bprops u).
  destruct (EC_Enabled (EC bprops)) eqn:Eb;
    destruct (EC_Enabled (EC a)) eqn:Ea; cbn [andb negb].
  - (* enabled before and after *)
    destruct (bool_decide (EC bprops = EC a)) eqn:Eeq; cbn [negb].
    + apply bool_decide_eq_true in Eeq.
      eexists _, _. split; [reflexivity|]. split.
      { intros (_ & _ & Hne). congruence. }
      intros _. split; [reflexivity|].
      destruct (Mirror_Enabled (Mirror bprops)) eqn:Mb;
        destruct (Mirror_Enabled (Mirror a)) eqn:Ma;
        destruct (Z.eqb_spec (Mirror_Copies (Mirror a)) 1) as [Mc|Mc];
        cbn [negb andb Mirror EC Renamed rest set_mirror Mirror_Enabled
             Mirror_Copies];
          repeat split; try congruence; try lia.
    + apply bool_decide_eq_false in Eeq.
      eexists _, _. split; [reflexivity|]. split; [done|].
      intros Hn. exfalso. apply Hn. repeat split; congruence.
  - eexists _, _. split; [reflexivity|]. split.
    { intros (_ & ? & _). congruence. }
    intros _. split; [reflexivity|].
    destruct (Mirror_Enabled (Mirror bprops)) eqn:Mb;
      destruct (Mirror_Enabled (Mirror a)) eqn:Ma;
      destruct (Z.eqb_spec (Mirror_Copies (Mirror a)) 1) as [Mc|Mc];
      cbn [negb andb Mirror EC Renamed rest set_mirror Mirror_Enabled
           Mirror_Copies];
      repeat split; try congruence; try lia.
  - eexists _, _. split; [reflexivity|]. split.
    { intros (? & _ & _). congruence. }
    intros _. split; [reflexivity|].
    cbn [negb andb Mirror EC Renamed rest set_mirror set_ec Mirror_Enabled
         Mirror_Copies EC_Enabled EC_DataSlices EC_ParitySlices].
    destruct (Z.eqb_spec (EC_DataSlices (EC a)) 0) as [Ed|Ed];
      destruct (Z.eqb_spec (EC_ParitySlices (EC a)) 0) as [Ep|Ep];
      destruct (Mirror_Enabled (Mirror bprops)) eqn:Mb;
      destruct (Mirror_Enabled (Mirror a)) eqn:Ma;
      destruct (Z.eqb_spec (Mirror_Copies (Mirror a)) 1) as [Mc|Mc];
      cbn [negb andb Mirror EC Renamed rest set_mirror set_ec Mirror_Enabled
           Mirror_Copies EC_Enabled EC_DataSlices EC_ParitySlices];
      rewrite ?Ma; cbn [negb andb Mirror EC Renamed rest set_mirror set_ec
           Mirror_Enabled Mirror_Copies EC_Enabled EC_DataSlices
           EC_ParitySlices];
      cbn [negb andb Mirror EC Renamed rest set_mirror set_ec Mirror_Enabled
           Mirror_Copies EC_Enabled EC_DataSlices EC_ParitySlices];
      repeat split; try congruence; try lia.
  - eexists _, _. split; [reflexivity|]. split.
    { intros (? & _ & _). congruence. }
    intros _. split; [reflexivity|].
    destruct (Mirror_Enabled (Mirror bprops)) eqn:Mb;
      destruct (Mirror_Enabled (Mirror a)) eqn:Ma;
      destruct (Z.eqb_spec (Mirror_Copies (Mirror a)) 1) as [Mc|Mc];
      cbn [negb andb Mirror EC Renamed rest set_mirror Mirror_Enabled
           Mirror_Copies];
      repeat split; try congruence; try lia.
Qed.

Local Abbreviation isCommitOf :=
  (@isCommitOf Bck Rest RawValue Smap LongTimeout).
Local Abbreviation commitChecked :=
  (@commitChecked Bck Rest RawValue PropsToUpdate Header).

(** the innermost scrutinee at the head of a term *)
Ltac inner t :=
  match t with
  | match ?x with _ => _ end => inner x
  | ?f _ => inner_app f
  | _ => t
  end
with inner_app f :=
  match f with
  | match ?x with _ => _ end => inner x
  | ?g _ => inner_app g
  end.

(** one step of the symbolic run of a method: split on what the run reads
    next *)
Ltac run_step H :=
  simp_state H;
  lazymatch type of H with
  | ?l = _ =>
      let s := inner l in
      lazymatch s with
      | (_, _) => fail
      | _ => destruct s eqn:?
      end
  end.

Local Abbreviation logShape :=
  (@logShape Bck _ _ Rest RawValue PropsToUpdate Header Smap Bck_Name
     LongTimeout targets).

Ltac leaf_tac :=
  cbn [bcasts bmd unlock runlock set_locks Datatypes.id];
  unfold Datatypes.id; cbv [runlock lock_of];
  cbn [bcasts bmd unlock set_locks];
  repeat match goal with
         | |- context [bcasts (match ?x with _ => _ end)] => destruct x
         end;
  cbn [bcasts bmd unlock runlock set_locks];
  lazymatch goal with
  | |- (bcasts ?p = bcasts ?p /\ _) \/ _ =>
      left; split; [reflexivity|split; [discriminate|reflexivity]]
  | |- (((?l ++ [?b1]) ++ [?b2])%list = _ /\ _) \/ _ =>
      right;
      first
        [ left; exists b1;
          split; [rewrite <- app_assoc; reflexivity|];
          split; [reflexivity|];
          split; [eassumption|];
          split; [discriminate|reflexivity]
        | right; exists b1, b2;
          split; [rewrite <- app_assoc; reflexivity|];
          split; [reflexivity|];
          split; [eassumption|];
          split; [repeat split; reflexivity|];
          cbn [commitChecked Prxtxn.commitChecked];
          first [reflexivity | symmetry; eassumption] ]
  end.

Lemma createBucket_log msg bck h (p p' : proxy) e :
  run (CreateBucket msg bck h) p = (p', Return e) ->
  logShape (CreateBucket msg bck h) p p' e.
Proof.
  intros Hrun. unfold_txn Hrun. unfold Prxtxn.logShape.
  repeat run_step Hrun.
  all: simp_state Hrun; try discriminate Hrun.
  all: injection Hrun as <- <-.
  all: leaf_tac.
Qed.

Ltac log_tac Hrun :=
  unfold_txn Hrun; unfold Prxtxn.logShape;
  repeat run_step Hrun;
  simp_state Hrun; try discriminate Hrun;
  injection Hrun as <- <-;
  leaf_tac.

Lemma makeNCopies_log msg bck (p p' : proxy) e :
  run (MakeNCopies msg bck) p = (p', Return e) ->
  logShape (MakeNCopies msg bck) p p' e.
Proof. intros Hrun. log_tac Hrun. Qed.

Lemma setBucketProps_log msg bck u (p p' : proxy) e :
  run (SetBucketProps msg bck u) p = (p', Return e) ->
  logShape (SetBucketProps msg bck u) p p' e.
Proof. intros Hrun. log_tac Hrun. Qed.

Lemma renameBucket_log bckFrom bckTo msg (p p' : proxy) e :
  run (RenameBucket bckFrom bckTo msg) p = (p', Return e) ->
  logShape (RenameBucket bckFrom bckTo msg) p p' e.
Proof. intros Hrun. log_tac Hrun. Qed.

Lemma copyBucket_log bckFrom bckTo msg (p p' : proxy) e :
  run (CopyBucket bckFrom bckTo msg) p = (p', Return e) ->
  logShape (CopyBucket bckFrom bckTo msg) p p' e.
Proof. intros Hrun. log_tac Hrun. Qed.

(** X18. Whatever one of the five transactions has broadcast when it returns
    is one of three logs: nothing, and then it returns an error and the BMD
    is untouched; or the begin request followed by the abort on the same
    path, and then it returns the first error of the begin results and the
    BMD is untouched; or the begin request, on which no target failed,
    followed by the commit request of the same transaction (same path up
    to the last segment, same membership, same message and transaction id,
    long timeout).  So a commit is never sent after a failed begin, abort
    and commit are never both sent, and a nil return means that the commit
    went out; create-bucket and make-n-copies return the first error of the
    commit results, the other three ignore them. *)
Theorem txn_broadcast_log (t : txn) (p p' : proxy) e :
  run t p = (p', Return e) ->
  (bcasts p' = bcasts p /\ e <> None /\ bmd p' = bmd p) \/
  (exists b,
     bcasts p' = (bcasts p ++ [b; abortOf b])%list /\
     Path (req b) = [Version; Txn; Bck_Name (txn_bck t); ActBegin] /\
     firstErr (targets b) = e /\ e <> None /\ bmd p' = bmd p) \/
  (exists b c,
     bcasts p' = (bcasts p ++ [b; c])%list /\
     Path (req b) = [Version; Txn; Bck_Name (txn_bck t); ActBegin] /\
     firstErr (targets b) = None /\ isCommitOf b c /\
     e = if commitChecked t then firstErr (targets c) else None).
Proof.
  intros Hrun.
  change (logShape t p p' e).
  destruct t.
  - by apply createBucket_log.
  - by apply makeNCopies_log.
  - by apply setBucketProps_log.
  - by apply renameBucket_log.
  - by apply copyBucket_log.
Qed.

Local Abbreviation destroyBucket :=
  (@destroyBucket Bck _ _ Rest RawValue Smap pname).

(** X19. [destroyBucket] is not a transaction: it never broadcasts.  Waiting
    for the name lock apart, it returns BucketDoesNotExist and changes
    nothing when the BMD does not have the bucket; otherwise it returns
    nil, the new BMD is the old one with the bucket deleted, exactly that
    BMD is handed to the metasyncer once, and the name lock is free again
    in both cases. *)
Theorem destroyBucket_spec msg bck (p p' : proxy) out :
  destroyBucket msg bck p = (p', out) ->
  bcasts p' = bcasts p /\
  (lock_of p bck <> Unlocked -> out = Blocked /\ p' = p) /\
  (lock_of p bck = Unlocked ->
   lock_of p' bck = Unlocked /\
   match bmd_Get (bmd p) bck with
   | None =>
       out = Return (Some (ErrorBucketDoesNotExist bck pname)) /\
       bmd p' = bmd p /\ synced p' = synced p
   | Some _ =>
       out = Return None /\
       bmd p' = snd (bmd_del (bmd p) bck) /\
       bmd_Get (bmd p') bck = None /\
       BVersion (bmd p') = BVersion (bmd p) + 1 /\
       synced p'
       = (synced p ++ [(RevsBMD (bmd p'), newAisMsg msg (Some (bmd p')))])%list
   end).
Proof.
  intros Hrun. unfold Prxtxn.destroyBucket in Hrun. unfold lock_of.
  cbv [bind ret return_ Assert defer get_bmd put_bmd metasync nlp_Lock
       lock_of bmd_Get bmd_del] in Hrun.
  destruct (default Unlocked (locks p !! bck)) eqn:Hl.
  - simp_state Hrun.
    destruct (Buckets (bmd p) !! bck) as [props|] eqn:Hb;
      simp_state Hrun; injection Hrun as <- <-;
      unfold bmd_Get, bmd_del;
      cbn [bcasts bmd synced locks unlock set_locks Buckets BVersion];
      rewrite ?Hb; cbn [snd Buckets BVersion];
      rewrite lookup_insert_eq; rewrite ?lookup_delete_eq;
      (split; [reflexivity|split; [done|]]); intros _; done.
  - injection Hrun as <- <-. split; [reflexivity|]. split; [done|].
    intros ?; discriminate.
  - injection Hrun as <- <-. split; [reflexivity|]. split; [done|].
    intros ?; discriminate.
Qed.

Lemma set_mirror_back (bprops : BucketProps) en c :
  set_mirror (set_mirror bprops en c) (Mirror_Enabled (Mirror bprops))
    (Mirror_Copies (Mirror bprops)) = bprops.
Proof. destruct bprops as [[] ? ? ?]. reflexivity. Qed.

(** X20. "Commit must go thru": when every target accepts the begin request
    of create-bucket and a target fails the commit, [createBucket] returns
    the first error of the commit results after it has undone its update:
    the bucket is deleted again, so the BMD holds the buckets it held
    before the call, two versions later, both BMDs (with and without the
    bucket) went to the metasyncer, in that order, and the name lock is
    free. *)
Theorem createBucket_commit_failure msg bck h (p p' : proxy) out e :
  run (CreateBucket msg bck h) p = (p', out) ->
  isPrimary (psmap p) = true ->
  lock_of p bck = Unlocked ->
  Buckets (bmd p) !! bck = None ->
  (forall b, timeout b = None -> firstErr (targets b) = None) ->
  (forall b, timeout b = Some LongTimeout -> firstErr (targets b) = Some e) ->
  out = Return (Some e) /\
  Buckets (bmd p') = Buckets (bmd p) /\
  BVersion (bmd p') = BVersion (bmd p) + 2 /\
  (exists props m1 m2,
     synced p'
     = (synced p ++
        [(RevsBMD {| BVersion := BVersion (bmd p) + 1;
                     Buckets := <[bck := props]> (Buckets (bmd p)) |}, m1);
         (RevsBMD (bmd p'), m2)])%list) /\
  lock_of p' bck = Unlocked.
Proof.
  intros Hrun Hprim Hlock Hb Hbegin Hcommit. unfold lock_of in *.
  unfold_txn Hrun.
  repeat (simp_state Hrun;
          first [ rewrite Hlock in Hrun | rewrite Hb in Hrun
                | rewrite Hprim in Hrun
                | rewrite Hbegin in Hrun by reflexivity
                | rewrite Hcommit in Hrun by reflexivity
                | rewrite lookup_insert_eq in Hrun ]).
  simp_state Hrun.
  injection Hrun as <- <-.
  cbn [bmd Buckets BVersion synced locks unlock set_locks].
  rewrite lookup_insert_eq. rewrite delete_insert_id by exact Hb.
  split; [reflexivity|]. split; [reflexivity|]. split; [lia|].
  split; [|reflexivity].
  eexists _, _, _. rewrite <- app_assoc. reflexivity.
Qed.

(** X21. When every target accepts the begin request of make-n-copies and a
    target fails the commit, [makeNCopies] returns the first error of the
    commit results after it has put the mirror configuration back: the
    bucket has the properties it had before the call and all other buckets
    are untouched, two BMD versions later, and the name lock is free. *)
Theorem makeNCopies_commit_failure msg bck copies bprops (p p' : proxy)
    out e :
  run (MakeNCopies msg bck) p = (p', out) ->
  parseNCopies (Value msg) = inl copies ->
  isPrimary (psmap p) = true ->
  lock_of p bck = Unlocked ->
  Buckets (bmd p) !! bck = Some bprops ->
  (forall b, timeout b = None -> firstErr (targets b) = None) ->
  (forall b, timeout b = Some LongTimeout -> firstErr (targets b) = Some e) ->
  out = Return (Some e) /\
  Buckets (bmd p') = Buckets (bmd p) /\
  BVersion (bmd p') = BVersion (bmd p) + 2 /\
  length (synced p') = (length (synced p) + 2)%nat /\
  lock_of p' bck = Unlocked.
Proof.
  intros Hrun Hparse Hprim Hlock Hb Hbegin Hcommit. unfold lock_of in *.
  unfold_txn Hrun.
  repeat (simp_state Hrun;
          first [ rewrite Hlock in Hrun | rewrite Hb in Hrun
                | rewrite Hprim in Hrun | rewrite Hparse in Hrun
                | rewrite Hbegin in Hrun by reflexivity
                | rewrite Hcommit in Hrun by reflexivity
                | rewrite lookup_insert_eq in Hrun ]).
  simp_state Hrun.
  injection Hrun as <- <-.
  cbn [bmd Buckets BVersion synced locks unlock set_locks].
  rewrite lookup_insert_eq.
  rewrite set_mirror_back, insert_insert_eq, insert_id by exact Hb.
  split; [reflexivity|]. split; [reflexivity|]. split; [lia|].
  split; [|reflexivity].
  rewrite !length_app. simpl. lia.
Qed.

Ltac lock_leaf :=
  let b0 := fresh "b0" in
  intros b0; cbv [runlock lock_of]; cbn [locks unlock set_locks];
  rewrite ?lock_of_insert in *;
  repeat first
    [ progress subst
    | case_decide
    | progress (cbn [locks unlock set_locks] in * )
    | progress (rewrite ?lock_of_insert in * )
    | match goal with
      | |- context [match ?x with _ => _ end] => destruct x eqn:?
      end ];
  try congruence.

Ltac lock_at :=
  cbv [runlock lock_of]; cbn [locks unlock set_locks];
  rewrite ?lock_of_insert in *;
  repeat first
    [ progress subst
    | case_decide
    | progress (cbn [locks unlock set_locks] in * )
    | progress (rewrite ?lock_of_insert in * ) ];
  try congruence; eauto.

Lemma spawned_runlock b (p : proxy) : spawned (runlock b p) = spawned p.
Proof. unfold runlock. by repeat case_match. Qed.

Ltac locks_tac Hrun :=
  unfold_txn Hrun;
  repeat run_step Hrun;
  simp_state Hrun; try discriminate Hrun;
  injection Hrun as <- <-;
  rewrite ?spawned_runlock; cbn [spawned unlock set_locks];
  first
    [ split; [lock_leaf|reflexivity]
    | split; [lock_at|]; split; [lock_at|];
      split; [intros ? ? ?; lock_at|]; first [reflexivity | eexists; reflexivity] ].

(** X22. The name locks when a transaction returns.  If it returns an error,
    every name lock is in the state in which the call found it and no
    goroutine was started; the same holds when create-bucket, make-n-copies
    or set-bucket-props return nil.  When rename-bucket returns nil it
    still holds both name locks exclusively, and when copy-bucket returns
    nil it still holds the source lock shared and the destination lock
    exclusively; the other locks are as before and the goroutine that waits
    for the rebalance (for the copy) and then unlocks has been started. *)
Theorem name_locks_after (t : txn) (p p' : proxy) e :
  run t p = (p', Return e) ->
  (forall b, lock_of p b <> RLocked 0) ->
  match t, e with
  | RenameBucket bckFrom bckTo _, None =>
      lock_of p' bckFrom = WLocked /\ lock_of p' bckTo = WLocked /\
      (forall b, b <> bckFrom -> b <> bckTo -> lock_of p' b = lock_of p b) /\
      exists r,
        spawned p' = (spawned p ++ [waitRebalance r bckFrom bckTo])%list
  | CopyBucket bckFrom bckTo _, None =>
      (exists n, lock_of p' bckFrom = RLocked (S n)) /\
      lock_of p' bckTo = WLocked /\
      (forall b, b <> bckFrom -> b <> bckTo -> lock_of p' b = lock_of p b) /\
      spawned p' = (spawned p ++ [waitCopyBuckets bckTo bckFrom bckTo])%list
  | _, _ =>
      (forall b, lock_of p' b = lock_of p b) /\ spawned p' = spawned p
  end.
Proof.
  intros Hrun Hv. unfold lock_of in Hv.
  destruct t as [msg bck h|msg bck|msg bck u|bckFrom bckTo msg|bckFrom bckTo msg].
  - assert (Hg : (forall b, lock_of p' b = lock_of p b) /\
                 spawned p' = spawned p) by locks_tac Hrun.
    by destruct e.
  - assert (Hg : (forall b, lock_of p' b = lock_of p b) /\
                 spawned p' = spawned p) by locks_tac Hrun.
    by destruct e.
  - assert (Hg : (forall b, lock_of p' b = lock_of p b) /\
                 spawned p' = spawned p) by locks_tac Hrun.
    by destruct e.
  - locks_tac Hrun.
  - locks_tac Hrun.
Qed.

Local Abbreviation runGoroutine :=
  (@runGoroutine Bck _ _ Rest RawValue Smap).

(** X23. The locks that rename-bucket and copy-bucket still hold when they
    return nil are released by the goroutine they have started: once that
    goroutine has come to its end ([waitRebalance]: a target's request
    failed, or its answer did not unmarshal, or every target reported a
    finished rebalance; [waitCopyBuckets]: a target's request failed, or no
    target reported a running copy), every name lock is in the state in
    which the transaction found it. *)
Theorem goroutine_unlocks (t : txn) (p p' p'' : proxy) g rr cr :
  run t p = (p', Return None) ->
  (forall b, lock_of p b <> RLocked 0) ->
  spawned p' = (spawned p ++ [g])%list ->
  runGoroutine g rr cr p' = (p'', Val tt) ->
  forall b, lock_of p'' b = lock_of p b.
Proof.
  intros Hrun Hv Hsp Hg. unfold lock_of in Hv.
  destruct t as [msg bck h|msg bck|msg bck u|bckFrom bckTo msg|bckFrom bckTo msg].
  1-3: exfalso;
    assert (Hs : spawned p' = spawned p)
      by (unfold_txn Hrun; repeat run_step Hrun;
          simp_state Hrun; try discriminate Hrun;
          injection Hrun as <-; reflexivity);
    rewrite Hs in Hsp; by apply app_self_inv in Hsp.
  - unfold_txn Hrun; repeat run_step Hrun;
      simp_state Hrun; try discriminate Hrun;
      injection Hrun as <-;
      cbn [spawned] in Hsp; apply app_inv_head in Hsp;
      injection Hsp as <-;
      cbv [Prxtxn.runGoroutine waitRebalance_run] in Hg;
      destruct (rebLoop rr); [|discriminate Hg];
      injection Hg as <-; lock_leaf.
  - unfold_txn Hrun; repeat run_step Hrun;
      simp_state Hrun; try discriminate Hrun;
      injection Hrun as <-;
      cbn [spawned] in Hsp; apply app_inv_head in Hsp;
      injection Hsp as <-;
      cbv [Prxtxn.runGoroutine waitCopyBuckets_run] in Hg;
      destruct (copyLoop cr); try discriminate Hg;
      injection Hg as <-; lock_leaf.
Qed.

End Proxy.

(** *** a concrete cluster *)

Lemma begin_failure_aborts_witness :
  exists e,
    firstErr (Demo.targetsFail Demo.beginReq) = Some e /\
    Some e ∈ Demo.targetsFail Demo.beginReq /\
    Path (req Demo.beginReq) = [Version; Txn; "b1"; ActBegin] /\
    [abortOf Demo.beginReq] = [abortOf Demo.beginReq] /\
    Path (req (abortOf Demo.beginReq)) = [Version; Txn; "b1"; ActAbort] /\
    smap (abortOf Demo.beginReq) = smap Demo.beginReq /\
    Body (req (abortOf Demo.beginReq)) = Body (req Demo.beginReq) /\
    snd (Demo.runFail Demo.copies2 Demo.proxy0)
    = Return (Some e) /\
    bmd (fst (Demo.runFail Demo.copies2 Demo.proxy0)) = bmd Demo.proxy0.
Proof.
  apply (begin_failure_aborts Demo.Bck_Name Demo.Apply Demo.Validate
           Demo.props0 Demo.CloudBucketProps Demo.isPrimary
           Demo.CountTargets Demo.pname Demo.CplaneOperation
           Demo.MaxKeepalive Demo.LongTimeout Demo.cfg_Mirror_Copies
           Demo.GenUUID Demo.UnixNano2S Demo.AddBckToQuery Demo.parseNCopies
           Demo.targetsFail None Demo.copies2 Demo.proxy0 _ _
           Demo.beginReq [abortOf Demo.beginReq] Demo.noSpace).
  - apply surjective_pairing.
  - vm_compute. reflexivity.
  - apply list_elem_of_In. vm_compute. right. left. reflexivity.
Defined.

Lemma makeNCopies_mirror_witness :
  snd (Demo.runOk Demo.copies1 Demo.proxy0) = Return None /\
  Buckets (bmd (fst (Demo.runOk Demo.copies1 Demo.proxy0))) !! "b1"
  = Some (set_mirror Demo.props2 (1 <? 1) 1).
Proof.
  destruct (makeNCopies_mirror Demo.Bck_Name Demo.Apply Demo.Validate
              Demo.props0 Demo.CloudBucketProps Demo.isPrimary
              Demo.CountTargets Demo.pname Demo.CplaneOperation
              Demo.MaxKeepalive Demo.LongTimeout Demo.cfg_Mirror_Copies
              Demo.GenUUID Demo.UnixNano2S Demo.AddBckToQuery
              Demo.parseNCopies Demo.targetsOk None
              (Demo.msg "makencopies" (VRaw 1)) "b1" 1 Demo.props2
              Demo.proxy0 _ _ (surjective_pairing _))
    as (Hout & Hb & _).
  - reflexivity.
  - reflexivity.
  - reflexivity.
  - vm_compute. reflexivity.
  - intros b. reflexivity.
  - split; [exact Hout|exact Hb].
Defined.

Lemma renameBucket_spec_witness :
  snd (Demo.runOk Demo.rename12 Demo.proxy0) = Return None /\
  Buckets (bmd (fst (Demo.runOk Demo.rename12 Demo.proxy0))) !! "b1"
  = Some (set_renamed Demo.props2 ActRenameLB) /\
  Buckets (bmd (fst (Demo.runOk Demo.rename12 Demo.proxy0))) !! "b2"
  = Some Demo.props2.
Proof.
  destruct (renameBucket_spec Demo.Bck_Name Demo.Apply Demo.Validate
              Demo.props0 Demo.CloudBucketProps Demo.isPrimary
              Demo.CountTargets Demo.pname Demo.CplaneOperation
              Demo.MaxKeepalive Demo.LongTimeout Demo.cfg_Mirror_Copies
              Demo.GenUUID Demo.UnixNano2S Demo.AddBckToQuery
              Demo.parseNCopies Demo.targetsOk None
              "b1" "b2" (Demo.msg "renamelb" VNil)
              Demo.proxy0 _ _ (surjective_pairing _) eq_refl)
    as (_ & _ & Hok).
  destruct Hok as (_ & _ & Hok); [reflexivity|discriminate|reflexivity|].
  destruct (Hok Demo.props2) as (Hout & Hfrom & Hto & _).
  - vm_compute. reflexivity.
  - vm_compute. reflexivity.
  - reflexivity.
  - intros b. reflexivity.
  - split; [exact Hout|]. split; [exact Hfrom|exact Hto].
Defined.

(** C2, as stated, fails: when the proxy cannot start a rebalance,
    [renameBucket] returns that error before it tries any lock, also when
    the source name lock is held. *)
Lemma renameBucket_counterexample :
  lock_of Demo.proxyLocked "b1" = WLocked /\
  snd (Demo.runNoRebalance Demo.rename12 Demo.proxyLocked)
  = Return (Some (ErrCannotRename Demo.rebalancing)) /\
  snd (Demo.runNoRebalance Demo.rename12 Demo.proxyLocked)
  <> Return (Some (ErrorBucketIsBusy "b1" Demo.pname)).
Proof. vm_compute. repeat split. discriminate. Qed.

Lemma txn_broadcast_log_witness :
  let p := Demo.proxy0 in
  let p' := fst (Demo.runOk Demo.copies2 Demo.proxy0) in
  let e : option (@error string) := None in
  (bcasts p' = bcasts p /\ e <> None /\ bmd p' = bmd p) \/
  (exists b,
     bcasts p' = (bcasts p ++ [b; abortOf b])%list /\
     Path (req b) = [Version; Txn; "b1"; ActBegin] /\
     firstErr (Demo.targetsOk b) = e /\ e <> None /\ bmd p' = bmd p) \/
  (exists b c,
     bcasts p' = (bcasts p ++ [b; c])%list /\
     Path (req b) = [Version; Txn; "b1"; ActBegin] /\
     firstErr (Demo.targetsOk b) = None /\
     isCommitOf Demo.LongTimeout b c /\
     e = if commitChecked Demo.copies2 then firstErr (Demo.targetsOk c)
         else None).
Proof.
  apply (txn_broadcast_log Demo.Bck_Name Demo.Apply Demo.Validate
           Demo.props0 Demo.CloudBucketProps Demo.isPrimary
           Demo.CountTargets Demo.pname Demo.CplaneOperation
           Demo.MaxKeepalive Demo.LongTimeout Demo.cfg_Mirror_Copies
           Demo.GenUUID Demo.UnixNano2S Demo.AddBckToQuery Demo.parseNCopies
           Demo.targetsOk None Demo.copies2 Demo.proxy0).
  assert (Hs : snd (Demo.runOk Demo.copies2 Demo.proxy0) = Return None)
    by (vm_compute; reflexivity).
  rewrite <- Hs. apply surjective_pairing.
Defined.

Lemma destroyBucket_spec_witness :
  let p := Demo.proxy0 in
  let p' := fst (Demo.destroyBucket (Demo.msg "destroylb" VNil) "b1" p) in
  let out := snd (Demo.destroyBucket (Demo.msg "destroylb" VNil) "b1" p) in
  bcasts p' = bcasts p /\
  (lock_of p "b1" <> Unlocked -> out = Blocked /\ p' = p) /\
  (lock_of p "b1" = Unlocked ->
   lock_of p' "b1" = Unlocked /\
   match bmd_Get (bmd p) "b1" with
   | None =>
       out = Return (Some (ErrorBucketDoesNotExist "b1" Demo.pname)) /\
       bmd p' = bmd p /\ synced p' = synced p
   | Some _ =>
       out = Return None /\
       bmd p' = snd (bmd_del (bmd p) "b1") /\
       bmd_Get (bmd p') "b1" = None /\
       BVersion (bmd p') = BVersion (bmd p) + 1 /\
       synced p'
       = (synced p ++
          [(RevsBMD (bmd p'),
            newAisMsg (Demo.msg "destroylb" VNil) (Some (bmd p')))])%list
   end).
Proof.
  apply (destroyBucket_spec Demo.pname (Demo.msg "destroylb" VNil) "b1"
           Demo.proxy0).
  apply surjective_pairing.
Defined.

Lemma createBucket_commit_failure_witness :
  let p := Demo.proxy0 in
  let p' := fst (Demo.runFailCommit Demo.create3 Demo.proxy0) in
  snd (Demo.runFailCommit Demo.create3 Demo.proxy0)
  = Return (Some Demo.noSpace) /\
  Buckets (bmd p') = Buckets (bmd p) /\
  BVersion (bmd p') = BVersion (bmd p) + 2 /\
  (exists props m1 m2,
     synced p'
     = (synced p ++
        [(RevsBMD {| BVersion := BVersion (bmd p) + 1;
                     Buckets := <["b3" := props]> (Buckets (bmd p)) |}, m1);
         (RevsBMD (bmd p'), m2)])%list) /\
  lock_of p' "b3" = Unlocked.
Proof.
  apply (createBucket_commit_failure Demo.Bck_Name Demo.Apply Demo.Validate
           Demo.props0 Demo.CloudBucketProps Demo.isPrimary
           Demo.CountTargets Demo.pname Demo.CplaneOperation
           Demo.MaxKeepalive Demo.LongTimeout Demo.cfg_Mirror_Copies
           Demo.GenUUID Demo.UnixNano2S Demo.AddBckToQuery Demo.parseNCopies
           Demo.targetsFailCommit None (Demo.msg "createlb" VNil) "b3" None
           Demo.proxy0).
  - apply surjective_pairing.
  - reflexivity.
  - reflexivity.
  - vm_compute. reflexivity.
  - intros b Hb. unfold Demo.targetsFailCommit. rewrite Hb. reflexivity.
  - intros b Hb. unfold Demo.targetsFailCommit. rewrite Hb. reflexivity.
Defined.

Lemma makeNCopies_commit_failure_witness :
  let p := Demo.proxy0 in
  let p' := fst (Demo.runFailCommit Demo.copies1 Demo.proxy0) in
  snd (Demo.runFailCommit Demo.copies1 Demo.proxy0)
  = Return (Some Demo.noSpace) /\
  Buckets (bmd p') = Buckets (bmd p) /\
  BVersion (bmd p') = BVersion (bmd p) + 2 /\
  length (synced p') = (length (synced p) + 2)%nat /\
  lock_of p' "b1" = Unlocked.
Proof.
  apply (makeNCopies_commit_failure Demo.Bck_Name Demo.Apply Demo.Validate
           Demo.props0 Demo.CloudBucketProps Demo.isPrimary
           Demo.CountTargets Demo.pname Demo.CplaneOperation
           Demo.MaxKeepalive Demo.LongTimeout Demo.cfg_Mirror_Copies
           Demo.GenUUID Demo.UnixNano2S Demo.AddBckToQuery Demo.parseNCopies
           Demo.targetsFailCommit None (Demo.msg "makencopies" (VRaw 1)) "b1"
           1 Demo.props2 Demo.proxy0).
  - apply surjective_pairing.
  - reflexivity.
  - reflexivity.
  - reflexivity.
  - vm_compute. reflexivity.
  - intros b Hb. unfold Demo.targetsFailCommit. rewrite Hb. reflexivity.
  - intros b Hb. unfold Demo.targetsFailCommit. rewrite Hb. reflexivity.
Defined.

Lemma name_locks_after_witness :
  let p := Demo.proxy0 in
  let p' := fst (Demo.runOk Demo.copy12 Demo.proxy0) in
  (exists n, lock_of p' "b1" = RLocked (S n)) /\
  lock_of p' "b2" = WLocked /\
  (forall b, b <> "b1" -> b <> "b2" -> lock_of p' b = lock_of p b) /\
  spawned p' = (spawned p ++ [waitCopyBuckets "b2" "b1" "b2"])%list.
Proof.
  apply (name_locks_after Demo.Bck_Name Demo.Apply Demo.Validate
           Demo.props0 Demo.CloudBucketProps Demo.isPrimary
           Demo.CountTargets Demo.pname Demo.CplaneOperation
           Demo.MaxKeepalive Demo.LongTimeout Demo.cfg_Mirror_Copies
           Demo.GenUUID Demo.UnixNano2S Demo.AddBckToQuery Demo.parseNCopies
           Demo.targetsOk None Demo.copy12 Demo.proxy0 _ None).
  - assert (Hs : snd (Demo.runOk Demo.copy12 Demo.proxy0) = Return None)
      by (vm_compute; reflexivity).
    rewrite <- Hs. apply surjective_pairing.
  - intros b. unfold lock_of. simpl. rewrite lookup_empty. discriminate.
Defined.

Lemma goroutine_unlocks_witness :
  let p'' :=
    fst (Demo.runGoroutine (waitCopyBuckets "b2" "b1" "b2") []
           [[CopyStatus false; CopyStatus true; CopyStatus false];
            [CopyStatus false; CopyStatus false; CopyStatus false]]
           (fst (Demo.runOk Demo.copy12 Demo.proxy0))) in
  lock_of p'' "b1" = lock_of Demo.proxy0 "b1" /\
  lock_of p'' "b2" = lock_of Demo.proxy0 "b2".
Proof.
  assert (Hall : forall b,
            lock_of
              (fst (Demo.runGoroutine (waitCopyBuckets "b2" "b1" "b2") []
                      [[CopyStatus false; CopyStatus true; CopyStatus false];
                       [CopyStatus false; CopyStatus false;
                        CopyStatus false]]
                      (fst (Demo.runOk Demo.copy12 Demo.proxy0)))) b
            = lock_of Demo.proxy0 b).
  { apply (goroutine_unlocks Demo.Bck_Name Demo.Apply Demo.Validate
             Demo.props0 Demo.CloudBucketProps Demo.isPrimary
             Demo.CountTargets Demo.pname Demo.CplaneOperation
             Demo.MaxKeepalive Demo.LongTimeout Demo.cfg_Mirror_Copies
             Demo.GenUUID Demo.UnixNano2S Demo.AddBckToQuery
             Demo.parseNCopies Demo.targetsOk None Demo.copy12 Demo.proxy0
             (fst (Demo.runOk Demo.copy12 Demo.proxy0)) _
             (waitCopyBuckets "b2" "b1" "b2") []
             [[CopyStatus false; CopyStatus true; CopyStatus false];
              [CopyStatus false; CopyStatus false; CopyStatus false]]).
    - assert (Hs : snd (Demo.runOk Demo.copy12 Demo.proxy0) = Return None)
        by (vm_compute; reflexivity).
      rewrite <- Hs. apply surjective_pairing.
    - intros b. unfold lock_of. simpl. rewrite lookup_empty. discriminate.
    - vm_compute. reflexivity.
    - apply surjective_pairing. }
  split; apply Hall.
Defined.

End PrxtxnFacts.

(** ** cmn: the demand xaction *)
Module CmnFacts.
Import Cmn.

Local Open Scope string_scope.
Local Open Scope Z_scope.

Lemma wrap64_id z : - 2 ^ 63 <= z < 2 ^ 63 -> wrap64 z = z.
Proof.
  intros Hz. unfold wrap64. rewrite Z.mod_small by lia. lia.
Qed.

Lemma timeouts_idle k r i :
  pending r <= 0 -> renew r = - i -> 0 <= i ->
  i + Z.of_nat k <= 2 ^ 63 ->
  timeouts k r = repeat true k.
Proof.
  revert r i. induction k as [|k IH]; intros r i Hp Hr Hi Hk; [reflexivity|].
  cbn [timeouts repeat]. unfold Timeout.
  destruct (Z.ltb_spec 0 (pending r)) as [?|_]; [lia|]. cbv zeta.
  rewrite Hr, wrap64_id by lia.
  destruct (Z.ltb_spec (- i - 1) 0) as [_|?]; [|lia].
  f_equal. apply (IH _ (i + 1)); cbn [pending renew]; lia.
Qed.

(** X24. [Timeout] of a demand xaction: while work is pending it answers
    false and leaves the renew counter alone; with nothing pending, the
    first check after a [Renew] answers false and every later check
    answers true (up to 2^63 of them, after which the 64-bit counter
    wraps), so that a renewal buys exactly one idle period; a new xaction
    that was never renewed times out at its first idle check. *)
Theorem Timeout_after_Renew (r : XactDemandBase) (k : nat) :
  (0 < pending r -> Timeout r = (false, r)) /\
  (pending r <= 0 -> Z.of_nat k <= 2 ^ 63 ->
   timeouts (S k) (Renew r) = false :: repeat true k) /\
  timeouts 1 NewXactDemandBase = [true].
Proof.
  split; [|split].
  - intros Hp. unfold Timeout.
    destruct (Z.ltb_spec 0 (pending r)); [reflexivity|lia].
  - intros Hp Hk. cbn [timeouts]. unfold Timeout at 1. cbn [Renew pending renew].
    destruct (Z.ltb_spec 0 (pending r)) as [?|_]; [lia|]. cbv zeta.
    rewrite wrap64_id by lia. cbn [Z.ltb Z.compare Z.sub Z.add Z.opp
                                   Z.pos_sub].
    f_equal. apply (timeouts_idle k _ 0); cbn [pending renew]; lia.
  - reflexivity.
Qed.

Lemma Timeout_after_Renew_witness :
  (0 < pending (IncPending NewXactDemandBase) ->
   Timeout (IncPending NewXactDemandBase)
   = (false, IncPending NewXactDemandBase)) /\
  timeouts 4 (Renew NewXactDemandBase) = [false; true; true; true] /\
  timeouts 1 NewXactDemandBase = [true].
Proof.
  destruct (Timeout_after_Renew (IncPending NewXactDemandBase) 3)
    as (H1 & _ & H3).
  destruct (Timeout_after_Renew NewXactDemandBase 3) as (_ & H2 & _).
  split; [exact H1|]. split; [|exact H3].
  apply H2; [vm_compute; discriminate|vm_compute; discriminate].
Defined.

(** X25. The downloader cannot time out while a download is queued or
    running on a jogger: as long as the loop of the jogger has not exited
    and the set of its queue holds a pair, the pending counter of the
    downloader is positive, so [Timeout] answers false and does not use up
    the renewal.  The counter is shared: what it holds without this jogger
    (its value when the jogger was made and what the other joggers added)
    is the other joggers' share, the number of pairs in their sets, which
    is not negative. *)
Theorem no_timeout_while_pending parent tr j a b rn :
  Jogger.run tr (Jogger.newJogger parent) = Some j ->
  Jogger.terminated j = false ->
  Jogger.exists_ (Jogger.q j) a b = true ->
  0 <= parent + Jogger.others tr ->
  0 < Jogger.pending j /\
  Timeout (ofJogger rn j) = (false, ofJogger rn j).
Proof.
  intros Hrun Hter He Hothers.
  pose proof (JoggerFacts.WF_reach parent tr j Hrun) as Hwf.
  pose proof (JoggerFacts.WF_noEmpty _ j Hwf) as Hne.
  unfold Jogger.WF in Hwf. unfold Jogger.exists_ in He.
  destruct (Jogger.m (Jogger.q j)) as [mm|] eqn:Hm; [|discriminate].
  destruct (Jogger.ch (Jogger.q j)); [|done].
  destruct Hwf as (_ & _ & Hp).
  destruct (mm !! a) as [s|] eqn:Hs; [|discriminate].
  assert (Hpos : 0 < Jogger.pending j).
  { rewrite Hp, (JoggerFacts.setSize_delete mm a s Hs).
    assert (size s <> 0%nat); [|lia].
    intros Hz. apply size_empty_inv, leibniz_equiv in Hz.
    by apply (Hne mm a s). }
  split; [exact Hpos|]. unfold Timeout, ofJogger. cbn [pending].
  destruct (Z.ltb_spec 0 (Jogger.pending j)); [reflexivity|lia].
Qed.

Lemma no_timeout_while_pending_witness :
  0 < Jogger.pending Jogger.Demo.shared /\
  Timeout (ofJogger 0 Jogger.Demo.shared)
  = (false, ofJogger 0 Jogger.Demo.shared).
Proof.
  apply (no_timeout_while_pending 5 Jogger.Demo.sharedRun
           Jogger.Demo.shared "j1" "u2" 0).
  - vm_compute. reflexivity.
  - vm_compute. reflexivity.
  - vm_compute. reflexivity.
  - vm_compute. discriminate.
Defined.

End CmnFacts.
